(** * calculate-rule-tokens: frontmatter extraction, update and reporting

    A shallow embedding of [scripts/calculate-rule-tokens.py].

    Text is a Python [str] restricted to the code points U+0000..U+00FF, one
    [ascii] per code point.  On that range [str.isspace] (used by [strip],
    [lstrip] and, through the regular expression engine, by [\s]) and the
    decimal digits matched by [\d] are the finite sets written out below.

    The rules directory is a finite map from the names of its entries, all
    regular files, to the text of each file, the text being what
    [read_text] returns for it.  A path [rules_dir / rule] that is not the
    name of an entry leads to whatever the rest of the file system holds
    there: nothing, a directory, another regular file, or an entry of the
    rules directory reached by another spelling.  Every file is taken to
    hold text that decodes, and a write to a file that exists to succeed.
    The command line is taken as parsed: [main] starts from the [argparse]
    namespace. *)

From Stdlib Require Import Ascii String DecimalString.
From stdpp Require Import functions gmap strings list fin_maps sorting.

Local Open Scope list_scope.

Abbreviation str := (list ascii).

(** ** Python string primitives *)

Module PyStr.

(** A string literal as a list of code points. *)
Definition lit (s : string) : str := list_ascii_of_string s.

Definition NL : ascii := "010"%char.

(** [str.isspace] on a single code point below U+0100:
    TAB LF VT FF CR, FS GS RS US, SPACE, NEL and NBSP. *)
Definition isspace (c : ascii) : bool :=
  let n := nat_of_ascii c in
  ((9 <=? n) && (n <=? 13)) || ((28 <=? n) && (n <=? 32))
  || (n =? 133) || (n =? 160).

(** Decimal digits ([\d]) below U+0100. *)
Definition isdigit (c : ascii) : bool :=
  let n := nat_of_ascii c in (48 <=? n) && (n <=? 57).

Definition eqc (a b : ascii) : bool := Ascii.eqb a b.
Arguments eqc : simpl never.

(** [s.startswith(p)] *)
Fixpoint startswith (p s : str) : bool :=
  match p, s with
  | [], _ => true
  | _ :: _, [] => false
  | a :: p', b :: s' => eqc a b && startswith p' s'
  end.

(** First index [>= i] at which [sub] occurs, scanning [s] whose first
    character has index [i]. *)
Fixpoint find_at (sub s : str) (i : nat) : option nat :=
  if startswith sub s then Some i
  else match s with
       | [] => None
       | _ :: t => find_at sub t (S i)
       end.

(** [s.find(sub, start)]; [None] stands for Python's [-1]. *)
Definition find (s sub : str) (start : nat) : option nat :=
  if length s <? start then None else find_at sub (drop start s) start.

(** [s[i:j]] and [s[i:]] for non-negative [i <= j]. *)
Definition slice (s : str) (i j : nat) : str := take (j - i) (drop i s).
Definition slice_from (s : str) (i : nat) : str := drop i s.

(** [s.lstrip()], [s.rstrip()], [s.strip()] *)
Fixpoint lstrip (s : str) : str :=
  match s with
  | c :: t => if isspace c then lstrip t else s
  | [] => []
  end.

Definition rstrip (s : str) : str := rev (lstrip (rev s)).

Definition strip (s : str) : str := rstrip (lstrip s).

(** [str(n)] for a non-negative integer. *)
Definition str_of_nat (n : nat) : str :=
  lit (NilZero.string_of_uint (Nat.to_uint n)).

End PyStr.

Import PyStr.

(** ** Frontmatter extraction *)

Definition DELIM : str := Eval cbv in lit "---".

(** [extract_content_from_mdc], as a function of the text read from the
    file. *)
Definition extract_content_from_mdc (content : str) : str :=
  match find content DELIM 3 with
  | None => content
  | Some frontmatter_end => lstrip (slice_from content (frontmatter_end + 3))
  end.

(** ** Line-anchored regular expressions

    Every pattern of the script is anchored with [^] and used under
    [re.MULTILINE]: a match can only start at index 0 or just after a line
    feed.  A pattern body is given by its matcher: [m s] is the length of
    the match at the head of [s], if there is one.  The bodies used here are
    a literal followed by greedy character classes that are disjoint from
    what follows them, so the greedy match is the only candidate and no
    backtracking is involved.  No body matches the empty string. *)

Module Re.

(** Length of the longest prefix of [s] whose characters satisfy [p]. *)
Fixpoint span (p : ascii -> bool) (s : str) : nat :=
  match s with
  | c :: t => if p c then S (span p t) else 0
  | [] => 0
  end.

Definition RULE_TOKEN_COUNT : str := Eval cbv in lit "ruleTokenCount:".
Definition ALWAYS_APPLY : str := Eval cbv in lit "alwaysApply:".
Definition TRUE : str := Eval cbv in lit "true".

(** [ruleTokenCount:\s*\d+] *)
Definition rule_token_count_field (s : str) : option nat :=
  if startswith RULE_TOKEN_COUNT s then
    let r := drop (length RULE_TOKEN_COUNT) s in
    let w := span isspace r in
    let d := span isdigit (drop w r) in
    if d =? 0 then None else Some (length RULE_TOKEN_COUNT + w + d)
  else None.

(** [alwaysApply:] (the group [(alwaysApply:)] of the insertion pattern) *)
Definition always_apply_key (s : str) : option nat :=
  if startswith ALWAYS_APPLY s then Some (length ALWAYS_APPLY) else None.

(** [alwaysApply:\s*true] *)
Definition always_apply_true (s : str) : option nat :=
  if startswith ALWAYS_APPLY s then
    let r := drop (length ALWAYS_APPLY) s in
    let w := span isspace r in
    if startswith TRUE (drop w r)
    then Some (length ALWAYS_APPLY + w + length TRUE) else None
  else None.

(** [re.search(r"^...", s, re.MULTILINE)] as a truth value; [bol] tells
    whether the head of [s] is at the beginning of a line. *)
Fixpoint search_from (m : str -> option nat) (bol : bool) (s : str) : bool :=
  (bol && bool_decide (is_Some (m s)))
  || match s with
     | [] => false
     | c :: t => search_from m (eqc c NL) t
     end.

Definition search (m : str -> option nat) (s : str) : bool :=
  search_from m true s.

(** [re.sub(r"^...", repl, s, flags=re.MULTILINE)]: every match, scanning
    left to right, is replaced by [repl]; a match of length [S k] consumes
    its first character and leaves [k] characters to [skip]. *)
Fixpoint sub_from (m : str -> option nat) (repl : str)
    (skip : nat) (bol : bool) (s : str) : str :=
  match s with
  | [] => []
  | c :: t =>
      match skip with
      | S k => sub_from m repl k (eqc c NL) t
      | O =>
          match (if bol then m s else None) with
          | Some (S k) => repl ++ sub_from m repl k (eqc c NL) t
          | _ => c :: sub_from m repl 0 (eqc c NL) t
          end
      end
  end.

Definition sub (m : str -> option nat) (repl s : str) : str :=
  sub_from m repl 0 true s.

End Re.

(** ** Frontmatter update *)

Inductive update_result :=
| NoFrontmatter
| MalformedFrontmatter
| Rewritten (new_content : str).

(** [f"ruleTokenCount: {token_count}"] *)
Definition rule_token_count_line (token_count : nat) : str :=
  Re.RULE_TOKEN_COUNT ++ lit " " ++ str_of_nat token_count.

(** The frontmatter block after the field has been set: the three branches
    of [update_rule_token_count].  In the second one the template
    [\1] stands for the group [(alwaysApply:)], a literal. *)
Definition set_rule_token_count (frontmatter : str) (token_count : nat) : str :=
  if Re.search Re.rule_token_count_field frontmatter then
    Re.sub Re.rule_token_count_field (rule_token_count_line token_count) frontmatter
  else if Re.search Re.always_apply_key frontmatter then
    Re.sub Re.always_apply_key
      (rule_token_count_line token_count ++ [NL] ++ Re.ALWAYS_APPLY) frontmatter
  else
    frontmatter ++ [NL] ++ rule_token_count_line token_count.

(** [update_rule_token_count] on the text read from the file: which text,
    if any, is written back. *)
Definition update_text (content : str) (token_count : nat) : update_result :=
  if negb (startswith DELIM content) then NoFrontmatter
  else
    match find content DELIM 3 with
    | None => MalformedFrontmatter
    | Some frontmatter_end =>
        let frontmatter := strip (slice content 3 frontmatter_end) in
        let rest := slice_from content (frontmatter_end + 3) in
        let frontmatter := set_rule_token_count frontmatter token_count in
        Rewritten (DELIM ++ [NL] ++ frontmatter ++ [NL] ++ DELIM ++ rest)
    end.

(** Text written as lines, for examples. *)
Fixpoint text (ls : list string) : str :=
  match ls with
  | [] => []
  | [l] => lit l
  | l :: rest => lit l ++ NL :: text rest
  end.

(** ** The tokenizer

    [tiktoken] is an external library; the script uses three entry points of
    it.  [encoding_for_model] answers [None] where Python raises
    [KeyError]; [get_encoding] and [encode] are taken to answer on every
    input. *)

Record tiktoken := {
  encoding : Type;
  encoding_for_model : string -> option encoding;
  get_encoding : string -> encoding;
  encode : encoding -> str -> list nat
}.

Definition count_tokens (tk : tiktoken) (text : str) : nat :=
  match encoding_for_model tk "gpt-4" with
  | Some enc => length (encode tk enc text)
  | None => length (encode tk (get_encoding tk "cl100k_base") text)
  end.

(** ** Processes: the rules directory, standard output, exceptions *)

(** What [print] writes, one constructor per message of the script. *)
Inductive message :=
| ErrorTiktokenNotInstalled
| ErrorRulesDirNotFound (rules_dir : string)
| ErrorRuleFileNotFound (rules_dir rule : string)
| NoMdcFilesFound (rules_dir : string)
| WarningNoFrontmatter (file : string)
| WarningMalformedFrontmatter (file : string)
| TableHeader
| TableRule
| FileLine (name : string) (token_count : nat)
| UpdatedRuleTokenCount
| CouldNotUpdateRuleTokenCount
| TotalTokens (total_tokens : nat)
| AlwaysAppliedTokens (always_applied_tokens total_tokens : nat)
| UpdatedRuleFiles (n : nat).

Inductive exn :=
| SystemExit (code : nat)
| FileNotFoundError
| IsADirectoryError
| ZeroDivisionError.

(** What the file system holds at [rules_dir / path] for a [path] that is not
    the name of an entry of the rules directory: nothing; a directory (the
    rules directory itself, its parent, a sub-directory); a regular file that
    is no entry of the rules directory (in a sub-directory, above the
    directory, at an absolute path); or the entry [name] of the rules
    directory, reached by another spelling of its path ([./name],
    [sub/../name]) or through a link. *)
Inductive node :=
| Missing
| Directory
| Regular (content : str)
| SameAs (name : string).

(** [beyond]: what the paths that are not names of entries lead to;
    [rules]: the entries of the rules directory ([None] when the directory
    does not exist); [stdout]: what has been printed, oldest first. *)
Record world := World {
  beyond : string -> node;
  rules : option (gmap string str);
  stdout : list message
}.

Definition proc (A : Type) : Type := world -> (exn + A) * world.

Definition ret {A} (a : A) : proc A := fun w => (inr a, w).

Definition bind {A B} (c : proc A) (k : A -> proc B) : proc B :=
  fun w => match c w with
           | (inr a, w') => k a w'
           | (inl e, w') => (inl e, w')
           end.

Declare Scope proc_scope.
Delimit Scope proc_scope with proc.
Notation "x <- c ;; k" := (bind c (fun x => k))
  (at level 20, c at level 99, k at level 200) : proc_scope.
Notation "c ;; k" := (bind c (fun _ => k))
  (at level 100, k at level 200, right associativity) : proc_scope.
Local Open Scope proc_scope.

Definition raise {A} (e : exn) : proc A := fun w => (inl e, w).

Definition print (m : message) : proc unit :=
  fun w => (inr tt, World (beyond w) (rules w) (stdout w ++ [m])).

Definition sys_exit {A} (code : nat) : proc A := raise (SystemExit code).

(** [rules_dir.exists()] *)
Definition rules_dir_exists : proc bool :=
  fun w => (inr (bool_decide (is_Some (rules w))), w).

(** The text of the entry [name] of the rules directory, if there is one. *)
Definition entry (w : world) (name : string) : option str :=
  rules w ≫= (.!! name).

(** Where the path [rules_dir / path] leads. *)
Inductive place :=
| Nowhere
| ADirectory
| AnEntry (name : string) (content : str)
| Elsewhere (content : str).

Definition resolve (w : world) (path : string) : place :=
  match entry w path with
  | Some content => AnEntry path content
  | None =>
      match beyond w path with
      | Missing => Nowhere
      | Directory => ADirectory
      | Regular content => Elsewhere content
      | SameAs name =>
          match entry w name with
          | Some content => AnEntry name content
          | None => Nowhere
          end
      end
  end.

(** [(rules_dir / path).exists()] *)
Definition rule_file_exists (path : string) : proc bool :=
  fun w => (inr match resolve w path with
                | Nowhere => false
                | _ => true
                end, w).

(** [file_path.read_text(encoding="utf-8")] *)
Definition read_text (path : string) : proc str :=
  fun w => match resolve w path with
           | AnEntry _ content | Elsewhere content => (inr content, w)
           | ADirectory => (inl IsADirectoryError, w)
           | Nowhere => (inl FileNotFoundError, w)
           end.

(** [file_path.write_text(new_content, encoding="utf-8")].  Where nothing
    is at the path the file is created in the rules directory; the script
    does not get there, since it writes only to a file it has read. *)
Definition write_text (path : string) (new_content : str) : proc unit :=
  fun w => match resolve w path with
           | AnEntry name _ =>
               (inr tt, World (beyond w) (insert name new_content <$> rules w)
                          (stdout w))
           | Elsewhere _ =>
               (inr tt, World (<[path := Regular new_content]> (beyond w))
                          (rules w) (stdout w))
           | ADirectory => (inl IsADirectoryError, w)
           | Nowhere =>
               match rules w with
               | Some d =>
                   (inr tt, World (beyond w) (Some (<[path := new_content]> d))
                              (stdout w))
               | None => (inl FileNotFoundError, w)
               end
           end.

(** The components of a path, split at [/]. *)
Fixpoint components (s : str) : list str :=
  match s with
  | [] => [[]]
  | c :: t =>
      if eqc c "/"%char then [] :: components t
      else match components t with
           | [] => [[c]]
           | h :: r => (c :: h) :: r
           end
  end.

(** [PurePath(path).name]: the last component of the path, empty components
    and [.] components left out, as [pathlib] drops them. *)
Definition path_name (path : string) : string :=
  match last (List.filter
                (fun p => negb (bool_decide (p = [])) && negb (bool_decide (p = lit ".")))
                (components (lit path))) with
  | Some p => string_of_list_ascii p
  | None => EmptyString
  end.

(** [file_path.name]: an entry of the rules directory goes by its name, any
    other path by its last component. *)
Definition file_name (file : string) : proc string :=
  fun w => (inr match entry w file with
                | Some _ => file
                | None => path_name file
                end, w).

Definition endswith (suffix s : string) : bool :=
  startswith (rev (lit suffix)) (rev (lit s)).

Definition path_le (a b : string) : Prop := String.leb a b = true.

#[local] Instance path_le_dec a b : Decision (path_le a b).
Proof. unfold path_le. apply _. Defined.

(** [sorted(rules_dir.glob("*.mdc"))], as entry names. *)
Definition glob_mdc : proc (list string) :=
  fun w => match rules w with
           | Some d =>
               (inr (merge_sort path_le
                       (filter (fun n => endswith ".mdc" n = true)
                               (elements (dom d)))), w)
           | None => (inr [], w)
           end.

(** ** The script *)

Definition update_rule_token_count (file : string) (token_count : nat) : proc bool :=
  content <- read_text file ;;
  match update_text content token_count with
  | NoFrontmatter => print (WarningNoFrontmatter file) ;; ret false
  | MalformedFrontmatter => print (WarningMalformedFrontmatter file) ;; ret false
  | Rewritten new_content => write_text file new_content ;; ret true
  end.

Definition process_rule_file (tk : tiktoken) (file : string) (update : bool) : proc nat :=
  content <- (c <- read_text file ;; ret (extract_content_from_mdc c)) ;;
  let token_count := count_tokens tk content in
  name <- file_name file ;;
  print (FileLine name token_count) ;;
  (if update then
     updated <- update_rule_token_count file token_count ;;
     if updated then print UpdatedRuleTokenCount
     else print CouldNotUpdateRuleTokenCount
   else ret tt) ;;
  ret token_count.

Record args := Args {
  update : bool;
  rule : option string;
  rules_dir : string
}.

(** The body of [for rule_file in rule_files], threading the two totals. *)
Fixpoint for_rule_files (tk : tiktoken) (update : bool) (rule_files : list string)
    (total_tokens always_applied_tokens : nat) : proc (nat * nat) :=
  match rule_files with
  | [] => ret (total_tokens, always_applied_tokens)
  | rule_file :: more =>
      token_count <- process_rule_file tk rule_file update ;;
      let total_tokens := total_tokens + token_count in
      content <- read_text rule_file ;;
      let always_applied_tokens :=
        if Re.search Re.always_apply_true content
        then always_applied_tokens + token_count
        else always_applied_tokens in
      for_rule_files tk update more total_tokens always_applied_tokens
  end.

Definition main (tk : tiktoken) (a : args) : proc unit :=
  dir_exists <- rules_dir_exists ;;
  if negb dir_exists then
    print (ErrorRulesDirNotFound (rules_dir a)) ;; sys_exit 1
  else
    rule_files <-
      match rule a with
      | Some (String c r) =>
          let name := String c r in
          file_exists <- rule_file_exists name ;;
          if negb file_exists then
            print (ErrorRuleFileNotFound (rules_dir a) name) ;; sys_exit 1
          else ret [name]
      | _ => glob_mdc
      end ;;
    match rule_files with
    | [] => print (NoMdcFilesFound (rules_dir a)) ;; sys_exit 1
    | _ =>
        print TableHeader ;;
        print TableRule ;;
        totals <- for_rule_files tk (update a) rule_files 0 0 ;;
        let '(total_tokens, always_applied_tokens) := totals in
        print TableRule ;;
        print (TotalTokens total_tokens) ;;
        (if total_tokens =? 0 then raise ZeroDivisionError
         else print (AlwaysAppliedTokens always_applied_tokens total_tokens)) ;;
        if update a then print (UpdatedRuleFiles (length rule_files))
        else ret tt
    end.

(** The module as run from the command line: the import guard, then
    [main()].  [None] stands for a failed [import tiktoken]. *)
Definition script (tk : option tiktoken) (a : args) : proc unit :=
  match tk with
  | None => print ErrorTiktokenNotInstalled ;; sys_exit 1
  | Some tk => main tk a
  end.


(** * Vocabulary of the properties *)

(** [sub] occurs in [s] at index [i]. *)
Definition occurs_at (sub s : str) (i : nat) : bool := startswith sub (drop i s).

Definition all_space (s : str) : Prop := Forall (fun c => isspace c = true) s.

(** [s] is empty or begins with a character that is not whitespace. *)
Definition starts_nonspace (s : str) : Prop :=
  match s with
  | [] => True
  | c :: _ => isspace c = false
  end.

Definition ends_nonspace (s : str) : Prop := starts_nonspace (rev s).

Definition free_of (sub s : str) : Prop := forall j, occurs_at sub s j = false.

Definition DASH : ascii := "-"%char.

Definition all_digit (s : str) : Prop := Forall (fun c => isdigit c = true) s.

Definition starts_nondigit (s : str) : Prop :=
  match s with
  | [] => True
  | c :: _ => isdigit c = false
  end.

(** [pre] ends where a line begins. *)
Definition at_line_start (pre : str) : Prop := pre = [] \/ last pre = Some NL.

(** Whether the position after the consumed text [u] begins a line; [b]
    answers for an empty [u]. *)
Definition ends_nl (b : bool) (u : str) : bool :=
  match last u with
  | Some c => eqc c NL
  | None => b
  end.

Definition no_NL (u : str) : Prop := Forall (fun c => c <> NL) u.

(** A line-anchored match of the pattern body [m] starts somewhere in the
    text. *)
Definition has_field (m : str -> option nat) (frontmatter : str) : Prop :=
  exists pre post,
    frontmatter = pre ++ post /\ at_line_start pre /\ is_Some (m post).


(** How many digits [\s*\d+] finds at the head of [r] after the
    whitespace. *)
Definition digits_after_space (r : str) : nat :=
  Re.span isdigit (drop (Re.span isspace r) r).

(** The shape shared by the two substitutions of the updater: a match is
    not empty, ends in a character other than a line feed and begins with a
    character that is not whitespace; the replacement begins with a character
    that is neither whitespace nor a digit, holds no dash and does not end in
    whitespace. *)
Record sub_shape (m : str -> option nat) (repl : str) : Prop := {
  shape_len : forall s k, m s = Some k -> 0 < k <= length s;
  shape_end : forall s k, m s = Some k -> ends_nl true (take k s) = false;
  shape_head : forall s k, m s = Some k -> starts_nonspace s;
  shape_repl_head :
    exists c r, repl = c :: r /\ isspace c = false /\ isdigit c = false;
  shape_dashless : Forall (fun c => c <> DASH) repl;
  shape_repl_end : ends_nonspace repl
}.

(** The replacement of the insertion:
    [f"ruleTokenCount: {token_count}\n\\1"]. *)
Definition inserted_lines (n : nat) : str :=
  rule_token_count_line n ++ [NL] ++ Re.ALWAYS_APPLY.

(** The text has, at the beginning of a line, the field line for [n]
    followed by something that is not a digit. *)
Definition has_line_from (n : nat) (b : bool) (s : str) : Prop :=
  exists pre post,
    s = pre ++ rule_token_count_line n ++ post /\
    ends_nl b pre = true /\ starts_nondigit post.

(** [s.split("\n")] *)
Fixpoint lines (s : str) : list str :=
  match s with
  | [] => [[]]
  | c :: t =>
      if eqc c NL then [] :: lines t
      else match lines t with
           | l :: ls => (c :: l) :: ls
           | [] => [[c]]
           end
  end.

(** A line that holds a field other than [ruleTokenCount]: it is not empty
    and does not begin with [ruleTokenCount:]. *)
Definition other_field (l : str) : bool :=
  negb (bool_decide (l = [])) && negb (startswith Re.RULE_TOKEN_COUNT l).

Definition other_fields (frontmatter : str) : list str :=
  List.filter other_field (lines frontmatter).

(** Every line-anchored match of [ruleTokenCount:\s*\d+] lies within one
    line: the whitespace before the integer holds no line feed. *)
Fixpoint fields_inline_from (b : bool) (s : str) : bool :=
  (if b then
     match Re.rule_token_count_field s with
     | Some k => forallb (fun c => negb (eqc c NL)) (take k s)
     | None => true
     end
   else true)
  && match s with
     | [] => true
     | c :: t => fields_inline_from (eqc c NL) t
     end.

Definition fields_inline (frontmatter : str) : bool :=
  fields_inline_from true frontmatter.

(** What is left of a line once its head was handled, and the lines after
    it. *)
Definition rest_of_line (rest : str) : Prop :=
  rest = [] \/ exists t, rest = NL :: t.

Definition sub_rest (m : str -> option nat) (repl rest : str) : str :=
  match rest with
  | [] => []
  | c :: t => c :: Re.sub_from m repl 0 true t
  end.

(** [e] is the index of the closing delimiter: the first occurrence of
    [---] at index 3 or later. *)
Definition closing_delimiter_at (content : str) (e : nat) : Prop :=
  3 <= e /\ occurs_at DELIM content e = true /\
  forall j, 3 <= j < e -> occurs_at DELIM content j = false.

(** No [---] occurs at index 3 or later. *)
Definition no_closing_delimiter (content : str) : Prop :=
  forall j, 3 <= j -> occurs_at DELIM content j = false.

(** The occurrence of [---] at index [i] is a whole line of the text. *)
Definition delimiter_line (content : str) (i : nat) : bool :=
  occurs_at DELIM content i
  && bool_decide (i = 0 \/ content !! (i - 1) = Some NL)
  && bool_decide (i + 3 = length content \/ content !! (i + 3) = Some NL).

(** The frontmatter block as the updater reads it: the text between the
    delimiters, trimmed. *)
Definition frontmatter_of (content : str) : option str :=
  if startswith DELIM content then
    match find content DELIM 3 with
    | Some e => Some (strip (slice content 3 e))
    | None => None
    end
  else None.

(** The frontmatter has, at the beginning of a line, the field
    [ruleTokenCount: <n>] with exactly the value [n]. *)
Definition declares_token_count (frontmatter : str) (n : nat) : Prop :=
  has_line_from n true frontmatter.

(** The text the updater writes, given the updated frontmatter and what
    followed the closing delimiter. *)
Definition rewritten (frontmatter rest : str) : str :=
  DELIM ++ [NL] ++ frontmatter ++ [NL] ++ DELIM ++ rest.

Definition content_in (d : gmap string str) (file : string) : str :=
  default [] (d !! file).

(** The files to process with the text each holds before the run. *)
Definition snapshot (d : gmap string str) (files : list string) : list (string * str) :=
  map (fun f => (f, content_in d f)) files.

Definition tokens_of (tk : tiktoken) (content : str) : nat :=
  count_tokens tk (extract_content_from_mdc content).

(** The text of a file once it has been processed. *)
Definition text_after (tk : tiktoken) (upd : bool) (content : str) : str :=
  if upd then
    match update_text content (tokens_of tk content) with
    | Rewritten new_content => new_content
    | _ => content
    end
  else content.

(** What processing one file prints. *)
Definition file_messages (tk : tiktoken) (upd : bool) (file : string) (content : str)
    : list message :=
  FileLine file (tokens_of tk content) ::
  if upd then
    match update_text content (tokens_of tk content) with
    | NoFrontmatter => [WarningNoFrontmatter file; CouldNotUpdateRuleTokenCount]
    | MalformedFrontmatter =>
        [WarningMalformedFrontmatter file; CouldNotUpdateRuleTokenCount]
    | Rewritten _ => [UpdatedRuleTokenCount]
    end
  else [].

(** The check of the loop body: the whole text of the file, as it stands
    after the file was processed, has a line-anchored match of
    [alwaysApply:\s*true]. *)
Definition always_applied (tk : tiktoken) (upd : bool) (content : str) : bool :=
  Re.search Re.always_apply_true (text_after tk upd content).

Arguments tokens_of : simpl never.
Arguments file_messages : simpl never.
Arguments always_applied : simpl never.

Definition total_of (tk : tiktoken) (snap : list (string * str)) : nat :=
  sum_list (map (fun p => tokens_of tk p.2) snap).

Definition always_applied_of (tk : tiktoken) (upd : bool) (snap : list (string * str)) : nat :=
  sum_list (map (fun p => tokens_of tk p.2)
              (List.filter (fun p => always_applied tk upd p.2) snap)).

Definition messages_of (tk : tiktoken) (upd : bool) (snap : list (string * str))
    : list message :=
  flat_map (fun p => file_messages tk upd p.1 p.2) snap.

(** [args.rule] when it is given and not the empty string. *)
Definition named_rule (a : args) : option string :=
  match rule a with
  | Some (String c r) => Some (String c r)
  | _ => None
  end.

Definition glob_result (d : gmap string str) : list string :=
  merge_sort path_le
    (filter (fun n => endswith ".mdc" n = true) (elements (dom d))).

(** File discovery among the entries of a rules directory that exists: the
    entries to process (the named rule when it is the name of an entry, the
    glob otherwise), or, when there is none, the error message of a run that
    finds no file. *)
Definition discover (a : args) (d : gmap string str) : message + list string :=
  match named_rule a with
  | Some name =>
      if bool_decide (is_Some (d !! name)) then inr [name]
      else inl (ErrorRuleFileNotFound (rules_dir a) name)
  | None =>
      match glob_result d with
      | [] => inl (NoMdcFilesFound (rules_dir a))
      | files => inr files
      end
  end.

(** What [main] does once the rule files are known. *)
Definition report (tk : tiktoken) (a : args) (rule_files : list string) : proc unit :=
  print TableHeader ;;
  print TableRule ;;
  totals <- for_rule_files tk (update a) rule_files 0 0 ;;
  let '(total_tokens, always_applied_tokens) := totals in
  print TableRule ;;
  print (TotalTokens total_tokens) ;;
  (if total_tokens =? 0 then raise ZeroDivisionError
   else print (AlwaysAppliedTokens always_applied_tokens total_tokens)) ;;
  if update a then print (UpdatedRuleFiles (length rule_files))
  else ret tt.

(** What a run prints from the table header on. *)
Definition report_lines (tk : tiktoken) (a : args) (snap : list (string * str))
    : list message :=
  [TableHeader; TableRule] ++ messages_of tk (update a) snap
  ++ [TableRule; TotalTokens (total_of tk snap)]
  ++ (if total_of tk snap =? 0 then []
      else AlwaysAppliedTokens (always_applied_of tk (update a) snap) (total_of tk snap)
           :: if update a then [UpdatedRuleFiles (length snap)] else []).

Definition report_result (tk : tiktoken) (snap : list (string * str)) : exn + unit :=
  if total_of tk snap =? 0 then inl ZeroDivisionError else inr tt.


Definition is_startup_error (m : message) : bool :=
  match m with
  | ErrorTiktokenNotInstalled | ErrorRulesDirNotFound _
  | ErrorRuleFileNotFound _ _ | NoMdcFilesFound _ => true
  | _ => false
  end.

(** A tokenizer for examples: one token for each character. *)
Definition chars : tiktoken :=
  {| encoding := unit;
     encoding_for_model := fun _ => None;
     get_encoding := fun _ => tt;
     encode := fun _ s => map nat_of_ascii s |}.

(** The frontmatter block of the text has a line-anchored
    [alwaysApply:\s*true]. *)
Definition declares_always_apply (content : str) : bool :=
  match frontmatter_of content with
  | Some frontmatter => Re.search Re.always_apply_true frontmatter
  | None => false
  end.

(** The rules directory after the loop over [files], each file holding the
    text it has once processed. *)
Definition disk_after (tk : tiktoken) (upd : bool) (d : gmap string str)
    (files : list string) : gmap string str :=
  foldr (fun f acc => <[f := text_after tk upd (content_in d f)]> acc) d files.

(** The names of the files a run has printed a table line for, in order. *)
Definition file_lines (out : list message) : list string :=
  omap (fun m => match m with FileLine f _ => Some f | _ => None end) out.

(** The messages that carry a token count of the table: the line of a file
    and the grand total. *)
Definition is_count (m : message) : bool :=
  match m with
  | FileLine _ _ | TotalTokens _ => true
  | _ => false
  end.

(** The entries of the rules directory that a run processes: the glob, or
    the entry that the named rule is or leads to. *)
Definition processed (a : args) (fs : string -> node) (d : gmap string str)
    : list string :=
  match named_rule a with
  | None => glob_result d
  | Some path =>
      match d !! path with
      | Some _ => [path]
      | None => match fs path with
                | SameAs name => match d !! name with Some _ => [name] | None => [] end
                | _ => []
                end
      end
  end.

(** The counts of the table lines a run has printed, in order. *)
Definition file_counts (out : list message) : list nat :=
  omap (fun m => match m with FileLine _ n => Some n | _ => None end) out.

(** The messages that tell how the update of a file went. *)
Definition is_update_outcome (m : message) : bool :=
  match m with
  | UpdatedRuleTokenCount | CouldNotUpdateRuleTokenCount => true
  | _ => false
  end.

(** Every match of the field pattern that starts at the beginning of a line
    of [s] is the text [ruleTokenCount: <n>]; [b] tells whether [s] itself
    begins a line. *)
Definition every_field_declares (n : nat) (b : bool) (s : str) : Prop :=
  forall pre post k,
    s = pre ++ post -> ends_nl b pre = true ->
    Re.rule_token_count_field post = Some k ->
    take k post = rule_token_count_line n.

(** The lines of a frontmatter block with the line [ruleTokenCount: <n>]
    put before every line that begins with [alwaysApply:]. *)
Definition with_count_lines (n : nat) (ls : list str) : list str :=
  flat_map (fun l => if startswith Re.ALWAYS_APPLY l
                     then [rule_token_count_line n; l] else [l]) ls.

(** The messages about the update of a file's frontmatter. *)
Definition is_update_message (m : message) : bool :=
  match m with
  | WarningNoFrontmatter _ | WarningMalformedFrontmatter _
  | UpdatedRuleTokenCount | CouldNotUpdateRuleTokenCount
  | UpdatedRuleFiles _ => true
  | _ => false
  end.

(** A file system for the examples: besides the entries of the rules
    directory there are the directory itself and its parent, the entry
    [a.mdc] under the spelling [./a.mdc], a sub-directory [sub] and a file
    [outside.mdc] above the directory. *)
Definition example_paths (path : string) : node :=
  if bool_decide (path = "." \/ path = ".." \/ path = "sub") then Directory
  else if bool_decide (path = "./a.mdc") then SameAs "a.mdc"
  else if bool_decide (path = "../outside.mdc")
       then Regular (lit "---alwaysApply: true---outside")
  else Missing.

(** The text that reading the path [rules_dir / path] gives, if it leads to
    a regular file. *)
Definition content_at (w : world) (path : string) : option str :=
  match resolve w path with
  | AnEntry _ content | Elsewhere content => Some content
  | _ => None
  end.

(** The name under which a file line shows the file at [path]. *)
Definition shown_name (w : world) (path : string) : string :=
  match entry w path with
  | Some _ => path
  | None => path_name path
  end.

(** A message with the file of its file line shown by [name]. *)
Definition show_name (name : string -> string) (m : message) : message :=
  match m with
  | FileLine file n => FileLine (name file) n
  | _ => m
  end.

(** The file system once the file at [path], holding [content], has been
    processed: as it was, or with the rewritten text at the path. *)
Definition store_after (tk : tiktoken) (upd : bool) (path : string)
    (content : str) (w : world) : world :=
  if upd then
    match update_text content (tokens_of tk content) with
    | Rewritten new_content => (write_text path new_content w).2
    | _ => w
    end
  else w.

(** What a run works on, in a rules directory that exists: no file at all
    (with the error message of the run), entries of the directory, a regular
    file reached by a path that is not the name of an entry, or a path that
    leads to a directory. *)
Inductive target :=
| NoFile (msg : message)
| EntryFiles (files : list string)
| OtherFile (path : string) (content : str)
| NotAFile.

Definition target_of (a : args) (fs : string -> node) (d : gmap string str)
    : target :=
  match named_rule a with
  | None =>
      match glob_result d with
      | [] => NoFile (NoMdcFilesFound (rules_dir a))
      | files => EntryFiles files
      end
  | Some path =>
      match d !! path with
      | Some _ => EntryFiles [path]
      | None =>
          match fs path with
          | Missing => NoFile (ErrorRuleFileNotFound (rules_dir a) path)
          | Directory => NotAFile
          | Regular content => OtherFile path content
          | SameAs name =>
              match d !! name with
              | Some content => OtherFile path content
              | None => NoFile (ErrorRuleFileNotFound (rules_dir a) path)
              end
          end
      end
  end.

(** * Properties *)

(** ** The model at work *)

Example update_inserts_before_alwaysApply :
  update_text
    (text ["---"; "description: x"; "alwaysApply: true"; "---"; ""; "# Body"]) 12
  = Rewritten
      (text ["---"; "description: x"; "ruleTokenCount: 12"; "alwaysApply: true";
             "---"; ""; "# Body"]).
Proof. vm_compute. reflexivity. Qed.

Example update_replaces_existing_field :
  update_text
    (text ["---"; "ruleTokenCount: 5"; "alwaysApply: true"; "---"; "# Body"]) 12
  = Rewritten
      (text ["---"; "ruleTokenCount: 12"; "alwaysApply: true"; "---"; "# Body"]).
Proof. vm_compute. reflexivity. Qed.

Example update_appends_field :
  update_text (text ["---"; "a: 1"; "---"; "# Body"]) 0
  = Rewritten (text ["---"; "a: 1"; "ruleTokenCount: 0"; "---"; "# Body"]).
Proof. vm_compute. reflexivity. Qed.

Example extract_trims_body :
  extract_content_from_mdc
    (text ["---"; "alwaysApply: true"; "---"; ""; "  hello world"])
  = lit "hello world".
Proof. vm_compute. reflexivity. Qed.

(** ** Strings *)

Lemma eqc_true a b : eqc a b = true <-> a = b.
Proof. unfold eqc. apply Ascii.eqb_eq. Qed.

Lemma eqc_false a b : eqc a b = false <-> a <> b.
Proof. unfold eqc. apply Ascii.eqb_neq. Qed.

Lemma eqc_refl a : eqc a a = true.
Proof. by apply eqc_true. Qed.

Lemma startswith_cons a p c s :
  startswith (a :: p) (c :: s) = eqc a c && startswith p s.
Proof. done. Qed.

Lemma startswith_app p t : startswith p (p ++ t) = true.
Proof. induction p as [|a p IH]; simpl; [done|]. by rewrite eqc_refl. Qed.

Lemma startswith_inv p s : startswith p s = true -> s = p ++ drop (length p) s.
Proof.
  revert s. induction p as [|a p IH]; intros [|b s]; simpl; try done.
  intros [Hab Hps]%andb_true_iff. apply eqc_true in Hab as ->.
  by rewrite <- (IH s Hps).
Qed.

Lemma startswith_spec p s : startswith p s = true <-> exists t, s = p ++ t.
Proof.
  split.
  - intros H. eexists. by apply startswith_inv.
  - intros [t ->]. apply startswith_app.
Qed.

Lemma startswith_length p s : startswith p s = true -> length p <= length s.
Proof. intros [t ->]%startswith_spec. rewrite length_app. lia. Qed.

Lemma find_at_Some sub s i e :
  find_at sub s i = Some e <->
  i <= e <= i + length s /\ occurs_at sub s (e - i) = true /\
  forall j, j < e - i -> occurs_at sub s j = false.
Proof.
  unfold occurs_at. revert i. induction s as [|c t IH]; intros i; simpl.
  - destruct (startswith sub []) eqn:Hs.
    + split.
      * intros [= <-]. replace (i - i) with 0 by lia. simpl.
        split; [lia|]. split; [done|]. intros j Hj. lia.
      * intros [Hi _]. f_equal. lia.
    + split; [done|]. intros (Hi & Ho & _).
      assert (e = i) as -> by lia. by rewrite drop_nil, Hs in Ho.
  - destruct (startswith sub (c :: t)) eqn:Hs.
    + split.
      * intros [= <-]. replace (i - i) with 0 by lia. simpl.
        split; [lia|]. split; [done|]. intros j Hj. lia.
      * intros (Hi & _ & Hno). destruct (decide (e = i)) as [->|Hne]; [done|].
        specialize (Hno 0 ltac:(lia)). simpl in Hno. congruence.
    + rewrite IH. split.
      * intros (Hi & Ho & Hno). split; [lia|].
        replace (e - i) with (S (e - S i)) by lia. simpl. split; [done|].
        intros [|j] Hj; simpl; [done|]. apply Hno. lia.
      * intros (Hi & Ho & Hno).
        assert (e <> i) as Hne.
        { intros ->. replace (i - i) with 0 in Ho by lia. simpl in Ho. congruence. }
        replace (e - i) with (S (e - S i)) in Ho, Hno by lia. simpl in Ho.
        split; [lia|]. split; [done|]. intros j Hj.
        apply (Hno (S j)). lia.
Qed.

Lemma find_at_None sub s i :
  find_at sub s i = None <-> forall j, occurs_at sub s j = false.
Proof.
  unfold occurs_at. revert i. induction s as [|c t IH]; intros i; simpl.
  - destruct (startswith sub []) eqn:Hs.
    + split; [done|]. intros H. specialize (H 0). simpl in H. congruence.
    + split; [|done]. intros _ j. by rewrite drop_nil.
  - destruct (startswith sub (c :: t)) eqn:Hs.
    + split; [done|]. intros H. specialize (H 0). simpl in H. congruence.
    + rewrite IH. split.
      * intros H [|j]; simpl; [done|]. apply H.
      * intros H j. apply (H (S j)).
Qed.

(** [find] returns the first index, not below [start], at which [sub]
    occurs. *)
Lemma find_Some s sub start e :
  find s sub start = Some e <->
  start <= e <= length s /\ occurs_at sub s e = true /\
  forall j, start <= j < e -> occurs_at sub s j = false.
Proof.
  unfold find. destruct (Nat.ltb_spec (length s) start) as [Hlt|Hle].
  - split; [done|]. lia.
  - rewrite find_at_Some. unfold occurs_at. rewrite length_drop. split.
    + intros (Hi & Ho & Hno). split; [lia|].
      rewrite drop_drop in Ho. replace (start + (e - start)) with e in Ho by lia.
      split; [done|]. intros j Hj. specialize (Hno (j - start) ltac:(lia)).
      rewrite drop_drop in Hno. by replace (start + (j - start)) with j in Hno by lia.
    + intros (Hi & Ho & Hno). split; [lia|].
      rewrite drop_drop. replace (start + (e - start)) with e by lia.
      split; [done|]. intros j Hj. rewrite drop_drop. apply Hno. lia.
Qed.

Lemma find_None s sub start :
  sub <> [] ->
  find s sub start = None <-> forall j, start <= j -> occurs_at sub s j = false.
Proof.
  intros Hsub. unfold find. destruct (Nat.ltb_spec (length s) start) as [Hlt|Hle].
  - split; [|done]. intros _ j Hj. unfold occurs_at.
    rewrite drop_ge by lia. by destruct sub.
  - rewrite find_at_None. unfold occurs_at. split.
    + intros H j Hj. specialize (H (j - start)). rewrite drop_drop in H.
      by replace (start + (j - start)) with j in H by lia.
    + intros H j. rewrite drop_drop. apply H. lia.
Qed.

(** *** Trimming *)

Lemma lstrip_spec s :
  exists ws, s = ws ++ lstrip s /\ all_space ws /\ starts_nonspace (lstrip s).
Proof.
  induction s as [|c t (ws & Heq & Hws & Hns)]; simpl.
  - exists []. repeat split; constructor.
  - destruct (isspace c) eqn:Hc.
    + exists (c :: ws). simpl. rewrite <- Heq. repeat split; [|done].
      by constructor.
    + exists []. repeat split; [constructor|done].
Qed.

Lemma lstrip_nonspace s : starts_nonspace s -> lstrip s = s.
Proof. destruct s as [|c t]; simpl; [done|]. by intros ->. Qed.

Lemma lstrip_app_space ws s : all_space ws -> lstrip (ws ++ s) = lstrip s.
Proof. induction 1 as [|c ws Hc _ IH]; simpl; [done|]. by rewrite Hc. Qed.

Lemma lstrip_all_space ws : all_space ws -> lstrip ws = [].
Proof. intros H. rewrite <- (app_nil_r ws). by rewrite lstrip_app_space. Qed.

Lemma lstrip_app_nonspace s t :
  starts_nonspace s -> s <> [] -> lstrip (s ++ t) = s ++ t.
Proof. destruct s as [|c s]; [done|]. simpl. by intros ->. Qed.

Lemma rstrip_spec s :
  exists ws, s = rstrip s ++ ws /\ all_space ws /\ ends_nonspace (rstrip s).
Proof.
  unfold rstrip, ends_nonspace.
  destruct (lstrip_spec (rev s)) as (ws & Heq & Hws & Hns).
  exists (rev ws). rewrite rev_involutive. repeat split; [|by apply Forall_rev|done].
  rewrite <- rev_app_distr, <- Heq. by rewrite rev_involutive.
Qed.

Lemma rstrip_nonspace s : ends_nonspace s -> rstrip s = s.
Proof.
  unfold rstrip, ends_nonspace. intros H.
  rewrite lstrip_nonspace by done. apply rev_involutive.
Qed.

Lemma rstrip_app_space s ws : all_space ws -> rstrip (s ++ ws) = rstrip s.
Proof.
  intros H. unfold rstrip. rewrite rev_app_distr.
  rewrite lstrip_app_space; [done|]. by apply Forall_rev.
Qed.

Lemma ends_nonspace_app s t : ends_nonspace t -> t <> [] -> ends_nonspace (s ++ t).
Proof.
  unfold ends_nonspace. intros H Hne. rewrite rev_app_distr.
  destruct (rev t) as [|c r] eqn:Hr; [|done].
  apply (f_equal (@rev ascii)) in Hr. rewrite rev_involutive in Hr. done.
Qed.

Lemma strip_spec s :
  exists a b, s = a ++ strip s ++ b /\ all_space a /\ all_space b /\
    starts_nonspace (strip s) /\ ends_nonspace (strip s).
Proof.
  unfold strip.
  destruct (lstrip_spec s) as (a & Ha & Hsa & Hna).
  destruct (rstrip_spec (lstrip s)) as (b & Hb & Hsb & Hnb).
  exists a, b. repeat split; try done.
  - by rewrite <- Hb.
  - rewrite Hb in Hna. destruct (rstrip (lstrip s)) as [|c r] eqn:Hr; [done|].
    exact Hna.
Qed.

Lemma strip_fixed s : starts_nonspace s -> ends_nonspace s -> strip s = s.
Proof.
  intros H1 H2. unfold strip. rewrite lstrip_nonspace by done.
  by apply rstrip_nonspace.
Qed.

Lemma strip_pad a s b :
  all_space a -> all_space b -> strip (a ++ s ++ b) = strip s.
Proof.
  intros Ha Hb. unfold strip. rewrite lstrip_app_space by done.
  destruct (lstrip_spec s) as (ws & Heq & Hws & Hns).
  destruct (lstrip s) as [|c r] eqn:Hl.
  - rewrite app_nil_r in Heq. subst ws.
    rewrite lstrip_all_space; [done|]. by apply Forall_app.
  - rewrite Heq at 1. rewrite <- app_assoc, lstrip_app_space by done.
    rewrite (lstrip_app_nonspace (c :: r)) by done.
    by rewrite rstrip_app_space.
Qed.

(** *** Text free of the delimiter *)

Lemma free_of_nil sub : sub <> [] -> free_of sub [].
Proof. intros H j. unfold occurs_at. rewrite drop_nil. by destruct sub. Qed.

Lemma free_of_cons sub c t :
  free_of sub (c :: t) <-> startswith sub (c :: t) = false /\ free_of sub t.
Proof.
  unfold free_of, occurs_at. split.
  - intros H. split; [apply (H 0)|]. intros j. apply (H (S j)).
  - intros [H0 H] [|j]; [done|]. apply H.
Qed.

Lemma startswith_app_l p s t : startswith p s = true -> startswith p (s ++ t) = true.
Proof.
  intros [u ->]%startswith_spec. rewrite <- app_assoc. apply startswith_app.
Qed.

Lemma free_of_app sub a b : free_of sub (a ++ b) -> free_of sub a /\ free_of sub b.
Proof.
  intros H. split; intros j.
  - specialize (H j). unfold occurs_at in *.
    destruct (startswith sub (drop j a)) eqn:Hs; [|done].
    rewrite drop_app in H. by rewrite (startswith_app_l _ _ _ Hs) in H.
  - specialize (H (length a + j)). unfold occurs_at in *.
    by rewrite drop_app_add in H.
Qed.

Lemma startswith_DELIM_cons c t :
  c <> DASH -> startswith DELIM (c :: t) = false.
Proof.
  intros Hc. simpl. apply andb_false_iff. left. apply eqc_false. by intros <-.
Qed.

Lemma startswith_DELIM_before_NL x y :
  startswith DELIM (x ++ NL :: y) = startswith DELIM x.
Proof. by destruct x as [|a [|b [|c x]]]; simpl; destruct_and?; rewrite ?andb_false_r. Qed.

Lemma free_of_DELIM_dashless a s :
  Forall (fun c => c <> DASH) a -> free_of DELIM s -> free_of DELIM (a ++ s).
Proof.
  induction 1 as [|c a Hc _ IH]; intros Hs; simpl; [done|].
  apply free_of_cons. split; [by apply startswith_DELIM_cons|]. by apply IH.
Qed.

Lemma free_of_DELIM_lines a b :
  free_of DELIM a -> free_of DELIM b -> free_of DELIM (a ++ NL :: b).
Proof.
  intros Ha Hb. induction a as [|c a IH]; simpl.
  - apply free_of_cons. split; [done|done].
  - apply free_of_cons in Ha as [H0 Ha]. apply free_of_cons. split; [|by apply IH].
    change (c :: a ++ NL :: b) with ((c :: a) ++ NL :: b).
    by rewrite startswith_DELIM_before_NL.
Qed.

(** ** Regular expressions *)

Module ReFacts.
Import Re.

Lemma digit_not_space c : isdigit c = true -> isspace c = false.
Proof. by destruct c as [[] [] [] [] [] [] [] []]. Qed.

Lemma span_le p s : span p s <= length s.
Proof. induction s as [|c t IH]; simpl; [lia|]. destruct (p c); simpl; lia. Qed.

Lemma span_take p s : Forall (fun c => p c = true) (take (span p s) s).
Proof.
  induction s as [|c t IH]; simpl; [constructor|].
  destruct (p c) eqn:Hc; simpl; [by constructor|constructor].
Qed.

Lemma span_drop p s :
  match drop (span p s) s with [] => True | c :: _ => p c = false end.
Proof.
  induction s as [|c t IH]; simpl; [done|].
  destruct (p c) eqn:Hc; simpl; done.
Qed.

Lemma span_app p a b :
  Forall (fun c => p c = true) a ->
  match b with [] => True | c :: _ => p c = false end ->
  span p (a ++ b) = length a.
Proof.
  induction 1 as [|c a Hc _ IH]; intros Hb; simpl.
  - destruct b as [|c b]; simpl; [done|]. by rewrite Hb.
  - rewrite Hc. f_equal. by apply IH.
Qed.

Lemma span_zero p s : span p s = 0 <-> match s with [] => True | c :: _ => p c = false end.
Proof. destruct s as [|c t]; simpl; [done|]. by destruct (p c). Qed.

(** *** The three pattern bodies *)

Lemma rule_token_count_field_Some s k :
  rule_token_count_field s = Some k <->
  exists ws ds post,
    s = RULE_TOKEN_COUNT ++ ws ++ ds ++ post /\
    all_space ws /\ all_digit ds /\ ds <> [] /\ starts_nondigit post /\
    k = length RULE_TOKEN_COUNT + length ws + length ds.
Proof.
  unfold rule_token_count_field. split.
  - destruct (startswith RULE_TOKEN_COUNT s) eqn:Hk; [|done].
    apply startswith_inv in Hk.
    set (r := drop (length RULE_TOKEN_COUNT) s) in *.
    destruct (Nat.eqb_spec (span isdigit (drop (span isspace r) r)) 0) as [|Hd]; [done|].
    intros [= <-].
    exists (take (span isspace r) r),
      (take (span isdigit (drop (span isspace r) r)) (drop (span isspace r) r)),
      (drop (span isdigit (drop (span isspace r) r)) (drop (span isspace r) r)).
    rewrite !take_drop. split; [done|].
    split; [apply span_take|]. split; [apply span_take|].
    split.
    { intros Hnil%(f_equal length). rewrite length_take in Hnil.
      pose proof (span_le isdigit (drop (span isspace r) r)). simpl in *. lia. }
    split; [apply span_drop|].
    rewrite !length_take.
    pose proof (span_le isspace r).
    pose proof (span_le isdigit (drop (span isspace r) r)).
    change (length RULE_TOKEN_COUNT) with 15. lia.
  - intros (ws & ds & post & -> & Hws & Hds & Hne & Hpost & ->).
    rewrite startswith_app, drop_app_length.
    assert (span isspace (ws ++ ds ++ post) = length ws) as ->.
    { apply span_app; [done|]. destruct ds as [|d ds]; [done|]. simpl.
      apply digit_not_space. by inversion Hds. }
    rewrite drop_app_length.
    assert (span isdigit (ds ++ post) = length ds) as ->.
    { by apply span_app. }
    destruct ds; [done|]. done.
Qed.

Lemma always_apply_key_Some s k :
  always_apply_key s = Some k <->
  exists post, s = ALWAYS_APPLY ++ post /\ k = length ALWAYS_APPLY.
Proof.
  unfold always_apply_key. split.
  - destruct (startswith ALWAYS_APPLY s) eqn:Hk; [|done].
    intros [= <-]. apply startswith_inv in Hk.
    exists (drop (length ALWAYS_APPLY) s). by split.
  - intros (post & -> & ->). by rewrite startswith_app.
Qed.

(** *** Search and substitution for any pattern body *)

Lemma ends_nl_cons b c u : ends_nl b (c :: u) = ends_nl (eqc c NL) u.
Proof.
  unfold ends_nl. destruct u as [|d u]; [done|].
  rewrite last_cons_cons. destruct (last (d :: u)) eqn:E; [done|].
  by apply last_None in E.
Qed.

Lemma ends_nl_app_NL b u : ends_nl b (u ++ [NL]) = true.
Proof. unfold ends_nl. by rewrite last_snoc. Qed.

Lemma at_line_start_ends_nl pre : at_line_start pre <-> ends_nl true pre = true.
Proof.
  unfold at_line_start, ends_nl. destruct (last pre) as [c|] eqn:Hl.
  - rewrite eqc_true. split; [|by intros ->; right].
    intros [Hnil|Hc]; [by rewrite Hnil in Hl|congruence].
  - apply last_None in Hl. split; [done|by left].
Qed.

Section generic.
Variable m : str -> option nat.

Lemma search_from_true b s :
  search_from m b s = true <->
  exists pre post, s = pre ++ post /\ ends_nl b pre = true /\ is_Some (m post).
Proof.
  revert b. induction s as [|c t IH]; intros b; simpl.
  - rewrite orb_false_r, andb_true_iff, bool_decide_eq_true. split.
    + intros [-> Hm]. by exists [], [].
    + intros (pre & post & Heq & Hb & Hm).
      symmetry in Heq. apply app_eq_nil in Heq as [-> ->]. done.
  - rewrite orb_true_iff, andb_true_iff, bool_decide_eq_true, IH. split.
    + intros [[-> Hm]|(pre & post & -> & Hb & Hm)].
      * by exists [], (c :: t).
      * exists (c :: pre), post. by rewrite ends_nl_cons.
    + intros (pre & post & Heq & Hb & Hm). destruct pre as [|c' pre]; simpl in *.
      * subst post. left. done.
      * simplify_eq. right. exists pre, post. by rewrite ends_nl_cons in Hb.
Qed.

Lemma search_true s :
  search m s = true <->
  exists pre post, s = pre ++ post /\ at_line_start pre /\ is_Some (m post).
Proof.
  unfold search. rewrite search_from_true.
  by setoid_rewrite at_line_start_ends_nl.
Qed.

Lemma search_from_false_head s : search_from m true s = false -> m s = None.
Proof.
  destruct s; simpl; intros [H _]%orb_false_iff;
    apply bool_decide_eq_false in H; by apply eq_None_not_Some.
Qed.

Lemma search_from_false_tail b c t :
  search_from m b (c :: t) = false -> search_from m (eqc c NL) t = false.
Proof. simpl. by intros [_ H]%orb_false_iff. Qed.

Lemma search_from_false_drop b u t :
  search_from m b (u ++ t) = false ->
  search_from m (ends_nl b u) t = false.
Proof.
  revert b. induction u as [|c u IH]; intros b; [done|].
  rewrite ends_nl_cons. intros H. apply IH.
  by apply search_from_false_tail in H.
Qed.

Variable repl : str.

Lemma sub_from_skip k b s :
  sub_from m repl k b s = sub_from m repl 0 (ends_nl b (take k s)) (drop k s).
Proof.
  revert k b. induction s as [|c t IH]; intros k b.
  - by destruct k.
  - destruct k as [|k]; [done|]. simpl take. simpl drop.
    rewrite ends_nl_cons. simpl. apply IH.
Qed.

Lemma sub_from_copy b c t :
  b = false \/ m (c :: t) = None ->
  sub_from m repl 0 b (c :: t) = c :: sub_from m repl 0 (eqc c NL) t.
Proof. simpl. intros [Hb | Hm]; [by rewrite Hb|]. rewrite Hm. by destruct b. Qed.

Lemma sub_from_copy_false u t :
  no_NL u -> sub_from m repl 0 false (u ++ t) = u ++ sub_from m repl 0 false t.
Proof.
  induction 1 as [|c u Hc Hu IH]; [done|].
  simpl app. rewrite sub_from_copy by (by left). f_equal.
  apply eqc_false in Hc. by rewrite Hc.
Qed.

Lemma sub_from_copy_true c u t :
  no_NL (c :: u) -> m (c :: u ++ t) = None ->
  sub_from m repl 0 true (c :: u ++ t) = c :: u ++ sub_from m repl 0 false t.
Proof.
  intros Hu Hm. inversion_clear Hu as [|? ? Hc Hu'].
  rewrite sub_from_copy by (by right). f_equal.
  apply eqc_false in Hc. rewrite Hc. by apply sub_from_copy_false.
Qed.

Lemma sub_from_newline t :
  sub_from m repl 0 false (NL :: t) = NL :: sub_from m repl 0 true t.
Proof. by rewrite sub_from_copy by (by left). Qed.

Hypothesis m_len : forall s k, m s = Some k -> 0 < k <= length s.
Hypothesis m_end : forall s k, m s = Some k -> ends_nl true (take k s) = false.

Lemma sub_from_match s k :
  m s = Some k ->
  sub_from m repl 0 true s = repl ++ sub_from m repl 0 false (drop k s).
Proof.
  intros Hm. pose proof (m_len _ _ Hm) as Hk. pose proof (m_end _ _ Hm) as He.
  destruct s as [|c t]; [simpl in Hk; lia|].
  destruct k as [|k]; [lia|]. simpl. rewrite Hm. f_equal.
  rewrite sub_from_skip. simpl take in He. rewrite ends_nl_cons in He.
  by rewrite He.
Qed.

End generic.

(** *** Substitution leaves text without a match alone *)

Section prefix.
Variable m : str -> option nat.
Variable repl : str.


(** A match that starts inside [pre] does not depend on the text [X] that
    follows [pre]. *)
Variable X : str.
Hypothesis stable : forall p, last p = Some NL -> m (p ++ X) = m p.


End prefix.

(** *** Facts about [ruleTokenCount:\s*\d+] and [alwaysApply:] *)

Lemma startswith_before_NL u p y :
  no_NL u -> startswith u (p ++ NL :: y) = startswith u p.
Proof.
  intros Hu. revert p. induction Hu as [|a u Ha _ IH]; intros p; [by destruct p|].
  destruct p as [|c p]; simpl.
  - apply andb_false_iff. left. by apply eqc_false.
  - by rewrite IH.
Qed.



Lemma no_NL_RULE_TOKEN_COUNT : no_NL RULE_TOKEN_COUNT.
Proof. repeat constructor; done. Qed.

Lemma no_NL_ALWAYS_APPLY : no_NL ALWAYS_APPLY.
Proof. repeat constructor; done. Qed.



Lemma rule_token_count_field_len s k :
  rule_token_count_field s = Some k -> 0 < k <= length s.
Proof.
  intros (ws & ds & post & -> & _ & _ & _ & _ & ->)%rule_token_count_field_Some.
  rewrite !length_app. change (length RULE_TOKEN_COUNT) with 15. lia.
Qed.

Lemma digit_not_NL c : isdigit c = true -> c <> NL.
Proof. by intros H ->. Qed.

Lemma rule_token_count_field_end s k :
  rule_token_count_field s = Some k -> ends_nl true (take k s) = false.
Proof.
  intros (ws & ds & post & -> & _ & Hds & Hne & _ & ->)%rule_token_count_field_Some.
  rewrite !app_assoc, <- length_app, <- length_app, take_app_length.
  destruct ds as [|d ds _] using rev_ind; [done|].
  rewrite !app_assoc. unfold ends_nl. rewrite last_snoc.
  apply eqc_false, digit_not_NL.
  apply Forall_app in Hds as [_ Hd]. by inversion Hd.
Qed.

Lemma always_apply_key_len s k :
  always_apply_key s = Some k -> 0 < k <= length s.
Proof.
  intros (post & -> & ->)%always_apply_key_Some.
  rewrite length_app. change (length ALWAYS_APPLY) with 12. lia.
Qed.

Lemma always_apply_key_end s k :
  always_apply_key s = Some k -> ends_nl true (take k s) = false.
Proof.
  intros (post & -> & ->)%always_apply_key_Some.
  by rewrite take_app_length.
Qed.

(** *** The field line [ruleTokenCount: <n>] *)

Lemma string_of_uint_digits u : all_digit (lit (NilEmpty.string_of_uint u)).
Proof. induction u; simpl; constructor; done. Qed.

Lemma str_of_nat_digits n : all_digit (str_of_nat n).
Proof.
  unfold str_of_nat, NilZero.string_of_uint.
  destruct (Nat.to_uint n); try apply string_of_uint_digits.
  by repeat constructor.
Qed.

Lemma str_of_nat_nonempty n : str_of_nat n <> [].
Proof.
  unfold str_of_nat, NilZero.string_of_uint.
  by destruct (Nat.to_uint n).
Qed.

Lemma rule_token_count_line_match n post :
  starts_nondigit post ->
  rule_token_count_field (rule_token_count_line n ++ post)
  = Some (length (rule_token_count_line n)).
Proof.
  intros Hpost. apply rule_token_count_field_Some.
  exists (lit " "), (str_of_nat n), post. unfold rule_token_count_line.
  rewrite <- !app_assoc. split; [done|].
  split; [by repeat constructor|]. split; [apply str_of_nat_digits|].
  split; [apply str_of_nat_nonempty|]. split; [done|].
  rewrite !length_app. lia.
Qed.

End ReFacts.

Import ReFacts.

(** ** Fields of a frontmatter block *)

Lemma search_has_field m s : Re.search m s = true <-> has_field m s.
Proof. apply search_true. Qed.

Lemma search_no_field m s : Re.search m s = false <-> ~ has_field m s.
Proof. rewrite <- search_has_field. by destruct (Re.search m s). Qed.


(** ** The frontmatter updater, branch by branch *)

Lemma update_text_well_formed content token_count e :
  startswith DELIM content = true ->
  find content DELIM 3 = Some e ->
  update_text content token_count =
    Rewritten (DELIM ++ [NL]
               ++ set_rule_token_count (strip (slice content 3 e)) token_count
               ++ [NL] ++ DELIM ++ slice_from content (e + 3)).
Proof. intros Hs Hf. unfold update_text. by rewrite Hs, Hf. Qed.






(** ** What substitution preserves *)

Lemma ends_nonspace_cons c t :
  t <> [] -> ends_nonspace (c :: t) <-> ends_nonspace t.
Proof.
  intros Ht. unfold ends_nonspace. simpl.
  destruct (rev t) as [|d r] eqn:Hr; [|done].
  apply (f_equal (@rev ascii)) in Hr. rewrite rev_involutive in Hr. done.
Qed.

Section shape.
Variable m : str -> option nat.
Variable repl : str.
Hypothesis shape : sub_shape m repl.

Let m_len := shape_len m repl shape.
Let m_end := shape_end m repl shape.
Let m_head := shape_head m repl shape.
Let repl_head := shape_repl_head m repl shape.
Let repl_dashless := shape_dashless m repl shape.
Let repl_end := shape_repl_end m repl shape.

Let S := Re.sub_from m repl 0.

Lemma sub_cases b s :
  (s = [] /\ S b s = []) \/
  (exists k, b = true /\ m s = Some k /\ S b s = repl ++ S false (drop k s)) \/
  (exists c t, s = c :: t /\ (b = false \/ m s = None) /\
               S b s = c :: S (eqc c NL) t).
Proof.
  destruct s as [|c t]; [by left|right].
  destruct b; [|right; exists c, t; split; [done|]; split; [by left|];
                 by apply sub_from_copy; left].
  destruct (m (c :: t)) as [k|] eqn:Hm.
  - left. exists k. split; [done|]. split; [done|]. by apply sub_from_match.
  - right. exists c, t. split; [done|]. split; [by right|].
    apply sub_from_copy. by right.
Qed.

Lemma startswith_sub_false u t :
  no_NL u -> startswith u (S false t) = startswith u t.
Proof.
  intros Hu. revert t. induction Hu as [|a u Ha _ IH]; intros t; [done|].
  destruct t as [|c t]; [done|].
  unfold S. rewrite sub_from_copy by (by left). simpl.
  destruct (eqc a c) eqn:Hac; [|done]. apply eqc_true in Hac as <-.
  apply eqc_false in Ha. rewrite Ha. apply IH.
Qed.

Lemma sub_nonempty b s : s <> [] -> S b s <> [].
Proof.
  intros Hs. destruct repl_head as (rc & rr & Hr & _).
  destruct (sub_cases b s) as [[? _]|[(k & _ & _ & ->)|(c & t & _ & _ & ->)]];
    [done| |done].
  by rewrite Hr.
Qed.

Lemma sub_starts_nonspace b s : starts_nonspace s -> starts_nonspace (S b s).
Proof.
  intros Hs. destruct repl_head as (rc & rr & Hr & Hsp & _).
  destruct (sub_cases b s) as [[_ ->]|[(k & _ & _ & ->)|(c & t & -> & _ & ->)]];
    [done| |done].
  by rewrite Hr.
Qed.

Lemma sub_starts_nondigit b s : starts_nondigit s -> starts_nondigit (S b s).
Proof.
  intros Hs. destruct repl_head as (rc & rr & Hr & _ & Hd).
  destruct (sub_cases b s) as [[_ ->]|[(k & _ & _ & ->)|(c & t & -> & _ & ->)]];
    [done| |done].
  by rewrite Hr.
Qed.

Lemma sub_ends_nonspace n b s :
  length s <= n -> ends_nonspace s -> ends_nonspace (S b s).
Proof.
  revert b s. induction n as [|n IH]; intros b s Hn Hs.
  { destruct s; [done|simpl in Hn; lia]. }
  destruct (sub_cases b s) as [[_ ->]|[(k & _ & Hm & ->)|(c & t & -> & _ & ->)]];
    [done| |].
  - pose proof (m_len _ _ Hm) as Hk.
    destruct (drop k s) as [|d r] eqn:Hd.
    { by rewrite app_nil_r. }
    apply ends_nonspace_app; [|by apply sub_nonempty].
    apply IH.
    + rewrite <- Hd, length_drop. lia.
    + rewrite <- (take_drop k s), Hd in Hs. unfold ends_nonspace in *.
      rewrite rev_app_distr in Hs.
      destruct (rev (d :: r)) as [|x y] eqn:Hr; [|done].
      apply (f_equal (@rev ascii)) in Hr. by rewrite rev_involutive in Hr.
  - destruct t as [|d t]; [done|].
    apply ends_nonspace_cons; [by apply sub_nonempty|].
    apply IH; [simpl in *; lia|]. by apply ends_nonspace_cons in Hs.
Qed.

Lemma startswith_DELIM_sub b s :
  (forall c r, repl = c :: r -> c <> DASH) ->
  startswith DELIM (S b s) = true -> startswith DELIM s = true.
Proof.
  intros Hrc.
  destruct (sub_cases b s) as [[_ ->]|[(k & _ & _ & ->)|(c & t & -> & _ & ->)]];
    [done| |].
  - destruct repl_head as (rc & rr & Hr & _). rewrite Hr.
    change DELIM with (DASH :: [DASH; DASH]). simpl app. rewrite startswith_cons.
    intros [Hc _]%andb_true_iff. apply eqc_true in Hc.
    by destruct (Hrc _ _ Hr).
  - change DELIM with (DASH :: [DASH; DASH]). rewrite !startswith_cons.
    intros [Hc Hrest]%andb_true_iff. rewrite Hc. simpl andb.
    apply eqc_true in Hc as <-.
    change (eqc DASH NL) with false in Hrest.
    rewrite startswith_sub_false in Hrest; [done|].
    by repeat constructor.
Qed.

Lemma sub_free n b s :
  length s <= n -> free_of DELIM s -> free_of DELIM (S b s).
Proof.
  assert (forall c r, repl = c :: r -> c <> DASH) as Hrc.
  { intros c r ->. by inversion repl_dashless. }
  revert b s. induction n as [|n IH]; intros b s Hn Hs.
  { destruct s; [by apply free_of_nil|simpl in Hn; lia]. }
  destruct (sub_cases b s) as [[_ ->]|[(k & _ & Hm & ->)|(c & t & -> & _ & Heq)]].
  - by apply free_of_nil.
  - pose proof (m_len _ _ Hm) as Hk.
    apply free_of_DELIM_dashless; [done|]. apply IH.
    + rewrite length_drop. lia.
    + rewrite <- (take_drop k s) in Hs. by apply free_of_app in Hs as [_ Hs].
  - rewrite Heq. apply free_of_cons. split.
    + rewrite <- Heq. destruct (startswith DELIM (S b (c :: t))) eqn:Hd; [|done].
      apply (startswith_DELIM_sub _ _ Hrc) in Hd.
      apply free_of_cons in Hs as [Hs _]. congruence.
    + apply IH; [simpl in Hn; lia|]. by apply free_of_cons in Hs as [_ Hs].
Qed.

Lemma digits_after_space_sub b r :
  digits_after_space r = 0 -> digits_after_space (S b r) = 0.
Proof.
  unfold digits_after_space. revert b. induction r as [|c r IH]; intros b; [done|].
  destruct (isspace c) eqn:Hc.
  - unfold S. rewrite sub_from_copy.
    + simpl. rewrite Hc. simpl. apply IH.
    + destruct (m (c :: r)) as [k|] eqn:Hm; [|by right].
      apply m_head in Hm. simpl in Hm. congruence.
  - simpl. rewrite Hc. simpl. destruct (isdigit c) eqn:Hd; [done|]. intros _.
    destruct repl_head as (rc & rr & Hr & Hrs & Hrd).
    destruct (sub_cases b (c :: r))
      as [[? _]|[(k & _ & _ & ->)|(c' & t & [= <- <-] & _ & ->)]]; [done| |].
    + rewrite Hr. simpl. rewrite Hrs. simpl. by rewrite Hrd.
    + simpl. rewrite Hc. simpl. by rewrite Hd.
Qed.

(** No new [ruleTokenCount] field arises at a place that is copied. *)
Lemma rule_token_count_field_sub_copy c t :
  Re.rule_token_count_field (c :: t) = None ->
  Re.rule_token_count_field (c :: S (eqc c NL) t) = None.
Proof.
  unfold Re.rule_token_count_field. cbv zeta.
  destruct (startswith Re.RULE_TOKEN_COUNT (c :: t)) eqn:Hk.
  - apply startswith_spec in Hk as [r Hr].
    assert (c = "r"%char /\ t = tail Re.RULE_TOKEN_COUNT ++ r) as [-> ->].
    { by injection Hr. }
    clear Hr.
    change (eqc "r" NL) with false. unfold S.
    rewrite sub_from_copy_false by (by repeat constructor).
    change ("r"%char :: tail Re.RULE_TOKEN_COUNT ++ ?x)
      with (Re.RULE_TOKEN_COUNT ++ x).
    rewrite !startswith_app, !drop_app_length.
    fold (digits_after_space r).
    fold (digits_after_space (Re.sub_from m repl 0 false r)).
    destruct (Nat.eqb_spec (digits_after_space r) 0) as [H0|]; [|done].
    intros _. pose proof (digits_after_space_sub false r H0) as H1.
    unfold S in H1. by rewrite H1.
  - intros _.
    destruct (startswith Re.RULE_TOKEN_COUNT (c :: S (eqc c NL) t)) eqn:Hk2; [|done].
    exfalso. revert Hk Hk2.
    change Re.RULE_TOKEN_COUNT with ("r"%char :: tail Re.RULE_TOKEN_COUNT).
    rewrite !startswith_cons.
    destruct (eqc "r" c) eqn:Hc; [|done]. apply eqc_true in Hc as <-.
    change (eqc "r" NL) with false.
    rewrite startswith_sub_false by (by repeat constructor).
    simpl andb. congruence.
Qed.

End shape.

(** ** The two substitutions of the updater *)

Lemma rule_token_count_field_head s k :
  Re.rule_token_count_field s = Some k -> starts_nonspace s.
Proof.
  by intros (ws & ds & post & -> & _)%rule_token_count_field_Some.
Qed.

Lemma always_apply_key_head s k :
  Re.always_apply_key s = Some k -> starts_nonspace s.
Proof. by intros (post & -> & _)%always_apply_key_Some. Qed.

Lemma digit_not_dash c : isdigit c = true -> c <> DASH.
Proof. by intros H ->. Qed.

Lemma all_digit_ends_nonspace ds : all_digit ds -> ends_nonspace ds.
Proof.
  intros H. unfold ends_nonspace. apply Forall_rev in H.
  destruct (rev ds) as [|c r]; [done|]. simpl.
  apply digit_not_space. by inversion H.
Qed.

Lemma line_head n :
  exists c r, rule_token_count_line n = c :: r /\
              isspace c = false /\ isdigit c = false.
Proof. by eexists _, _. Qed.

Lemma line_dashless n : Forall (fun c => c <> DASH) (rule_token_count_line n).
Proof.
  unfold rule_token_count_line. rewrite !Forall_app.
  split; [by repeat constructor|]. split; [by repeat constructor|].
  eapply Forall_impl; [apply str_of_nat_digits|]. apply digit_not_dash.
Qed.

Lemma line_end n : ends_nonspace (rule_token_count_line n).
Proof.
  unfold rule_token_count_line. rewrite app_assoc.
  apply ends_nonspace_app; [|apply str_of_nat_nonempty].
  apply all_digit_ends_nonspace, str_of_nat_digits.
Qed.

Lemma line_no_NL n : no_NL (rule_token_count_line n).
Proof.
  unfold no_NL, rule_token_count_line. rewrite !Forall_app.
  split; [by repeat constructor|]. split; [by repeat constructor|].
  eapply Forall_impl; [apply str_of_nat_digits|]. apply digit_not_NL.
Qed.

Lemma inserted_head n :
  exists c r, inserted_lines n = c :: r /\ isspace c = false /\ isdigit c = false.
Proof. by eexists _, _. Qed.

Lemma inserted_dashless n : Forall (fun c => c <> DASH) (inserted_lines n).
Proof.
  unfold inserted_lines. rewrite !Forall_app.
  split; [apply line_dashless|]. split; by repeat constructor.
Qed.

Lemma inserted_end n : ends_nonspace (inserted_lines n).
Proof. unfold inserted_lines. rewrite app_assoc. by apply ends_nonspace_app. Qed.

Lemma replace_shape n :
  sub_shape Re.rule_token_count_field (rule_token_count_line n).
Proof.
  split; [apply rule_token_count_field_len|apply rule_token_count_field_end
         |apply rule_token_count_field_head|apply line_head|apply line_dashless
         |apply line_end].
Qed.

Lemma insert_shape n : sub_shape Re.always_apply_key (inserted_lines n).
Proof.
  split; [apply always_apply_key_len|apply always_apply_key_end
         |apply always_apply_key_head|apply inserted_head|apply inserted_dashless
         |apply inserted_end].
Qed.

Section twice.
Variable n : nat.

Let F := Re.sub_from Re.rule_token_count_field (rule_token_count_line n) 0.
Let G := Re.sub_from Re.always_apply_key (inserted_lines n) 0.

Lemma F_match s k :
  Re.rule_token_count_field s = Some k ->
  F true s = rule_token_count_line n ++ F false (drop k s).
Proof.
  apply sub_from_match; [apply rule_token_count_field_len|apply rule_token_count_field_end].
Qed.

Lemma F_line post :
  starts_nondigit post ->
  F true (rule_token_count_line n ++ post) = rule_token_count_line n ++ F false post.
Proof.
  intros Hpost. rewrite (F_match _ _ (rule_token_count_line_match n post Hpost)).
  by rewrite drop_app_length.
Qed.

Lemma F_cases b s :
  (s = [] /\ F b s = []) \/
  (exists k, b = true /\ Re.rule_token_count_field s = Some k /\
             F b s = rule_token_count_line n ++ F false (drop k s)) \/
  (exists c t, s = c :: t /\ (b = false \/ Re.rule_token_count_field s = None) /\
               F b s = c :: F (eqc c NL) t).
Proof. apply sub_cases, replace_shape. Qed.

Lemma G_cases b s :
  (s = [] /\ G b s = []) \/
  (exists k, b = true /\ Re.always_apply_key s = Some k /\
             G b s = inserted_lines n ++ G false (drop k s)) \/
  (exists c t, s = c :: t /\ (b = false \/ Re.always_apply_key s = None) /\
               G b s = c :: G (eqc c NL) t).
Proof. apply sub_cases, insert_shape. Qed.

(** Replacing the fields a second time changes nothing. *)
Lemma F_idempotent len b s : length s <= len -> F b (F b s) = F b s.
Proof.
  revert b s. induction len as [|len IH]; intros b s Hlen.
  { destruct s; [done|simpl in Hlen; lia]. }
  destruct (F_cases b s) as [[_ ->]|[(k & -> & Hm & ->)|(c & t & -> & Hb & ->)]];
    [done| |].
  - pose proof (rule_token_count_field_len _ _ Hm) as Hk.
    apply rule_token_count_field_Some in Hm
      as (ws & ds & post & Hs & _ & _ & _ & Hpost & Hkeq).
    assert (drop k s = post) as ->.
    { rewrite Hs, Hkeq, !app_assoc, <- !length_app. by rewrite drop_app_length. }
    rewrite F_line.
    + f_equal. apply IH. rewrite Hs, !length_app in Hlen.
      change (length Re.RULE_TOKEN_COUNT) with 15 in Hlen. lia.
    + by apply (sub_starts_nondigit _ _ (replace_shape n)).
  - unfold F at 1. rewrite sub_from_copy.
    + f_equal. apply IH. simpl in Hlen. lia.
    + destruct Hb as [->|Hm]; [by left|right].
      by apply (rule_token_count_field_sub_copy _ _ (replace_shape n)).
Qed.

(** After the insertion before [alwaysApply:], replacing the fields changes
    nothing when there was no field before. *)
Lemma F_after_G len b s :
  length s <= len ->
  Re.search_from Re.rule_token_count_field b s = false ->
  F b (G b s) = G b s.
Proof.
  revert b s. induction len as [|len IH]; intros b s Hlen Hno.
  { destruct s; [done|simpl in Hlen; lia]. }
  destruct (G_cases b s) as [[_ ->]|[(k & -> & Hm & ->)|(c & t & -> & Hb & ->)]];
    [done| |].
  - apply always_apply_key_Some in Hm as (post & -> & ->).
    rewrite drop_app_length. unfold inserted_lines. rewrite <- !app_assoc.
    rewrite F_line by done. f_equal.
    change ([NL] ++ ?x) with (NL :: x). unfold F at 1.
    rewrite sub_from_newline. f_equal.
    change (Re.ALWAYS_APPLY ++ G false post)
      with ("a"%char :: (tail Re.ALWAYS_APPLY ++ G false post)).
    rewrite sub_from_copy_true; [|by repeat constructor|done].
    do 2 f_equal. apply IH.
    + rewrite length_app in Hlen. change (length Re.ALWAYS_APPLY) with 12 in Hlen. lia.
    + by apply search_from_false_drop in Hno.
  - unfold F at 1. rewrite sub_from_copy.
    + f_equal. apply IH; [simpl in Hlen; lia|].
      by apply search_from_false_tail in Hno.
    + destruct b; [right|by left].
      apply (rule_token_count_field_sub_copy _ _ (insert_shape n)).
      by apply search_from_false_head.
Qed.

Lemma digits_after_space_append r X :
  digits_after_space r = 0 -> starts_nonspace X -> starts_nondigit X ->
  digits_after_space (r ++ NL :: X) = 0.
Proof.
  unfold digits_after_space. intros Hr HXs HXd.
  induction r as [|c r IH]; simpl in *.
  - assert (Re.span isspace X = 0) as -> by (by apply span_zero).
    by apply span_zero.
  - destruct (isspace c); simpl in *; [by apply IH|].
    by destruct (isdigit c).
Qed.

Lemma rule_token_count_field_append p X :
  Re.rule_token_count_field p = None -> starts_nonspace X -> starts_nondigit X ->
  Re.rule_token_count_field (p ++ NL :: X) = None.
Proof.
  unfold Re.rule_token_count_field. cbv zeta. intros Hp HXs HXd.
  rewrite startswith_before_NL by apply no_NL_RULE_TOKEN_COUNT.
  destruct (startswith Re.RULE_TOKEN_COUNT p) eqn:Hk; [|done].
  apply startswith_length in Hk as Hlen. rewrite drop_app_le by done.
  set (r := drop (length Re.RULE_TOKEN_COUNT) p) in *.
  fold (digits_after_space r) in Hp. fold (digits_after_space (r ++ NL :: X)).
  destruct (Nat.eqb_spec (digits_after_space r) 0) as [H0|]; [|done].
  by rewrite digits_after_space_append.
Qed.

(** After the field line was appended, replacing the fields changes nothing
    when there was no field before. *)
Lemma F_after_append b s :
  Re.search_from Re.rule_token_count_field b s = false ->
  F b (s ++ NL :: rule_token_count_line n) = s ++ NL :: rule_token_count_line n.
Proof.
  revert b. induction s as [|c t IH]; intros b Hno.
  - simpl app. unfold F. rewrite sub_from_copy by (destruct b; [by right|by left]).
    f_equal. change (eqc NL NL) with true. fold F.
    rewrite <- (app_nil_r (rule_token_count_line n)) at 1.
    rewrite F_line by done. by rewrite app_nil_r.
  - simpl app. unfold F. rewrite sub_from_copy.
    + f_equal. apply IH. by apply search_from_false_tail in Hno.
    + destruct b; [right|by left].
      change (c :: t ++ NL :: rule_token_count_line n)
        with ((c :: t) ++ NL :: rule_token_count_line n).
      apply rule_token_count_field_append; [|done..].
      by apply search_from_false_head.
Qed.

Lemma has_line_from_cons b c t :
  has_line_from n (eqc c NL) t -> has_line_from n b (c :: t).
Proof.
  intros (pre & post & -> & Hpre & Hpost). exists (c :: pre), post.
  by rewrite ends_nl_cons.
Qed.

Lemma has_line_from_search b s :
  has_line_from n b s -> Re.search_from Re.rule_token_count_field b s = true.
Proof.
  intros (pre & post & -> & Hpre & Hpost). apply search_from_true.
  exists pre, (rule_token_count_line n ++ post). split; [done|]. split; [done|].
  by rewrite rule_token_count_line_match.
Qed.

Lemma search_from_cons_true m b c t :
  Re.search_from m b (c :: t) = true -> b = false \/ m (c :: t) = None ->
  Re.search_from m (eqc c NL) t = true.
Proof.
  simpl. intros [Hs|Hs]%orb_true_iff Hb; [|done].
  apply andb_true_iff in Hs as [-> Hs%bool_decide_eq_true].
  destruct Hb as [|Hm]; [done|]. rewrite Hm in Hs. by destruct Hs.
Qed.

Lemma F_has_line b s :
  Re.search_from Re.rule_token_count_field b s = true -> has_line_from n b (F b s).
Proof.
  revert b. induction s as [|c t IH]; intros b Hs.
  { by destruct b. }
  destruct (F_cases b (c :: t))
    as [[? _]|[(k & -> & Hm & ->)|(c' & t' & [= <- <-] & Hb & ->)]]; [done| |].
  - exists [], (F false (drop k (c :: t))). split; [done|]. split; [done|].
    apply (sub_starts_nondigit _ _ (replace_shape n)).
    apply rule_token_count_field_Some in Hm
      as (ws & ds & post & Hs' & _ & _ & _ & Hpost & Hkeq).
    rewrite Hs', Hkeq, !app_assoc, <- !length_app. by rewrite drop_app_length.
  - apply has_line_from_cons, IH. by apply search_from_cons_true in Hs.
Qed.

Lemma G_has_line b s :
  Re.search_from Re.always_apply_key b s = true -> has_line_from n b (G b s).
Proof.
  revert b. induction s as [|c t IH]; intros b Hs.
  { by destruct b. }
  destruct (G_cases b (c :: t))
    as [[? _]|[(k & -> & Hm & ->)|(c' & t' & [= <- <-] & Hb & ->)]]; [done| |].
  - exists [], (NL :: Re.ALWAYS_APPLY ++ G false (drop k (c :: t))).
    unfold inserted_lines. by rewrite <- !app_assoc.
  - apply has_line_from_cons, IH. by apply search_from_cons_true in Hs.
Qed.

Lemma append_has_line s : has_line_from n true (s ++ NL :: rule_token_count_line n).
Proof.
  exists (s ++ [NL]), []. rewrite <- !app_assoc, app_nil_r.
  split; [done|]. split; [apply ends_nl_app_NL|done].
Qed.

End twice.

(** ** Lines of a frontmatter block *)

Lemma lines_no_NL u : no_NL u -> lines u = [u].
Proof.
  induction 1 as [|c u Hc _ IH]; [done|]. simpl.
  apply eqc_false in Hc. by rewrite Hc, IH.
Qed.

Lemma lines_app_NL u t : no_NL u -> lines (u ++ NL :: t) = u :: lines t.
Proof.
  induction 1 as [|c u Hc _ IH]; [done|]. simpl.
  apply eqc_false in Hc. by rewrite Hc, IH.
Qed.

Lemma line_split s :
  exists u, no_NL u /\ (s = u \/ exists t, s = u ++ NL :: t).
Proof.
  induction s as [|c s (u & Hu & Hs)].
  - exists []. split; [constructor|by left].
  - destruct (decide (c = NL)) as [->|Hc].
    + exists []. split; [constructor|right]. by exists s.
    + exists (c :: u). split; [by constructor|].
      destruct Hs as [->|[t ->]]; [by left|right]. by exists t.
Qed.

Lemma fields_inline_from_drop b u t :
  fields_inline_from b (u ++ t) = true ->
  fields_inline_from (ends_nl b u) t = true.
Proof.
  revert b. induction u as [|c u IH]; intros b; [done|].
  rewrite ends_nl_cons. simpl. intros [_ H]%andb_true_iff. by apply IH.
Qed.

Lemma fields_inline_from_eq b s :
  fields_inline_from b s =
  (if b then
     match Re.rule_token_count_field s with
     | Some k => forallb (fun c => negb (eqc c NL)) (take k s)
     | None => true
     end
   else true)
  && match s with
     | [] => true
     | c :: t => fields_inline_from (eqc c NL) t
     end.
Proof. by destruct s. Qed.

Lemma fields_inline_from_head s k :
  fields_inline_from true s = true -> Re.rule_token_count_field s = Some k ->
  no_NL (take k s).
Proof.
  intros H Hm. assert (forallb (fun c => negb (eqc c NL)) (take k s) = true) as Hf.
  { rewrite fields_inline_from_eq, Hm in H. by apply andb_true_iff in H as [H _]. }
  rewrite forallb_forall in Hf. apply Forall_forall. intros c Hc.
  apply list_elem_of_In, Hf, negb_true_iff in Hc. by apply eqc_false.
Qed.

Lemma no_NL_take_line k u t : no_NL (take k (u ++ NL :: t)) -> k <= length u.
Proof.
  intros H. destruct (decide (k <= length u)) as [|Hk]; [done|].
  rewrite take_app_ge in H by lia.
  apply Forall_app in H as [_ H].
  destruct (k - length u) as [|j] eqn:Hj; [lia|]. simpl in H.
  by inversion H.
Qed.

Section shape_lines.
Variable m : str -> option nat.
Variable repl : str.
Hypothesis shape : sub_shape m repl.

Let S := Re.sub_from m repl 0.

Lemma sub_line_false u rest :
  no_NL u -> rest_of_line rest -> S false (u ++ rest) = u ++ sub_rest m repl rest.
Proof.
  intros Hu Hrest. unfold S. rewrite sub_from_copy_false by done. f_equal.
  destruct Hrest as [->|[t ->]]; [done|]. apply sub_from_newline.
Qed.

Lemma sub_line_copy u rest :
  no_NL u -> rest_of_line rest -> m (u ++ rest) = None ->
  S true (u ++ rest) = u ++ sub_rest m repl rest.
Proof.
  intros Hu Hrest Hm. destruct u as [|c u].
  - destruct Hrest as [->|[t ->]]; [done|]. simpl.
    unfold S. by rewrite sub_from_copy by (by right).
  - simpl app. unfold S. rewrite sub_from_copy_true by done.
    f_equal. f_equal. fold S.
    destruct Hrest as [->|[t ->]]; [done|]. apply sub_from_newline.
Qed.

Lemma sub_line_match u rest k :
  no_NL u -> rest_of_line rest -> m (u ++ rest) = Some k -> k <= length u ->
  S true (u ++ rest) = repl ++ drop k u ++ sub_rest m repl rest.
Proof.
  intros Hu Hrest Hm Hk. unfold S.
  rewrite (sub_from_match _ _ (shape_len _ _ shape) (shape_end _ _ shape) _ _ Hm).
  f_equal. rewrite drop_app_le by done. apply sub_line_false; [|done].
  by apply Forall_drop.
Qed.

End shape_lines.

Lemma lines_line h rest :
  no_NL h -> rest_of_line rest ->
  lines (h ++ rest) = h :: match rest with [] => [] | _ :: t => lines t end.
Proof.
  intros Hh [->|[t ->]].
  - rewrite app_nil_r. by apply lines_no_NL.
  - by apply lines_app_NL.
Qed.

Lemma startswith_take p u rest :
  startswith p (u ++ rest) = true -> length p <= length u -> startswith p u = true.
Proof.
  intros H%startswith_inv Hlen. apply (f_equal (take (length p))) in H.
  rewrite take_app_length, take_app_le in H by done.
  rewrite <- (take_drop (length p) u), H. apply startswith_app.
Qed.

Lemma other_field_RULE_TOKEN_COUNT l :
  startswith Re.RULE_TOKEN_COUNT l = true -> other_field l = false.
Proof. unfold other_field. intros ->. apply andb_false_r. Qed.

Section other_fields.
Variable n : nat.

Let F := Re.sub_from Re.rule_token_count_field (rule_token_count_line n) 0.
Let G := Re.sub_from Re.always_apply_key (inserted_lines n) 0.

Lemma other_field_line t : other_field (rule_token_count_line n ++ t) = false.
Proof.
  apply other_field_RULE_TOKEN_COUNT. unfold rule_token_count_line.
  rewrite <- app_assoc. apply startswith_app.
Qed.

(** Replacing the fields keeps every other line, when no field runs over a
    line feed. *)
Lemma F_other_fields len b s :
  length s <= len -> fields_inline_from b s = true ->
  List.filter other_field (lines (F b s)) = List.filter other_field (lines s).
Proof.
  revert b s. induction len as [|len IH]; intros b s Hlen Hin.
  { destruct s; [done|simpl in Hlen; lia]. }
  destruct (line_split s) as (u & Hu & Hs).
  assert (exists rest, s = u ++ rest /\ rest_of_line rest) as (rest & -> & Hrest).
  { destruct Hs as [->|[t ->]].
    - exists []. rewrite app_nil_r. split; [done|by left].
    - exists (NL :: t). split; [done|right; by exists t]. }
  assert (List.filter other_field
            match sub_rest Re.rule_token_count_field (rule_token_count_line n) rest
            with [] => [] | _ :: t => lines t end
          = List.filter other_field
              match rest with [] => [] | _ :: t => lines t end) as Htl.
  { destruct Hrest as [->|[t ->]]; [done|]. simpl. apply IH.
    - rewrite length_app in Hlen. simpl in Hlen. lia.
    - change (u ++ NL :: t) with (u ++ [NL] ++ t) in Hin. rewrite app_assoc in Hin.
      apply fields_inline_from_drop in Hin. by rewrite ends_nl_app_NL in Hin. }
  assert (rest_of_line
            (sub_rest Re.rule_token_count_field (rule_token_count_line n) rest))
    as Hrest'.
  { destruct Hrest as [->|[t ->]]; [by left|right]. by eexists. }
  rewrite (lines_line u rest) by done.
  assert (F b (u ++ rest)
          = u ++ sub_rest Re.rule_token_count_field (rule_token_count_line n) rest
          -> List.filter other_field (lines (F b (u ++ rest)))
             = List.filter other_field
                 (u :: match rest with [] => [] | _ :: t => lines t end)) as Hcopy.
  { intros ->. rewrite lines_line by done. cbn [List.filter]. by rewrite Htl. }
  destruct b; [|by apply Hcopy, sub_line_false].
  destruct (Re.rule_token_count_field (u ++ rest)) as [k|] eqn:Hm;
    [|by apply Hcopy, sub_line_copy].
  assert (k <= length u) as Hk.
  { pose proof (fields_inline_from_head _ _ Hin Hm) as Hno.
    destruct Hrest as [->|[t ->]].
    - apply rule_token_count_field_len in Hm. rewrite app_nil_r in Hm. lia.
    - by apply no_NL_take_line in Hno. }
  unfold F. rewrite (sub_line_match _ _ (replace_shape n) _ _ _ Hu Hrest Hm Hk).
  rewrite app_assoc, lines_line; [|apply Forall_app; split;
                                    [apply line_no_NL|by apply Forall_drop]|done].
  cbn [List.filter]. rewrite other_field_line, Htl.
  rewrite other_field_RULE_TOKEN_COUNT; [done|].
  apply rule_token_count_field_Some in Hm as (ws & ds & post & Heq & _ & _ & _ & _ & ->).
  apply (startswith_take _ _ rest); [|lia].
  rewrite Heq. apply startswith_app.
Qed.

(** The insertion keeps every other line. *)
Lemma G_other_fields len b s :
  length s <= len ->
  List.filter other_field (lines (G b s)) = List.filter other_field (lines s).
Proof.
  revert b s. induction len as [|len IH]; intros b s Hlen.
  { destruct s; [done|simpl in Hlen; lia]. }
  destruct (line_split s) as (u & Hu & Hs).
  assert (exists rest, s = u ++ rest /\ rest_of_line rest) as (rest & -> & Hrest).
  { destruct Hs as [->|[t ->]].
    - exists []. rewrite app_nil_r. split; [done|by left].
    - exists (NL :: t). split; [done|right; by exists t]. }
  assert (List.filter other_field
            match sub_rest Re.always_apply_key (inserted_lines n) rest
            with [] => [] | _ :: t => lines t end
          = List.filter other_field
              match rest with [] => [] | _ :: t => lines t end) as Htl.
  { destruct Hrest as [->|[t ->]]; [done|]. simpl. apply IH.
    rewrite length_app in Hlen. simpl in Hlen. lia. }
  assert (rest_of_line (sub_rest Re.always_apply_key (inserted_lines n) rest))
    as Hrest'.
  { destruct Hrest as [->|[t ->]]; [by left|right]. by eexists. }
  rewrite (lines_line u rest) by done.
  assert (G b (u ++ rest)
          = u ++ sub_rest Re.always_apply_key (inserted_lines n) rest
          -> List.filter other_field (lines (G b (u ++ rest)))
             = List.filter other_field
                 (u :: match rest with [] => [] | _ :: t => lines t end)) as Hcopy.
  { intros ->. rewrite lines_line by done. cbn [List.filter]. by rewrite Htl. }
  destruct b; [|by apply Hcopy, sub_line_false].
  destruct (Re.always_apply_key (u ++ rest)) as [k|] eqn:Hm;
    [|by apply Hcopy, sub_line_copy].
  assert (k <= length u /\ Re.ALWAYS_APPLY ++ drop k u = u) as [Hk Hu'].
  { apply always_apply_key_Some in Hm as (post & Heq & ->).
    assert (length Re.ALWAYS_APPLY <= length u) as Hk.
    { destruct Hrest as [->|[t ->]].
      - rewrite app_nil_r in Heq. rewrite Heq, length_app. lia.
      - apply (no_NL_take_line _ _ t). rewrite Heq, take_app_length.
        apply no_NL_ALWAYS_APPLY. }
    split; [done|].
    apply (f_equal (take (length Re.ALWAYS_APPLY))) in Heq.
    rewrite take_app_le, take_app_length in Heq by done.
    rewrite <- (take_drop (length Re.ALWAYS_APPLY) u) at 2. by rewrite Heq. }
  unfold G. rewrite (sub_line_match _ _ (insert_shape n) _ _ _ Hu Hrest Hm Hk).
  unfold inserted_lines at 1. rewrite <- !app_assoc.
  change ([NL] ++ ?x) with (NL :: x).
  rewrite lines_app_NL by apply line_no_NL.
  rewrite (app_assoc Re.ALWAYS_APPLY), Hu', lines_line by done.
  cbn [List.filter].
  pose proof (other_field_line []) as Hline. rewrite app_nil_r in Hline.
  by rewrite Hline, Htl.
Qed.

End other_fields.

(** ** Delimiters *)

Lemma find_closing content e :
  find content DELIM 3 = Some e <-> closing_delimiter_at content e.
Proof.
  rewrite find_Some. unfold closing_delimiter_at. split.
  - intros ([H3 _] & Ho & Hno). done.
  - intros (H3 & Ho & Hno). split; [|done]. split; [done|].
    unfold occurs_at in Ho. apply startswith_length in Ho.
    rewrite length_drop in Ho. simpl in Ho. lia.
Qed.

Lemma find_no_closing content :
  find content DELIM 3 = None <-> no_closing_delimiter content.
Proof. by apply find_None. Qed.

Lemma extract_well_formed content e :
  closing_delimiter_at content e ->
  extract_content_from_mdc content = lstrip (slice_from content (e + 3)).
Proof.
  intros H%find_closing. unfold extract_content_from_mdc. by rewrite H.
Qed.

Lemma extract_no_closing content :
  no_closing_delimiter content -> extract_content_from_mdc content = content.
Proof.
  intros H%find_no_closing. unfold extract_content_from_mdc. by rewrite H.
Qed.

Lemma startswith_DELIM s : startswith DELIM s = true <-> take 3 s = DELIM.
Proof.
  split.
  - intros H%startswith_inv. rewrite H. done.
  - intros H. rewrite <- (take_drop 3 s), H. apply startswith_app.
Qed.

Lemma startswith_DELIM_false s : startswith DELIM s = false <-> take 3 s <> DELIM.
Proof. rewrite <- startswith_DELIM. by destruct (startswith DELIM s). Qed.

(** The closing delimiter, read off the characters of the text. *)
Lemma closing_delimiter_take content e :
  closing_delimiter_at content e <->
  3 <= e /\ take 3 (drop e content) = DELIM /\
  forall j, 3 <= j < e -> take 3 (drop j content) <> DELIM.
Proof.
  unfold closing_delimiter_at, occurs_at. rewrite startswith_DELIM.
  split; intros (H3 & Ho & Hno); (split; [done|]); (split; [done|]);
    intros j Hj; apply startswith_DELIM_false; by apply Hno.
Qed.

Lemma no_closing_delimiter_take content :
  no_closing_delimiter content <->
  forall j, 3 <= j -> take 3 (drop j content) <> DELIM.
Proof.
  unfold no_closing_delimiter, occurs_at.
  split; intros Hno j Hj; apply startswith_DELIM_false; by apply Hno.
Qed.

Lemma find_closing_take content e :
  find content DELIM 3 = Some e ->
  3 <= e /\ take 3 (drop e content) = DELIM /\
  forall j, 3 <= j < e -> take 3 (drop j content) <> DELIM.
Proof. intros H. by apply closing_delimiter_take, find_closing. Qed.

(** C7.  For a document whose first three characters are [---] and whose
    first later [---] is at index [e], the extractor returns the text after
    that closing delimiter with its leading whitespace removed: the
    characters of the document from index [e + 3] on are a run of whitespace
    and then the result, which does not begin with whitespace. *)
Theorem C7_extract_after_closing_delimiter content e :
  take 3 content = DELIM ->
  3 <= e -> take 3 (drop e content) = DELIM ->
  (forall j, 3 <= j < e -> take 3 (drop j content) <> DELIM) ->
  exists ws,
    drop (e + 3) content = ws ++ extract_content_from_mdc content /\
    all_space ws /\
    starts_nonspace (extract_content_from_mdc content).
Proof.
  intros _ H3 Ho Hno.
  assert (closing_delimiter_at content e) as He.
  { by apply closing_delimiter_take. }
  rewrite (extract_well_formed _ _ He). apply lstrip_spec.
Qed.

Lemma C7_witness :
  let doc := text ["---"; "alwaysApply: true"; "---"; ""; "  hello world"] in
  exists ws,
    drop (22 + 3) doc = ws ++ extract_content_from_mdc doc /\
    all_space ws /\ starts_nonspace (extract_content_from_mdc doc).
Proof.
  intros doc.
  assert (find doc DELIM 3 = Some 22) as Hfind by (vm_compute; reflexivity).
  apply find_closing_take in Hfind as (H3 & Ho & Hno).
  apply C7_extract_after_closing_delimiter; [reflexivity|lia|reflexivity|exact Hno].
Defined.

(** C1 (the code departs from the specification).  A document without frontmatter
    whose body holds a horizontal rule does not start with the opening
    delimiter: the updater reports that it has no frontmatter, and yet the
    extractor cuts it after the rule instead of returning it whole. *)
Theorem C1_extract_without_opening_delimiter :
  let doc := text ["# Title"; ""; "intro"; ""; "---"; ""; "body"] in
  startswith DELIM doc = false /\
  update_text doc 1 = NoFrontmatter /\
  extract_content_from_mdc doc = lit "body" /\
  extract_content_from_mdc doc <> doc.
Proof. vm_compute. repeat split; discriminate. Qed.

(** C2 (counterexample).  In a frontmatter line [title: a---b] the three
    dashes at index 12 are not a line of their own, and both the extractor
    and the updater take them for the closing delimiter. *)
Lemma C2_counterexample :
  let doc := text ["---"; "title: a---b"; "alwaysApply: true"; "---"; "body"] in
  find doc DELIM 3 = Some 12 /\
  delimiter_line doc 12 = false /\
  extract_content_from_mdc doc = text ["b"; "alwaysApply: true"; "---"; "body"] /\
  update_text doc 7 =
    Rewritten (text ["---"; "title: a"; "ruleTokenCount: 7"; "---b";
                     "alwaysApply: true"; "---"; "body"]).
Proof. vm_compute. repeat split. Qed.

(** C2 (amended).  The updater takes a text to have frontmatter exactly
    when its first three characters are [---], whatever follows them on the
    line.  In a text that begins so, the extractor and the updater take the
    first occurrence of [---] at index 3 or later, say at index [e], for the
    closing delimiter, wherever in a line it stands: the characters from
    index [e + 3] on are a run of whitespace and then what the extractor
    returns; the characters from index 3 up to [e], trimmed on both sides,
    are the frontmatter the updater sets the field in, and the text it
    writes ends with the characters from index [e + 3] on, unchanged.  With
    no such occurrence the extractor returns the text as it is and the
    updater answers that the frontmatter is malformed. *)
Theorem C2_delimiters_are_substrings content :
  (forall n, update_text content n = NoFrontmatter <-> take 3 content <> DELIM) /\
  (take 3 content = DELIM ->
   (forall e,
      3 <= e -> take 3 (drop e content) = DELIM ->
      (forall j, 3 <= j < e -> take 3 (drop j content) <> DELIM) ->
      (exists ws,
         drop (e + 3) content = ws ++ extract_content_from_mdc content /\
         all_space ws /\ starts_nonspace (extract_content_from_mdc content)) /\
      (exists a frontmatter b,
         take (e - 3) (drop 3 content) = a ++ frontmatter ++ b /\
         all_space a /\ all_space b /\
         starts_nonspace frontmatter /\ ends_nonspace frontmatter /\
         forall n,
           update_text content n =
             Rewritten (DELIM ++ [NL] ++ set_rule_token_count frontmatter n
                        ++ [NL] ++ DELIM ++ drop (e + 3) content))) /\
   ((forall j, 3 <= j -> take 3 (drop j content) <> DELIM) ->
    extract_content_from_mdc content = content /\
    forall n, update_text content n = MalformedFrontmatter)).
Proof.
  split; [|intros Hs%startswith_DELIM; split].
  - intros n. rewrite <- startswith_DELIM_false. unfold update_text.
    destruct (startswith DELIM content); simpl; [|done].
    by destruct (find content DELIM 3).
  - intros e H3 Ho Hno.
    assert (closing_delimiter_at content e) as He.
    { by apply closing_delimiter_take. }
    split.
    + rewrite (extract_well_formed _ _ He). apply lstrip_spec.
    + destruct (strip_spec (slice content 3 e)) as (a & b & Heq & Ha & Hb & H1 & H2).
      exists a, (strip (slice content 3 e)), b. do 5 (split; [done|]).
      intros n. apply update_text_well_formed; [done|]. by apply find_closing.
  - intros Hno%no_closing_delimiter_take. split; [by apply extract_no_closing|].
    intros n. unfold update_text.
    apply find_no_closing in Hno as ->. by rewrite Hs.
Qed.

Lemma C2_witness :
  let doc := text ["---"; "title: a---b"; "alwaysApply: true"; "---"; "body"] in
  (exists ws,
     drop (12 + 3) doc = ws ++ extract_content_from_mdc doc /\
     all_space ws /\ starts_nonspace (extract_content_from_mdc doc)) /\
  (exists a frontmatter b,
     take (12 - 3) (drop 3 doc) = a ++ frontmatter ++ b /\
     all_space a /\ all_space b /\
     starts_nonspace frontmatter /\ ends_nonspace frontmatter /\
     forall n,
       update_text doc n =
         Rewritten (DELIM ++ [NL] ++ set_rule_token_count frontmatter n
                    ++ [NL] ++ DELIM ++ drop (12 + 3) doc)).
Proof.
  intros doc.
  assert (find doc DELIM 3 = Some 12) as Hfind by (vm_compute; reflexivity).
  apply find_closing_take in Hfind as (H3 & Ho & Hno).
  apply (proj1 (proj2 (C2_delimiters_are_substrings doc) ltac:(reflexivity)) 12);
    [lia|reflexivity|exact Hno].
Defined.

(** ** The updater as a process *)

Lemma bind_eq {A B} (c : proc A) (k : A -> proc B) w :
  bind c k w = match c w with
               | (inr a, w') => k a w'
               | (inl e, w') => (inl e, w')
               end.
Proof. done. Qed.

Lemma resolve_entry fs d out file content :
  d !! file = Some content ->
  resolve (World fs (Some d) out) file = AnEntry file content.
Proof. intros H. unfold resolve, entry. simpl. by rewrite H. Qed.

Lemma read_text_Some fs d out file content :
  d !! file = Some content ->
  read_text file (World fs (Some d) out) = (inr content, World fs (Some d) out).
Proof. intros H. unfold read_text. by rewrite (resolve_entry _ _ _ _ _ H). Qed.

Lemma write_text_entry fs d out file content new_content :
  d !! file = Some content ->
  write_text file new_content (World fs (Some d) out)
  = (inr tt, World fs (Some (<[file := new_content]> d)) out).
Proof. intros H. unfold write_text. by rewrite (resolve_entry _ _ _ _ _ H). Qed.

Lemma file_name_entry fs d out file content :
  d !! file = Some content ->
  file_name file (World fs (Some d) out) = (inr file, World fs (Some d) out).
Proof. intros H. unfold file_name, entry. simpl. by rewrite H. Qed.

Lemma update_rule_token_count_run fs d out file content n :
  d !! file = Some content ->
  update_rule_token_count file n (World fs (Some d) out) =
    match update_text content n with
    | NoFrontmatter =>
        (inr false, World fs (Some d) (out ++ [WarningNoFrontmatter file]))
    | MalformedFrontmatter =>
        (inr false, World fs (Some d) (out ++ [WarningMalformedFrontmatter file]))
    | Rewritten new_content =>
        (inr true, World fs (Some (<[file := new_content]> d)) out)
    end.
Proof.
  intros H. unfold update_rule_token_count, bind.
  rewrite (read_text_Some _ _ _ _ _ H).
  destruct (update_text content n); [done..|].
  by rewrite (write_text_entry _ _ _ _ _ _ H).
Qed.




(** ** Rewriting and reading back *)

Lemma free_of_slice content e :
  closing_delimiter_at content e -> free_of DELIM (slice content 3 e).
Proof.
  intros (H3 & _ & Hno) j. unfold slice, occurs_at.
  destruct (startswith DELIM (drop j (take (e - 3) (drop 3 content)))) eqn:Hs; [|done].
  assert (j + 3 <= e - 3) as Hj.
  { apply startswith_length in Hs. rewrite length_drop, length_take in Hs.
    simpl in Hs. lia. }
  specialize (Hno (3 + j) ltac:(lia)). unfold occurs_at in Hno.
  rewrite <- drop_drop, <- (take_drop (e - 3) (drop 3 content)) in Hno.
  rewrite drop_app_le in Hno by (rewrite length_take; apply startswith_length in Hs;
    rewrite length_drop, length_take in Hs; simpl in Hs; lia).
  by rewrite (startswith_app_l _ _ _ Hs) in Hno.
Qed.

Lemma free_of_frontmatter content e :
  closing_delimiter_at content e -> free_of DELIM (strip (slice content 3 e)).
Proof.
  intros H%free_of_slice.
  destruct (strip_spec (slice content 3 e)) as (a & b & Heq & _).
  rewrite Heq in H. apply free_of_app in H as [_ H].
  by apply free_of_app in H as [H _].
Qed.

Lemma free_of_line n : free_of DELIM (rule_token_count_line n).
Proof.
  rewrite <- (app_nil_r (rule_token_count_line n)).
  apply free_of_DELIM_dashless; [apply line_dashless|by apply free_of_nil].
Qed.

Lemma free_of_set_rule_token_count frontmatter n :
  free_of DELIM frontmatter -> free_of DELIM (set_rule_token_count frontmatter n).
Proof.
  intros H. unfold set_rule_token_count, Re.sub.
  destruct (Re.search Re.rule_token_count_field frontmatter).
  - by apply (sub_free _ _ (replace_shape n) (length frontmatter)).
  - destruct (Re.search Re.always_apply_key frontmatter).
    + by apply (sub_free _ _ (insert_shape n) (length frontmatter)).
    + apply free_of_DELIM_lines; [done|apply free_of_line].
Qed.

Lemma closing_delimiter_rewritten frontmatter rest :
  free_of DELIM frontmatter ->
  closing_delimiter_at (rewritten frontmatter rest) (5 + length frontmatter).
Proof.
  intros Hfree. unfold rewritten, closing_delimiter_at, occurs_at.
  split; [lia|]. split.
  - change (DELIM ++ [NL] ++ frontmatter ++ [NL] ++ DELIM ++ rest)
      with ((DELIM ++ [NL]) ++ (frontmatter ++ [NL] ++ DELIM ++ rest)).
    replace (5 + length frontmatter) with (length (DELIM ++ [NL]) + (length frontmatter + 1))
      by (simpl; lia).
    rewrite drop_app_add, app_assoc.
    replace (length frontmatter + 1) with (length (frontmatter ++ [NL]))
      by (rewrite length_app; simpl; lia).
    rewrite drop_app_length. apply startswith_app.
  - intros j Hj.
    replace j with (length DELIM + (j - 3)) by (simpl; lia).
    rewrite drop_app_add.
    change ([NL] ++ frontmatter ++ [NL] ++ DELIM ++ rest)
      with ((NL :: frontmatter) ++ NL :: DELIM ++ rest).
    rewrite drop_app_le by (simpl; lia).
    rewrite startswith_DELIM_before_NL.
    assert (free_of DELIM (NL :: frontmatter)) as Hf.
    { by apply free_of_cons. }
    apply Hf.
Qed.

Lemma extract_rewritten frontmatter rest :
  free_of DELIM frontmatter ->
  extract_content_from_mdc (rewritten frontmatter rest) = lstrip rest.
Proof.
  intros Hc%(closing_delimiter_rewritten _ rest).
  rewrite (extract_well_formed _ _ Hc). f_equal.
  unfold slice_from, rewritten.
  change (DELIM ++ [NL] ++ frontmatter ++ [NL] ++ DELIM ++ rest)
    with ((DELIM ++ [NL]) ++ (frontmatter ++ [NL] ++ DELIM ++ rest)).
  replace (5 + length frontmatter + 3)
    with (length (DELIM ++ [NL]) + (length frontmatter + 4)) by (simpl; lia).
  rewrite drop_app_add. rewrite !app_assoc.
  replace (length frontmatter + 4) with (length ((frontmatter ++ [NL]) ++ DELIM))
    by (rewrite !length_app; simpl; lia).
  by rewrite drop_app_length.
Qed.

Lemma frontmatter_of_rewritten frontmatter rest :
  free_of DELIM frontmatter ->
  frontmatter_of (rewritten frontmatter rest) = Some (strip frontmatter).
Proof.
  intros Hc%(closing_delimiter_rewritten _ rest). unfold frontmatter_of.
  apply find_closing in Hc as ->.
  unfold rewritten at 1. rewrite startswith_app. f_equal.
  unfold slice, rewritten.
  change (drop 3 (DELIM ++ ?x)) with x.
  transitivity (strip ([NL] ++ frontmatter ++ [NL]));
    [f_equal|apply strip_pad; by repeat constructor].
  rewrite (app_assoc frontmatter), (app_assoc [NL]).
  apply take_app_length'. rewrite !length_app. simpl. lia.
Qed.

Lemma update_text_rewritten content n e :
  startswith DELIM content = true -> closing_delimiter_at content e ->
  update_text content n =
    Rewritten (rewritten (set_rule_token_count (strip (slice content 3 e)) n)
                 (slice_from content (e + 3))).
Proof. intros Hs He%find_closing. by apply update_text_well_formed. Qed.

Lemma frontmatter_of_well_formed content e :
  startswith DELIM content = true -> closing_delimiter_at content e ->
  frontmatter_of content = Some (strip (slice content 3 e)).
Proof. intros Hs He%find_closing. unfold frontmatter_of. by rewrite Hs, He. Qed.

Lemma lines_app s t : lines (s ++ NL :: t) = lines s ++ lines t.
Proof.
  induction s as [|c s IH]; [done|]. simpl.
  destruct (eqc c NL); [by rewrite IH|].
  rewrite IH. by destruct s as [|d s]; simpl; [|destruct (eqc d NL), (lines s)].
Qed.

(** The frontmatter after a first update of a block that is not empty. *)
Lemma first_run frontmatter n :
  starts_nonspace frontmatter -> ends_nonspace frontmatter -> frontmatter <> [] ->
  let f1 := set_rule_token_count frontmatter n in
  strip f1 = f1 /\
  has_line_from n true f1 /\
  Re.sub_from Re.rule_token_count_field (rule_token_count_line n) 0 true f1 = f1 /\
  (fields_inline frontmatter = true -> other_fields f1 = other_fields frontmatter).
Proof.
  intros Hstart Hend Hne. unfold set_rule_token_count, Re.sub. cbv zeta.
  destruct (Re.search Re.rule_token_count_field frontmatter) eqn:Hrtc.
  - split; [|split; [|split]].
    + apply strip_fixed.
      * by apply (sub_starts_nonspace _ _ (replace_shape n)).
      * by apply (sub_ends_nonspace _ _ (replace_shape n) (length frontmatter)).
    + by apply F_has_line.
    + by apply (F_idempotent n (length frontmatter)).
    + intros Hin. by apply (F_other_fields n (length frontmatter)).
  - destruct (Re.search Re.always_apply_key frontmatter) eqn:Hkey.
    + split; [|split; [|split]].
      * apply strip_fixed.
        -- by apply (sub_starts_nonspace _ _ (insert_shape n)).
        -- by apply (sub_ends_nonspace _ _ (insert_shape n) (length frontmatter)).
      * by apply G_has_line.
      * by apply (F_after_G n (length frontmatter)).
      * intros _. by apply (G_other_fields n (length frontmatter)).
    + change (frontmatter ++ [NL] ++ rule_token_count_line n)
        with (frontmatter ++ NL :: rule_token_count_line n).
      split; [|split; [|split]].
      * apply strip_fixed.
        -- by destruct frontmatter.
        -- change (NL :: ?x) with ([NL] ++ x). rewrite app_assoc.
           apply ends_nonspace_app; [apply line_end|].
           by destruct (line_head n) as (c & r & -> & _).
      * apply append_has_line.
      * by apply F_after_append.
      * intros _. unfold other_fields.
        rewrite lines_app, List.filter_app, (lines_no_NL _ (line_no_NL n)).
        cbn [List.filter].
        pose proof (other_field_line n []) as Ho. rewrite app_nil_r in Ho.
        by rewrite Ho, app_nil_r.
Qed.

Lemma set_rule_token_count_again f1 n :
  has_line_from n true f1 ->
  set_rule_token_count f1 n
  = Re.sub_from Re.rule_token_count_field (rule_token_count_line n) 0 true f1.
Proof.
  intros Hline. unfold set_rule_token_count, Re.search.
  by rewrite (has_line_from_search _ _ _ Hline).
Qed.

(** What the second run sees and does. *)
Lemma second_run frontmatter n :
  starts_nonspace frontmatter -> ends_nonspace frontmatter ->
  let updated := strip (set_rule_token_count frontmatter n) in
  set_rule_token_count updated n = updated /\
  declares_token_count updated n /\
  (fields_inline frontmatter = true ->
   other_fields updated = other_fields frontmatter).
Proof.
  intros Hstart Hend. cbv zeta.
  destruct (decide (frontmatter = [])) as [->|Hne].
  - assert (strip (set_rule_token_count [] n) = rule_token_count_line n) as ->.
    { change (set_rule_token_count [] n) with (NL :: rule_token_count_line n).
      rewrite <- (app_nil_r (rule_token_count_line n)) at 1.
      change (NL :: ?x ++ []) with ([NL] ++ x ++ []).
      rewrite strip_pad by (by repeat constructor).
      apply strip_fixed; [done|apply line_end]. }
    assert (has_line_from n true (rule_token_count_line n)) as Hline.
    { exists [], []. by rewrite app_nil_r. }
    split; [|split; [done|]].
    + rewrite set_rule_token_count_again by done.
      rewrite <- (app_nil_r (rule_token_count_line n)) at 2 3.
      by rewrite F_line.
    + intros _. unfold other_fields.
      rewrite lines_no_NL by apply line_no_NL. cbn [List.filter].
      pose proof (other_field_line n []) as Ho. rewrite app_nil_r in Ho.
      by rewrite Ho.
  - destruct (first_run frontmatter n Hstart Hend Hne) as (Hstrip & Hline & Hsub & Hother).
    rewrite Hstrip. split; [|by split].
    by rewrite set_rule_token_count_again.
Qed.

Lemma strip_trimmed s :
  starts_nonspace (strip s) /\ ends_nonspace (strip s).
Proof. destruct (strip_spec s) as (a & b & _ & _ & _ & H1 & H2). done. Qed.

(** One update of a well-formed document, and the update of its result. *)
Lemma update_twice content n e :
  startswith DELIM content = true -> closing_delimiter_at content e ->
  let frontmatter := strip (slice content 3 e) in
  let rest := slice_from content (e + 3) in
  let updated := set_rule_token_count frontmatter n in
  update_text content n = Rewritten (rewritten updated rest) /\
  extract_content_from_mdc (rewritten updated rest)
    = extract_content_from_mdc content /\
  frontmatter_of (rewritten updated rest) = Some (strip updated) /\
  update_text (rewritten updated rest) n = Rewritten (rewritten (strip updated) rest) /\
  frontmatter_of (rewritten (strip updated) rest) = Some (strip updated) /\
  declares_token_count (strip updated) n /\
  (fields_inline frontmatter = true ->
   other_fields (strip updated) = other_fields frontmatter).
Proof.
  intros Hs He. cbv zeta.
  set (frontmatter := strip (slice content 3 e)).
  set (rest := slice_from content (e + 3)).
  set (updated := set_rule_token_count frontmatter n).
  assert (free_of DELIM updated) as Hfree.
  { by apply free_of_set_rule_token_count, free_of_frontmatter. }
  assert (free_of DELIM (strip updated)) as Hfree'.
  { destruct (strip_spec updated) as (a & b & Heq & _).
    rewrite Heq in Hfree. apply free_of_app in Hfree as [_ Hfree].
    by apply free_of_app in Hfree as [Hfree _]. }
  destruct (strip_trimmed (slice content 3 e)) as [Hstart Hend].
  destruct (second_run frontmatter n Hstart Hend) as (Hagain & Hline & Hother).
  fold updated in Hagain, Hline, Hother.
  split; [by apply update_text_rewritten|].
  split.
  { rewrite extract_rewritten by done. symmetry. by apply extract_well_formed. }
  split; [by apply frontmatter_of_rewritten|].
  split.
  { pose proof (closing_delimiter_rewritten updated rest Hfree) as Hc.
    rewrite (update_text_rewritten (rewritten updated rest) n _
               (startswith_app DELIM _) Hc).
    pose proof (frontmatter_of_rewritten updated rest Hfree) as Hfm.
    rewrite (frontmatter_of_well_formed (rewritten updated rest) _
               (startswith_app DELIM _) Hc) in Hfm.
    assert (strip (slice (rewritten updated rest) 3 (5 + length updated))
            = strip updated) as -> by congruence.
    rewrite Hagain. do 2 f_equal.
    unfold slice_from, rewritten.
    change (DELIM ++ [NL] ++ updated ++ [NL] ++ DELIM ++ rest)
      with ((DELIM ++ [NL]) ++ (updated ++ [NL] ++ DELIM ++ rest)).
    replace (5 + length updated + 3)
      with (length (DELIM ++ [NL]) + (length updated + 4)) by (simpl; lia).
    rewrite drop_app_add. rewrite !app_assoc.
    replace (length updated + 4) with (length ((updated ++ [NL]) ++ DELIM))
      by (rewrite !length_app; simpl; lia).
    by rewrite drop_app_length. }
  split; [|done].
  rewrite frontmatter_of_rewritten by done. f_equal.
  apply strip_fixed; apply strip_trimmed.
Qed.

(** C5 (the code departs from the specification).  A [ruleTokenCount:] line
    without a value, followed by a line that begins with a digit: the [\s*]
    of the pattern [^ruleTokenCount:\s*\d+] runs over the line feed, so the
    replacement of the existing field takes the head of the next line with
    it.  The update joins the two lines, and the field [2fa] of the
    frontmatter is gone from the frontmatter that is read back: the fields
    are not the same as before plus the updated [ruleTokenCount]. *)
Theorem C5_next_line_swallowed :
  let doc := text ["---"; "ruleTokenCount:"; "2fa: on"; "---"; "body"] in
  let new_content := text ["---"; "ruleTokenCount: 12fa: on"; "---"; "body"] in
  update_text doc 12 = Rewritten new_content /\
  frontmatter_of doc = Some (text ["ruleTokenCount:"; "2fa: on"]) /\
  frontmatter_of new_content = Some (text ["ruleTokenCount: 12fa: on"]) /\
  lines (text ["ruleTokenCount:"; "2fa: on"])
  = [lit "ruleTokenCount:"; lit "2fa: on"] /\
  lines (text ["ruleTokenCount: 12fa: on"]) = [lit "ruleTokenCount: 12fa: on"] /\
  other_fields (text ["ruleTokenCount:"; "2fa: on"]) = [lit "2fa: on"] /\
  other_fields (text ["ruleTokenCount: 12fa: on"]) = [].
Proof. vm_compute. repeat split. Qed.

(** What holds of every successful update of a document with well-formed
    frontmatter: the file then reads opening delimiter, line feed, the
    updated frontmatter, line feed, closing delimiter, and what followed the
    closing delimiter before; extracting the body of the new text gives the
    body of the old one; the frontmatter read back from the new text
    declares [ruleTokenCount: <n>] at the beginning of a line.  Its lines
    other than [ruleTokenCount:] lines are those of the old frontmatter when
    no [ruleTokenCount:] field of the old frontmatter had its integer on a
    later line. *)
Lemma update_round_trip content n e :
  startswith DELIM content = true -> closing_delimiter_at content e ->
  exists updated new_content frontmatter frontmatter',
    update_text content n = Rewritten new_content /\
    new_content = DELIM ++ [NL] ++ updated ++ [NL] ++ DELIM
                  ++ drop (e + 3) content /\
    extract_content_from_mdc new_content = extract_content_from_mdc content /\
    frontmatter_of content = Some frontmatter /\
    frontmatter_of new_content = Some frontmatter' /\
    declares_token_count frontmatter' n /\
    (fields_inline frontmatter = true ->
     other_fields frontmatter' = other_fields frontmatter).
Proof.
  intros Hs He.
  destruct (update_twice content n e Hs He)
    as (Hup & Hbody & Hfm & _ & _ & Hline & Hother).
  eexists _, _, _, _. split; [exact Hup|]. split; [done|].
  split; [exact Hbody|]. split; [by apply frontmatter_of_well_formed|].
  split; [exact Hfm|]. by split.
Qed.

Example update_round_trip_example :
  let doc := text ["---"; "description: x"; "ruleTokenCount: 5";
                   "alwaysApply: true"; "---"; ""; "# Body"] in
  let new_content := text ["---"; "description: x"; "ruleTokenCount: 12";
                           "alwaysApply: true"; "---"; ""; "# Body"] in
  update_text doc 12 = Rewritten new_content /\
  extract_content_from_mdc new_content = extract_content_from_mdc doc /\
  frontmatter_of new_content
  = Some (text ["description: x"; "ruleTokenCount: 12"; "alwaysApply: true"]) /\
  other_fields (text ["description: x"; "ruleTokenCount: 12"; "alwaysApply: true"])
  = other_fields (text ["description: x"; "ruleTokenCount: 5"; "alwaysApply: true"]).
Proof. vm_compute. repeat split. Qed.

(** ** Processing one file *)

Lemma process_rule_file_run fs tk d out file content upd :
  d !! file = Some content ->
  process_rule_file tk file upd (World fs (Some d) out) =
    let n := count_tokens tk (extract_content_from_mdc content) in
    (inr n,
     if upd then
       match update_text content n with
       | NoFrontmatter =>
           World fs (Some d)
             (((out ++ [FileLine file n]) ++ [WarningNoFrontmatter file])
              ++ [CouldNotUpdateRuleTokenCount])
       | MalformedFrontmatter =>
           World fs (Some d)
             (((out ++ [FileLine file n]) ++ [WarningMalformedFrontmatter file])
              ++ [CouldNotUpdateRuleTokenCount])
       | Rewritten new_content =>
           World fs (Some (<[file := new_content]> d))
             ((out ++ [FileLine file n]) ++ [UpdatedRuleTokenCount])
       end
     else World fs (Some d) (out ++ [FileLine file n])).
Proof.
  intros Hfile. unfold process_rule_file.
  rewrite bind_eq, bind_eq, (read_text_Some _ _ _ _ _ Hfile). cbv zeta.
  unfold ret at 1. cbv iota.
  rewrite bind_eq, (file_name_entry _ _ _ _ _ Hfile).
  rewrite bind_eq. unfold print at 1. simpl beyond. simpl rules. simpl stdout.
  destruct upd; [|done].
  rewrite bind_eq, bind_eq, (update_rule_token_count_run _ _ _ _ _ _ Hfile).
  by destruct (update_text content _).
Qed.

(** C6.  On a file with well-formed frontmatter two update passes in
    succession both succeed and compute the same token count [n]; the
    frontmatter read back after the second pass is the frontmatter read back
    after the first, character for character, and it declares
    [ruleTokenCount: <n>]: the second pass found the field the first had
    written and replaced it by itself, adding nothing. *)
Theorem C6_update_twice fs tk d out file content e :
  d !! file = Some content ->
  startswith DELIM content = true -> closing_delimiter_at content e ->
  exists n c1 c2 frontmatter w1 w2,
    process_rule_file tk file true (World fs (Some d) out) = (inr n, w1) /\
    rules w1 = Some (<[file := c1]> d) /\
    process_rule_file tk file true w1 = (inr n, w2) /\
    rules w2 = Some (<[file := c2]> d) /\
    stdout w2 = out ++ [FileLine file n; UpdatedRuleTokenCount;
                        FileLine file n; UpdatedRuleTokenCount] /\
    frontmatter_of c1 = Some frontmatter /\
    frontmatter_of c2 = Some frontmatter /\
    Re.search Re.rule_token_count_field frontmatter = true /\
    declares_token_count frontmatter n.
Proof.
  intros Hfile Hs He.
  set (n := count_tokens tk (extract_content_from_mdc content)).
  destruct (update_twice content n e Hs He)
    as (Hup & Hbody & Hfm & Hup2 & Hfm2 & Hline & _).
  eexists n, _, _, _, _, _.
  split.
  { rewrite (process_rule_file_run _ _ _ _ _ _ _ Hfile). cbv zeta. fold n.
    rewrite Hup. reflexivity. }
  split; [reflexivity|]. split.
  { rewrite (process_rule_file_run _ _ _ _ _ _ _ (lookup_insert_eq _ _ _)).
    cbv zeta. rewrite Hbody. fold n. rewrite Hup2. reflexivity. }
  split; [simpl; by rewrite insert_insert_eq|].
  split; [simpl; by rewrite <- !app_assoc|].
  split; [exact Hfm|]. split; [exact Hfm2|].
  split; [|exact Hline]. exact (has_line_from_search _ _ _ Hline).
Qed.

Lemma C6_witness :
  let chars : tiktoken :=
    {| encoding := unit; encoding_for_model := fun _ => None;
       get_encoding := fun _ => tt; encode := fun _ s => map nat_of_ascii s |} in
  let doc := text ["---"; "ruleTokenCount: 5"; "alwaysApply: true"; "---"; "hello world"] in
  let d : gmap string str := {[ "a.mdc" := doc ]} in
  exists n c1 c2 frontmatter w1 w2,
    process_rule_file chars "a.mdc" true (World example_paths (Some d) []) = (inr n, w1) /\
    rules w1 = Some (<["a.mdc" := c1]> d) /\
    process_rule_file chars "a.mdc" true w1 = (inr n, w2) /\
    rules w2 = Some (<["a.mdc" := c2]> d) /\
    stdout w2 = [] ++ [FileLine "a.mdc" n; UpdatedRuleTokenCount;
                       FileLine "a.mdc" n; UpdatedRuleTokenCount] /\
    frontmatter_of c1 = Some frontmatter /\
    frontmatter_of c2 = Some frontmatter /\
    Re.search Re.rule_token_count_field frontmatter = true /\
    declares_token_count frontmatter n.
Proof.
  intros chars doc d.
  apply (C6_update_twice example_paths chars d [] "a.mdc" doc 40); [reflexivity|reflexivity|].
  apply find_closing. vm_compute. reflexivity.
Defined.

(** ** The loop over the rule files *)

Lemma process_rule_file_step fs tk d out file content upd :
  d !! file = Some content ->
  process_rule_file tk file upd (World fs (Some d) out) =
    (inr (tokens_of tk content),
     World fs (Some (<[file := text_after tk upd content]> d))
       (out ++ file_messages tk upd file content)).
Proof.
  intros Hfile. rewrite (process_rule_file_run _ _ _ _ _ _ _ Hfile). cbv zeta.
  unfold text_after, file_messages. fold (tokens_of tk content). f_equal.
  destruct upd.
  - destruct (update_text content (tokens_of tk content));
      rewrite <- ?app_assoc; simpl app; by rewrite ?(insert_id _ _ _ Hfile).
  - by rewrite (insert_id _ _ _ Hfile).
Qed.

Lemma snapshot_insert d file c files :
  file ∉ files -> snapshot (<[file := c]> d) files = snapshot d files.
Proof.
  intros Hnot. unfold snapshot. apply map_ext_in. intros g Hg%list_elem_of_In.
  unfold content_in. rewrite lookup_insert_ne; [done|]. by intros ->.
Qed.

Lemma for_rule_files_run fs tk upd files :
  forall d out t a,
    NoDup files -> (forall f, f ∈ files -> is_Some (d !! f)) ->
    exists d',
      for_rule_files tk upd files t a (World fs (Some d) out) =
        (inr (t + total_of tk (snapshot d files),
              a + always_applied_of tk upd (snapshot d files)),
         World fs (Some d') (out ++ messages_of tk upd (snapshot d files))).
Proof.
  induction files as [|f more IH]; intros d out t a Hnd Hex.
  - exists d. unfold total_of, always_applied_of, messages_of. simpl.
    by rewrite !Nat.add_0_r, app_nil_r.
  - apply NoDup_cons in Hnd as [Hf Hnd].
    destruct (Hex f ltac:(by left)) as [content Hfile].
    set (d1 := <[f := text_after tk upd content]> d).
    destruct (IH d1 (out ++ file_messages tk upd f content)
                (t + tokens_of tk content)
                (if always_applied tk upd content
                 then a + tokens_of tk content else a) Hnd) as [d' Hrun].
    { intros g Hg. unfold d1. rewrite lookup_insert_ne.
      - apply Hex. by right.
      - by intros ->. }
    exists d'. simpl for_rule_files. unfold bind at 1.
    rewrite (process_rule_file_step _ _ _ _ _ _ _ Hfile). fold d1.
    unfold bind at 1.
    rewrite (read_text_Some _ d1 _ f (text_after tk upd content))
      by apply lookup_insert_eq.
    fold (always_applied tk upd content). rewrite Hrun.
    unfold d1. rewrite snapshot_insert by done.
    assert (content_in d f = content) as Hc.
    { unfold content_in. by rewrite Hfile. }
    change (snapshot d (f :: more)) with ((f, content_in d f) :: snapshot d more).
    rewrite Hc. unfold total_of, always_applied_of, messages_of. simpl.
    rewrite <- app_assoc.
    destruct (always_applied tk upd content); simpl; by rewrite !Nat.add_assoc.
Qed.

(** ** A whole run *)

Lemma report_run fs tk a d out files :
  NoDup files -> (forall f, f ∈ files -> is_Some (d !! f)) ->
  exists d',
    report tk a files (World fs (Some d) out) =
      (report_result tk (snapshot d files),
       World fs (Some d') (out ++ report_lines tk a (snapshot d files))).
Proof.
  intros Hnd Hex.
  destruct (for_rule_files_run fs tk (update a) files d
              ((out ++ [TableHeader]) ++ [TableRule]) 0 0 Hnd Hex) as [d' Hrun].
  exists d'. unfold report, report_result, report_lines.
  unfold bind at 1, print at 1. unfold bind at 1, print at 1.
  simpl beyond. simpl rules. simpl stdout. unfold bind at 1. rewrite Hrun. simpl.
  unfold bind at 1, print at 1. unfold bind at 1, print at 1.
  simpl beyond. simpl rules. simpl stdout. unfold bind at 1.
  assert (length (snapshot d files) = length files) as ->
    by apply length_map.
  destruct (total_of tk (snapshot d files) =? 0) eqn:Htotal.
  - unfold raise. f_equal. f_equal. by rewrite <- !app_assoc.
  - unfold print at 1. simpl beyond. simpl rules. simpl stdout.
    destruct (update a); unfold print, ret; simpl; f_equal; f_equal;
      by rewrite <- !app_assoc.
Qed.

Lemma glob_result_spec d f :
  f ∈ glob_result d <-> f ∈ dom d /\ endswith ".mdc" f = true.
Proof.
  unfold glob_result. rewrite merge_sort_Permutation.
  rewrite list_elem_of_filter, elem_of_elements. tauto.
Qed.

Lemma glob_result_NoDup d : NoDup (glob_result d).
Proof.
  unfold glob_result. rewrite merge_sort_Permutation.
  apply NoDup_filter, NoDup_elements.
Qed.

Lemma glob_mdc_run fs d out :
  glob_mdc (World fs (Some d) out) = (inr (glob_result d), World fs (Some d) out).
Proof. done. Qed.

Lemma discover_files a d files :
  discover a d = inr files ->
  files <> [] /\ NoDup files /\ forall f, f ∈ files -> is_Some (d !! f).
Proof.
  unfold discover. destruct (named_rule a) as [name|].
  - case_bool_decide as Hname; [|done]. intros [= <-].
    split; [done|]. split; [apply NoDup_singleton|].
    by intros f ->%list_elem_of_singleton.
  - destruct (glob_result d) as [|f0 more] eqn:Hglob; [done|]. intros [= <-].
    split; [done|]. split; [rewrite <- Hglob; apply glob_result_NoDup|].
    intros f Hf. rewrite <- Hglob in Hf.
    apply glob_result_spec in Hf as [Hf _]. by apply elem_of_dom.
Qed.

(** ** A file reached by a path *)

Lemma resolve_AnEntry w path name content :
  resolve w path = AnEntry name content <->
  (entry w path = Some content /\ name = path) \/
  (entry w path = None /\ beyond w path = SameAs name /\
   entry w name = Some content).
Proof.
  unfold resolve. destruct (entry w path) as [c|] eqn:He.
  - split; [intros [= <- <-]; by left|].
    intros [[[= ->] ->]|[? _]]; done.
  - destruct (beyond w path) as [| |c|k] eqn:Hb;
      try (split; [done|by intros [[? _]|(_ & ? & _)]]).
    destruct (entry w k) as [c|] eqn:Hk.
    + split; [intros [= <- <-]; by right|].
      intros [[? _]|(_ & [= <-] & Hc)]; [done|].
      rewrite Hk in Hc. by injection Hc as ->.
    + split; [done|]. intros [[? _]|(_ & [= <-] & Hc)]; [done|].
      by rewrite Hk in Hc.
Qed.

Lemma resolve_Elsewhere w path content :
  resolve w path = Elsewhere content <->
  entry w path = None /\ beyond w path = Regular content.
Proof.
  unfold resolve. destruct (entry w path) as [c|]; [by split; [|intros []]|].
  destruct (beyond w path) as [| |c|k]; try (by split; [|intros [_ ?]]).
  - split; [by intros [= ->]|by intros [_ [= ->]]].
  - destruct (entry w k); by split; [|intros [_ ?]].
Qed.

Lemma resolve_stdout w out path :
  resolve (World (beyond w) (rules w) out) path = resolve w path.
Proof. done. Qed.

Lemma content_at_stdout w out path :
  content_at (World (beyond w) (rules w) out) path = content_at w path.
Proof. done. Qed.

Lemma read_text_at w path content :
  content_at w path = Some content -> read_text path w = (inr content, w).
Proof.
  unfold content_at, read_text. by destruct (resolve w path); intros [= ->].
Qed.

Lemma write_text_at w path content new_content out :
  content_at w path = Some content ->
  write_text path new_content (World (beyond w) (rules w) out) =
    (inr tt,
     World (beyond (write_text path new_content w).2)
       (rules (write_text path new_content w).2) out).
Proof.
  unfold content_at, write_text. rewrite resolve_stdout.
  by destruct (resolve w path).
Qed.

(** What a write leaves: the text at the path, the other entries, the
    same names. *)
Lemma written_at w path content new_content :
  content_at w path = Some content ->
  let w' := (write_text path new_content w).2 in
  (forall out,
     content_at (World (beyond w') (rules w') out) path = Some new_content) /\
  (forall p, is_Some (entry w' p) <-> is_Some (entry w p)) /\
  stdout w' = stdout w.
Proof.
  unfold content_at, write_text. cbv zeta.
  destruct (resolve w path) as [| |name c|c] eqn:Hr; try done. 
  - intros _. apply resolve_AnEntry in Hr. destruct w as [fs [d|] o];
      [|by destruct Hr as [[? _]|(? & _ & ?)]].
    unfold entry in *. simpl in *. split; [|split; [|done]].
    + intros out. unfold resolve, entry. simpl.
      destruct Hr as [[Hc ->]|(Hnone & Hb & Hc)].
      * by rewrite lookup_insert_eq.
      * assert (name <> path) as Hne by (intros ->; congruence).
        rewrite lookup_insert_ne by done. rewrite Hnone, Hb.
        by rewrite lookup_insert_eq.
    + intros p. destruct (decide (name = p)) as [<-|Hne].
      * rewrite lookup_insert_eq.
        destruct Hr as [[Hc ->]|(_ & _ & Hc)]; rewrite Hc; by split.
      * by rewrite lookup_insert_ne.
  - intros _. apply resolve_Elsewhere in Hr as [Hnone Hb]. simpl.
    split; [|done]. intros out. unfold resolve. 
    change (entry {| beyond := <[path:=Regular new_content]> (beyond w);
                     rules := rules w; stdout := out |} path)
      with (entry w path).
    rewrite Hnone. simpl. by rewrite fn_lookup_insert.
Qed.

Lemma process_rule_file_path tk w path content upd :
  content_at w path = Some content ->
  process_rule_file tk path upd w =
    (inr (tokens_of tk content),
     World (beyond (store_after tk upd path content w))
       (rules (store_after tk upd path content w))
       (stdout w ++ map (show_name (fun _ => shown_name w path))
                      (file_messages tk upd path content))).
Proof.
  intros Hc. unfold process_rule_file.
  rewrite bind_eq, bind_eq, (read_text_at _ _ _ Hc). cbv zeta.
  unfold ret at 1. cbv iota. fold (tokens_of tk content).
  rewrite bind_eq. unfold file_name at 1. fold (shown_name w path). cbv iota.
  rewrite bind_eq. unfold print at 1. cbv iota.
  unfold store_after, file_messages. destruct upd; [|done].
  rewrite bind_eq, bind_eq. unfold update_rule_token_count. rewrite bind_eq.
  rewrite (read_text_at _ _ content) by (by rewrite content_at_stdout).
  destruct (update_text content (tokens_of tk content)) as [| |new_content];
    [unfold bind, print, ret; simpl; by rewrite <- !app_assoc..|].
  rewrite bind_eq, (write_text_at _ _ _ _ _ Hc).
  unfold bind, print, ret. simpl. by rewrite <- !app_assoc.
Qed.

Lemma content_at_after tk upd w path content out :
  content_at w path = Some content ->
  content_at (World (beyond (store_after tk upd path content w))
                (rules (store_after tk upd path content w)) out) path
  = Some (text_after tk upd content).
Proof.
  intros Hc. unfold store_after, text_after. destruct upd; [|done].
  destruct (update_text content (tokens_of tk content)) as [| |new_content];
    [done..|].
  by apply (written_at _ _ _ new_content Hc).
Qed.

Lemma for_rule_files_path tk upd w path content t a :
  content_at w path = Some content ->
  for_rule_files tk upd [path] t a w =
    (inr (t + tokens_of tk content,
          if always_applied tk upd content then a + tokens_of tk content else a),
     World (beyond (store_after tk upd path content w))
       (rules (store_after tk upd path content w))
       (stdout w ++ map (show_name (fun _ => shown_name w path))
                      (file_messages tk upd path content))).
Proof.
  intros Hc. simpl for_rule_files.
  rewrite bind_eq, (process_rule_file_path _ _ _ _ _ Hc).
  rewrite bind_eq, (read_text_at _ _ (text_after tk upd content))
    by apply (content_at_after _ _ _ _ _ _ Hc).
  done.
Qed.

Lemma store_after_stdout tk upd path content w out :
  content_at w path = Some content ->
  beyond (store_after tk upd path content (World (beyond w) (rules w) out))
  = beyond (store_after tk upd path content w) /\
  rules (store_after tk upd path content (World (beyond w) (rules w) out))
  = rules (store_after tk upd path content w).
Proof.
  intros Hc. unfold store_after. destruct upd; [|done].
  destruct (update_text content (tokens_of tk content)); [done..|].
  by rewrite (write_text_at _ _ _ _ _ Hc).
Qed.

Lemma report_lines_one tk a path content name :
  map (show_name name) (report_lines tk a [(path, content)]) =
    [TableHeader; TableRule]
    ++ map (show_name name) (file_messages tk (update a) path content)
    ++ [TableRule; TotalTokens (tokens_of tk content)]
    ++ (if tokens_of tk content =? 0 then []
        else AlwaysAppliedTokens
               (if always_applied tk (update a) content
                then tokens_of tk content else 0)
               (tokens_of tk content)
             :: if update a then [UpdatedRuleFiles 1] else []).
Proof.
  unfold report_lines, messages_of, total_of, always_applied_of.
  cbn [flat_map map List.filter sum_list length fst snd].
  rewrite app_nil_r, Nat.add_0_r, !map_app.
  cbn [map show_name]. do 3 f_equal. unfold id.
  destruct (tokens_of tk content =? 0); [done|].
  destruct (always_applied tk (update a) content), (update a);
    cbn [map show_name sum_list snd]; by rewrite ?Nat.add_0_r.
Qed.

(** The table for one file reached by a path, and the run on a path that
    does not lead to a regular file. *)
Lemma report_path tk a w path :
  report tk a [path] w =
    match content_at w path with
    | Some content =>
        (report_result tk [(path, content)],
         World (beyond (store_after tk (update a) path content w))
           (rules (store_after tk (update a) path content w))
           (stdout w ++ map (show_name (fun _ => shown_name w path))
                          (report_lines tk a [(path, content)])))
    | None =>
        (inl match resolve w path with
             | ADirectory => IsADirectoryError
             | _ => FileNotFoundError
             end,
         World (beyond w) (rules w) (stdout w ++ [TableHeader; TableRule]))
    end.
Proof.
  unfold report. rewrite bind_eq. unfold print at 1. cbv iota.
  rewrite bind_eq. unfold print at 1. cbv iota. cbn [beyond rules stdout].
  rewrite bind_eq.
  destruct (content_at w path) as [content|] eqn:Hc.
  - rewrite (for_rule_files_path _ _ _ _ content)
      by (by rewrite content_at_stdout).
    cbv iota. cbn [stdout].
    destruct (store_after_stdout tk (update a) path content w
                ((stdout w ++ [TableHeader]) ++ [TableRule]) Hc) as [-> ->].
    change (shown_name {| beyond := beyond w; rules := rules w;
                          stdout := (stdout w ++ [TableHeader]) ++ [TableRule] |}
              path)
      with (shown_name w path).
    rewrite report_lines_one.
    set (s := store_after tk (update a) path content w).
    set (lines := map (show_name (fun _ => shown_name w path))
                    (file_messages tk (update a) path content)).
    unfold report_result, total_of. cbn [map sum_list snd].
    rewrite !Nat.add_0_r. cbn [Nat.add]. unfold id.
    rewrite bind_eq. unfold print at 1. cbv iota.
    rewrite bind_eq. unfold print at 1. cbv iota. rewrite bind_eq.
    cbn [beyond rules stdout].
    destruct (tokens_of tk content =? 0) eqn:Htotal.
    + unfold raise. f_equal. f_equal. rewrite <- !app_assoc. simpl.
      by rewrite ?app_nil_r.
    + unfold print at 1. cbv iota. cbn [beyond rules stdout].
      destruct (always_applied tk (update a) content), (update a);
        unfold print, ret; cbn [beyond rules stdout]; f_equal; f_equal;
        rewrite <- !app_assoc; simpl; by rewrite ?app_nil_r.
  - simpl for_rule_files. rewrite bind_eq. unfold process_rule_file.
    rewrite bind_eq, bind_eq. unfold read_text. rewrite resolve_stdout.
    unfold content_at in Hc.
    destruct (resolve w path); try done; by rewrite <- app_assoc.
Qed.

Lemma main_glob fs tk a d out :
  named_rule a = None ->
  main tk a (World fs (Some d) out) =
    match glob_result d with
    | [] => (inl (SystemExit 1),
             World fs (Some d) (out ++ [NoMdcFilesFound (rules_dir a)]))
    | files => report tk a files (World fs (Some d) out)
    end.
Proof.
  unfold main, named_rule. intros Hn.
  rewrite bind_eq. unfold rules_dir_exists. simpl rules.
  rewrite bool_decide_eq_true_2 by done. cbn [negb].
  destruct (rule a) as [[|c r]|]; [|done|];
    rewrite bind_eq, glob_mdc_run; by destruct (glob_result d).
Qed.

Lemma main_named fs tk a d out path :
  named_rule a = Some path ->
  main tk a (World fs (Some d) out) =
    match resolve (World fs (Some d) out) path with
    | Nowhere =>
        (inl (SystemExit 1),
         World fs (Some d) (out ++ [ErrorRuleFileNotFound (rules_dir a) path]))
    | _ => report tk a [path] (World fs (Some d) out)
    end.
Proof.
  unfold main, named_rule. intros Hn.
  rewrite bind_eq. unfold rules_dir_exists. simpl rules.
  rewrite bool_decide_eq_true_2 by done. cbn [negb].
  destruct (rule a) as [[|c r]|]; [done| |done]. injection Hn as <-.
  rewrite !bind_eq. unfold rule_file_exists.
  by destruct (resolve _ (String c r)).
Qed.

Lemma main_discover fs tk a d out files :
  discover a d = inr files ->
  main tk a (World fs (Some d) out) = report tk a files (World fs (Some d) out).
Proof.
  unfold discover. destruct (named_rule a) as [name|] eqn:Hn.
  - case_bool_decide as Hname; [|done]. intros [= <-].
    rewrite (main_named _ _ _ _ _ _ Hn). destruct Hname as [content Hc].
    by rewrite (resolve_entry _ _ _ _ _ Hc).
  - rewrite (main_glob _ _ _ _ _ Hn).
    destruct (glob_result d); [done|]. by intros [= <-].
Qed.

Lemma main_run fs tk a d out files :
  discover a d = inr files ->
  exists d',
    main tk a (World fs (Some d) out)
    = (report_result tk (snapshot d files),
       World fs (Some d') (out ++ report_lines tk a (snapshot d files))).
Proof.
  intros Hdisc. rewrite (main_discover _ _ _ _ _ _ Hdisc).
  destruct (discover_files _ _ _ Hdisc) as (Hne & Hnd & Hex).
  by apply report_run.
Qed.

Lemma script_unavailable a w :
  script None a w
  = (inl (SystemExit 1), World (beyond w) (rules w) (stdout w ++ [ErrorTiktokenNotInstalled])).
Proof. done. Qed.

Lemma main_no_rules_dir fs tk a out :
  main tk a (World fs None out)
  = (inl (SystemExit 1), World fs None (out ++ [ErrorRulesDirNotFound (rules_dir a)])).
Proof. done. Qed.

Lemma glob_result_nil d :
  glob_result d = [] <-> forall f, f ∈ dom d -> endswith ".mdc" f = false.
Proof.
  split.
  - intros Hnil f Hf. destruct (endswith ".mdc" f) eqn:He; [|done].
    assert (f ∈ glob_result d) as Hin by (by apply glob_result_spec).
    rewrite Hnil in Hin. by apply elem_of_nil in Hin.
  - intros Hall. destruct (glob_result d) as [|f more] eqn:Hglob; [done|].
    assert (f ∈ glob_result d) as Hin by (rewrite Hglob; by left).
    apply glob_result_spec in Hin as [Hf He]. rewrite (Hall f Hf) in He. done.
Qed.

Lemma discover_inl a d msg :
  discover a d = inl msg ->
  is_startup_error msg = true /\
  ((exists name, named_rule a = Some name /\ d !! name = None) \/
   (named_rule a = None /\ forall f, f ∈ dom d -> endswith ".mdc" f = false)).
Proof.
  unfold discover. destruct (named_rule a) as [name|].
  - case_bool_decide as Hname; [done|]. intros [= <-]. split; [done|left].
    exists name. split; [done|]. by apply eq_None_not_Some.
  - destruct (glob_result d) eqn:Hglob; [|done]. intros [= <-]. split; [done|right].
    split; [done|]. by apply glob_result_nil.
Qed.

Lemma discover_inr a d files :
  discover a d = inr files ->
  ~ ((exists name, named_rule a = Some name /\ d !! name = None) \/
     (named_rule a = None /\ forall f, f ∈ dom d -> endswith ".mdc" f = false)).
Proof.
  unfold discover. intros Hd [(name & Hn & Hnone)|[Hn Hall]]; rewrite Hn in Hd.
  - rewrite bool_decide_eq_false_2 in Hd; [done|]. rewrite Hnone. by intros [? ?].
  - apply glob_result_nil in Hall. by rewrite Hall in Hd.
Qed.







(** A run over a file the updater refuses finishes with exit status 0. *)
Example run_with_refused_update :
  let d : gmap string str := {[ "plain.mdc" := text ["# Title"; "body"] ]} in
  script (Some chars) (Args true None ".cursor/rules")
    (World example_paths (Some d) [])
  = (inr tt,
     World example_paths (Some d)
       [TableHeader; TableRule; FileLine "plain.mdc" 12;
        WarningNoFrontmatter "plain.mdc"; CouldNotUpdateRuleTokenCount;
        TableRule; TotalTokens 12; AlwaysAppliedTokens 0 12; UpdatedRuleFiles 1]).
Proof. vm_compute. reflexivity. Qed.


(** C10 (counterexample).  A file whose body is empty gives a total of
    zero: the run fails on the division, but only after it has printed the
    rule and the [Total tokens] line of the final summary. *)
Lemma C10_counterexample :
  let d : gmap string str :=
    {[ "empty.mdc" := text ["---"; "alwaysApply: true"; "---"; ""] ]} in
  script (Some chars) (Args false None ".cursor/rules") (World example_paths (Some d) [])
  = (inl ZeroDivisionError,
     World example_paths (Some d)
       [TableHeader; TableRule; FileLine "empty.mdc" 0; TableRule; TotalTokens 0]).
Proof. vm_compute. reflexivity. Qed.

(** C10 (amended).  Once the rule files are found, a grand total of zero
    makes the percentage a division by zero: the run raises
    [ZeroDivisionError] after the table, the rule and the [Total tokens] line
    have been printed, and prints neither the always-applied line nor the
    update count.  With a positive total the run finishes and prints the
    whole summary. *)
Theorem C10_zero_total fs tk a d out files :
  discover a d = inr files ->
  (total_of tk (snapshot d files) = 0 ->
   exists d',
     main tk a (World fs (Some d) out) =
       (inl ZeroDivisionError,
        World fs (Some d')
          (out ++ [TableHeader; TableRule]
           ++ messages_of tk (update a) (snapshot d files)
           ++ [TableRule; TotalTokens 0]))) /\
  (0 < total_of tk (snapshot d files) ->
   exists d',
     main tk a (World fs (Some d) out) =
       (inr tt,
        World fs (Some d')
          (out ++ [TableHeader; TableRule]
           ++ messages_of tk (update a) (snapshot d files)
           ++ [TableRule; TotalTokens (total_of tk (snapshot d files));
               AlwaysAppliedTokens
                 (always_applied_of tk (update a) (snapshot d files))
                 (total_of tk (snapshot d files))]
           ++ if update a then [UpdatedRuleFiles (length files)] else []))).
Proof.
  intros Hdisc. destruct (main_run fs tk a d out files Hdisc) as [d' Hrun].
  rewrite Hrun.
  unfold report_result, report_lines.
  assert (length (snapshot d files) = length files) as -> by apply length_map.
  split; intros Htotal; exists d'.
  - rewrite Htotal. simpl Nat.eqb. cbv iota. by rewrite app_nil_r.
  - by destruct (Nat.eqb_spec (total_of tk (snapshot d files)) 0) as [|_]; [lia|].
Qed.

Lemma C10_witness :
  let d : gmap string str :=
    {[ "empty.mdc" := text ["---"; "alwaysApply: true"; "---"; ""] ]} in
  total_of chars (snapshot d ["empty.mdc"]) = 0 /\
  exists d',
    main chars (Args false None ".cursor/rules") (World example_paths (Some d) []) =
      (inl ZeroDivisionError,
       World example_paths (Some d')
         ([] ++ [TableHeader; TableRule]
          ++ messages_of chars false (snapshot d ["empty.mdc"])
          ++ [TableRule; TotalTokens 0])).
Proof.
  intros d. split; [reflexivity|].
  apply (C10_zero_total example_paths chars (Args false None ".cursor/rules") d [] ["empty.mdc"]);
    reflexivity.
Defined.

(** ** The always-applied subtotal *)

(** C3 (the code departs from the specification).  The frontmatter says
    [alwaysApply: false] and the body quotes a line [alwaysApply: true]: the
    frontmatter does not declare the rule always applied, and yet the run
    counts all 46 tokens of the file in the always-applied subtotal. *)
Theorem C3_body_line_counted :
  let doc := text ["---"; "alwaysApply: false"; "---"; "Set";
                   "alwaysApply: true"; "to load the rule always."] in
  let d : gmap string str := {[ "doc.mdc" := doc ]} in
  declares_always_apply doc = false /\
  script (Some chars) (Args false None ".cursor/rules") (World example_paths (Some d) [])
  = (inr tt,
     World example_paths (Some d)
       [TableHeader; TableRule; FileLine "doc.mdc" 46; TableRule;
        TotalTokens 46; AlwaysAppliedTokens 46 46]).
Proof. vm_compute. split; reflexivity. Qed.

Lemma always_applied_not_file_message tk upd snap x y :
  AlwaysAppliedTokens x y ∉ messages_of tk upd snap.
Proof.
  unfold messages_of. rewrite list_elem_of_In, in_flat_map.
  intros ([f c] & _ & Hin%list_elem_of_In). unfold file_messages in Hin. simpl in Hin.
  apply elem_of_cons in Hin as [|Hin]; [done|].
  destruct upd; [|by apply elem_of_nil in Hin].
  destruct (update_text c (tokens_of tk c));
    repeat (apply elem_of_cons in Hin as [|Hin]; [done|]);
    by apply elem_of_nil in Hin.
Qed.

(** What the loop computes: the always-applied subtotal that a run over
    entries of the directory prints is the sum of the token counts of exactly
    those processed files whose whole text, frontmatter and body alike, as it
    stands once the file was processed, has a line-anchored, case-sensitive
    match of [alwaysApply:\s*true]; the total printed with it is the sum
    over all processed files. *)
Lemma always_applied_subtotal fs tk a d files r w' x y :
  discover a d = inr files ->
  main tk a (World fs (Some d) []) = (r, w') ->
  AlwaysAppliedTokens x y ∈ stdout w' ->
  x = sum_list
        (map (fun p => tokens_of tk p.2)
           (List.filter
              (fun p => Re.search Re.always_apply_true
                          (text_after tk (update a) p.2))
              (snapshot d files))) /\
  y = sum_list (map (fun p => tokens_of tk p.2) (snapshot d files)).
Proof.
  intros Hdisc Hmain Hin.
  destruct (main_run fs tk a d [] files Hdisc) as [d' Hrun].
  rewrite Hrun in Hmain. injection Hmain as _ <-.
  simpl in Hin. unfold report_lines in Hin.
  rewrite !elem_of_app in Hin.
  destruct Hin as [Hin|[Hin|[Hin|Hin]]].
  - repeat (apply elem_of_cons in Hin as [|Hin]; [done|]).
    by apply elem_of_nil in Hin.
  - by apply always_applied_not_file_message in Hin.
  - repeat (apply elem_of_cons in Hin as [|Hin]; [done|]).
    by apply elem_of_nil in Hin.
  - destruct (total_of tk (snapshot d files) =? 0); [by apply elem_of_nil in Hin|].
    apply elem_of_cons in Hin as [[= -> ->]|Hin]; [done|].
    destruct (update a);
      repeat (apply elem_of_cons in Hin as [|Hin]; [done|]);
      by apply elem_of_nil in Hin.
Qed.

Lemma always_applied_subtotal_example :
  let doc := text ["---"; "alwaysApply: false"; "---"; "Set";
                   "alwaysApply: true"; "to load the rule always."] in
  let d : gmap string str := {[ "doc.mdc" := doc ]} in
  46 = sum_list
         (map (fun p => tokens_of chars p.2)
            (List.filter
               (fun p => Re.search Re.always_apply_true
                           (text_after chars false p.2))
               (snapshot d ["doc.mdc"]))) /\
  46 = sum_list (map (fun p => tokens_of chars p.2) (snapshot d ["doc.mdc"])).
Proof.
  intros doc d.
  apply (always_applied_subtotal example_paths chars
           (Args false None ".cursor/rules") d ["doc.mdc"] (inr tt)
           (World example_paths (Some d)
              [TableHeader; TableRule; FileLine "doc.mdc" 46; TableRule;
               TotalTokens 46; AlwaysAppliedTokens 46 46])).
  - reflexivity.
  - vm_compute. reflexivity.
  - simpl. do 5 apply list_elem_of_further. apply list_elem_of_here.
Defined.

(** * Further properties *)

(** ** The extractor *)

Lemma lstrip_length s : length (lstrip s) <= length s.
Proof.
  destruct (lstrip_spec s) as (ws & Heq & _). rewrite Heq at 2.
  rewrite length_app. lia.
Qed.

(** X1.  The extractor only ever drops a prefix: its result is a suffix of
    the text.  It returns the text unchanged exactly when no [---] occurs at
    index 3 or later; this covers the empty text and a text that is nothing
    but an opening delimiter and frontmatter. *)
Theorem extract_suffix_and_fixed_points content :
  (exists dropped, content = dropped ++ extract_content_from_mdc content) /\
  (extract_content_from_mdc content = content <-> no_closing_delimiter content).
Proof.
  unfold extract_content_from_mdc.
  destruct (find content DELIM 3) as [e|] eqn:Hfind.
  - split.
    + destruct (lstrip_spec (slice_from content (e + 3))) as (ws & Heq & _).
      exists (take (e + 3) content ++ ws). rewrite <- app_assoc, <- Heq.
      unfold slice_from. by rewrite take_drop.
    + split.
      * intros Heq. apply (f_equal length) in Heq.
        pose proof (lstrip_length (slice_from content (e + 3))) as Hle.
        unfold slice_from in *. rewrite length_drop in Hle.
        apply find_closing in Hfind as (_ & Hocc & _).
        unfold occurs_at in Hocc. apply startswith_length in Hocc.
        rewrite length_drop in Hocc. simpl in Hocc. lia.
      * intros Hno%find_no_closing. congruence.
  - split; [by exists []|]. split; [|done].
    intros _. by apply find_no_closing.
Qed.

(** ** The updater *)

Lemma update_text_Rewritten content n new_content :
  update_text content n = Rewritten new_content ->
  exists e,
    startswith DELIM content = true /\ closing_delimiter_at content e /\
    new_content = rewritten (set_rule_token_count (strip (slice content 3 e)) n)
                    (slice_from content (e + 3)).
Proof.
  unfold update_text. destruct (startswith DELIM content) eqn:Hs; [|done].
  destruct (find content DELIM 3) as [e|] eqn:Hfind; [|done].
  simpl. intros [= <-]. exists e. split; [done|]. split; [|done].
  by apply find_closing.
Qed.

(** X2.  What the updater writes is a document with well-formed frontmatter:
    it starts with the opening delimiter, its closing delimiter is the one
    the updater wrote, and its body is the body of the text before.  So an
    update of the result, with any count, is never refused. *)
Theorem update_result_accepted content n new_content :
  update_text content n = Rewritten new_content ->
  startswith DELIM new_content = true /\
  (exists updated,
     new_content = DELIM ++ [NL] ++ updated ++ [NL] ++ DELIM
                   ++ slice_from new_content (5 + length updated + 3) /\
     closing_delimiter_at new_content (5 + length updated)) /\
  extract_content_from_mdc new_content = extract_content_from_mdc content /\
  forall m, exists again, update_text new_content m = Rewritten again.
Proof.
  intros (e & Hs & He & ->)%update_text_Rewritten.
  set (updated := set_rule_token_count (strip (slice content 3 e)) n).
  assert (free_of DELIM updated) as Hfree.
  { by apply free_of_set_rule_token_count, free_of_frontmatter. }
  pose proof (closing_delimiter_rewritten updated (slice_from content (e + 3)) Hfree)
    as Hc.
  split; [apply startswith_app|]. split; [|split].
  - exists updated. split; [|done]. unfold rewritten at 1. do 5 f_equal.
    unfold slice_from, rewritten.
    change (DELIM ++ [NL] ++ updated ++ [NL] ++ DELIM ++ drop (e + 3) content)
      with ((DELIM ++ [NL]) ++ (updated ++ [NL] ++ DELIM ++ drop (e + 3) content)).
    replace (5 + length updated + 3)
      with (length (DELIM ++ [NL]) + (length updated + 4)) by (simpl; lia).
    rewrite drop_app_add, !app_assoc.
    replace (length updated + 4) with (length ((updated ++ [NL]) ++ DELIM))
      by (rewrite !length_app; simpl; lia).
    by rewrite drop_app_length.
  - rewrite extract_rewritten by done. symmetry. by apply extract_well_formed.
  - intros m. eexists. apply update_text_rewritten; [apply startswith_app|exact Hc].
Qed.

Lemma update_result_accepted_witness :
  let doc := text ["---"; "description: x"; "---"; "# Body"] in
  let new_content := text ["---"; "description: x"; "ruleTokenCount: 12"; "---"; "# Body"] in
  startswith DELIM new_content = true /\
  (exists updated,
     new_content = DELIM ++ [NL] ++ updated ++ [NL] ++ DELIM
                   ++ slice_from new_content (5 + length updated + 3) /\
     closing_delimiter_at new_content (5 + length updated)) /\
  extract_content_from_mdc new_content = extract_content_from_mdc doc /\
  forall m, exists again, update_text new_content m = Rewritten again.
Proof.
  intros doc new_content.
  apply (update_result_accepted doc 12 new_content). reflexivity.
Defined.

Lemma rest_rewritten updated rest :
  slice_from (rewritten updated rest) (5 + length updated + 3) = rest.
Proof.
  unfold slice_from, rewritten.
  change (DELIM ++ [NL] ++ updated ++ [NL] ++ DELIM ++ rest)
    with ((DELIM ++ [NL]) ++ (updated ++ [NL] ++ DELIM ++ rest)).
  replace (5 + length updated + 3)
    with (length (DELIM ++ [NL]) + (length updated + 4)) by (simpl; lia).
  rewrite drop_app_add, !app_assoc.
  replace (length updated + 4) with (length ((updated ++ [NL]) ++ DELIM))
    by (rewrite !length_app; simpl; lia).
  by rewrite drop_app_length.
Qed.

(** The update of a text that the updater wrote. *)
Lemma update_text_of_rewritten updated rest m :
  free_of DELIM updated ->
  update_text (rewritten updated rest) m
  = Rewritten (rewritten (set_rule_token_count (strip updated) m) rest).
Proof.
  intros Hfree.
  pose proof (closing_delimiter_rewritten updated rest Hfree) as Hc.
  rewrite (update_text_rewritten (rewritten updated rest) m _
             (startswith_app DELIM _) Hc).
  pose proof (frontmatter_of_rewritten updated rest Hfree) as Hfm.
  rewrite (frontmatter_of_well_formed (rewritten updated rest) _
             (startswith_app DELIM _) Hc) in Hfm.
  assert (strip (slice (rewritten updated rest) 3 (5 + length updated))
          = strip updated) as -> by congruence.
  by rewrite rest_rewritten.
Qed.

Lemma strip_set_empty n :
  strip (set_rule_token_count [] n) = rule_token_count_line n.
Proof.
  change (set_rule_token_count [] n) with (NL :: rule_token_count_line n).
  rewrite <- (app_nil_r (rule_token_count_line n)) at 1.
  change (NL :: ?x ++ []) with ([NL] ++ x ++ []).
  rewrite strip_pad by (by repeat constructor).
  apply strip_fixed; [done|apply line_end].
Qed.

Section overwrite.
Variables n m : nat.

Let Fn := Re.sub_from Re.rule_token_count_field (rule_token_count_line n) 0.
Let Fm := Re.sub_from Re.rule_token_count_field (rule_token_count_line m) 0.
Let Gn := Re.sub_from Re.always_apply_key (inserted_lines n) 0.
Let Gm := Re.sub_from Re.always_apply_key (inserted_lines m) 0.

Lemma replace_line post :
  starts_nondigit post ->
  Fm true (rule_token_count_line n ++ post) = rule_token_count_line m ++ Fm false post.
Proof.
  intros Hpost. unfold Fm.
  rewrite (F_match m _ _ (rule_token_count_line_match n post Hpost)).
  by rewrite drop_app_length.
Qed.

(** Replacing the fields with [m] after replacing them with [n] is replacing
    them with [m]. *)
Lemma replace_after_replace len b s : length s <= len -> Fm b (Fn b s) = Fm b s.
Proof.
  revert b s. induction len as [|len IH]; intros b s Hlen.
  { destruct s; [done|simpl in Hlen; lia]. }
  destruct (F_cases n b s) as [[-> _]|[(k & -> & Hm & Hn)|(c & t & -> & Hb & Hn)]];
    [done| |]; fold Fn in Hn; rewrite Hn.
  - unfold Fm at 2. rewrite (F_match m _ _ Hm). fold Fm.
    pose proof (rule_token_count_field_len _ _ Hm) as Hk.
    apply rule_token_count_field_Some in Hm
      as (ws & ds & post & Hs & _ & _ & _ & Hpost & Hkeq).
    assert (drop k s = post) as ->.
    { rewrite Hs, Hkeq, !app_assoc, <- !length_app. by rewrite drop_app_length. }
    rewrite replace_line.
    + f_equal. apply IH. rewrite Hs, !length_app in Hlen.
      change (length Re.RULE_TOKEN_COUNT) with 15 in Hlen. lia.
    + by apply (sub_starts_nondigit _ _ (replace_shape n)).
  - unfold Fm at 1 2. rewrite (sub_from_copy _ _ b c t) by done.
    rewrite sub_from_copy.
    + f_equal. apply IH. simpl in Hlen. lia.
    + destruct Hb as [->|Hm]; [by left|right].
      by apply (rule_token_count_field_sub_copy _ _ (replace_shape n)).
Qed.

(** Replacing the fields with [m] after [n] was inserted before the
    [alwaysApply:] keys is inserting [m], when there was no field before. *)
Lemma replace_after_insert len b s :
  length s <= len ->
  Re.search_from Re.rule_token_count_field b s = false ->
  Fm b (Gn b s) = Gm b s.
Proof.
  revert b s. induction len as [|len IH]; intros b s Hlen Hno.
  { destruct s; [done|simpl in Hlen; lia]. }
  destruct (G_cases n b s) as [[-> _]|[(k & -> & Hm & Hn)|(c & t & -> & Hb & Hn)]];
    [done| |]; fold Gn in Hn; rewrite Hn.
  - unfold Gm. rewrite (sub_from_match _ (inserted_lines m) always_apply_key_len
               always_apply_key_end _ _ Hm).
    fold Gm.
    apply always_apply_key_Some in Hm as (post & -> & ->).
    rewrite drop_app_length. unfold inserted_lines. rewrite <- !app_assoc.
    rewrite replace_line by done. f_equal.
    change ([NL] ++ ?x) with (NL :: x). unfold Fm at 1.
    rewrite sub_from_newline. f_equal.
    change (Re.ALWAYS_APPLY ++ Gn false post)
      with ("a"%char :: (tail Re.ALWAYS_APPLY ++ Gn false post)).
    rewrite sub_from_copy_true; [|by repeat constructor|done].
    change ("a"%char :: tail Re.ALWAYS_APPLY ++ ?x) with (Re.ALWAYS_APPLY ++ x).
    f_equal. apply IH.
    + rewrite length_app in Hlen. change (length Re.ALWAYS_APPLY) with 12 in Hlen. lia.
    + by apply search_from_false_drop in Hno.
  - unfold Fm, Gm. rewrite (sub_from_copy _ _ b c t) by done.
    rewrite sub_from_copy.
    + f_equal. apply IH; [simpl in Hlen; lia|].
      by apply search_from_false_tail in Hno.
    + destruct b; [right|by left].
      apply (rule_token_count_field_sub_copy _ _ (insert_shape n)).
      by apply search_from_false_head.
Qed.

(** Replacing the fields with [m] after the line for [n] was appended gives
    the line for [m] appended, when there was no field before. *)
Lemma replace_after_append b s :
  Re.search_from Re.rule_token_count_field b s = false ->
  Fm b (s ++ NL :: rule_token_count_line n) = s ++ NL :: rule_token_count_line m.
Proof.
  revert b. induction s as [|c t IH]; intros b Hno.
  - simpl app. unfold Fm. rewrite sub_from_copy by (destruct b; [by right|by left]).
    f_equal. change (eqc NL NL) with true. fold Fm.
    rewrite <- (app_nil_r (rule_token_count_line n)).
    rewrite replace_line by done. by rewrite app_nil_r.
  - simpl app. unfold Fm. rewrite sub_from_copy.
    + f_equal. apply IH. by apply search_from_false_tail in Hno.
    + destruct b; [right|by left].
      change (c :: t ++ NL :: rule_token_count_line n)
        with ((c :: t) ++ NL :: rule_token_count_line n).
      apply rule_token_count_field_append; [|done..].
      by apply search_from_false_head.
Qed.

(** Setting the field to [m] in a block where it was set to [n] gives what
    setting it to [m] at once gives. *)
Lemma set_rule_token_count_overwrite frontmatter :
  set_rule_token_count (set_rule_token_count frontmatter n) m
  = set_rule_token_count frontmatter m.
Proof.
  assert (forall f1, has_line_from n true f1 ->
            set_rule_token_count f1 m = Fm true f1) as Hagain.
  { intros f1 Hline. unfold set_rule_token_count, Re.search.
    by rewrite (has_line_from_search _ _ _ Hline). }
  unfold set_rule_token_count at 2 3. unfold Re.sub.
  destruct (Re.search Re.rule_token_count_field frontmatter) eqn:Hrtc.
  - rewrite Hagain by (by apply F_has_line).
    apply (replace_after_replace (length frontmatter)). lia.
  - destruct (Re.search Re.always_apply_key frontmatter) eqn:Hkey.
    + rewrite Hagain by (by apply G_has_line).
      by apply (replace_after_insert (length frontmatter)).
    + rewrite Hagain by apply append_has_line.
      by apply replace_after_append.
Qed.

End overwrite.

Lemma free_of_strip s : free_of DELIM s -> free_of DELIM (strip s).
Proof.
  intros H. destruct (strip_spec s) as (a & b & Heq & _).
  rewrite Heq in H. apply free_of_app in H as [_ H].
  by apply free_of_app in H as [H _].
Qed.

Lemma set_rule_token_count_line n m :
  set_rule_token_count (rule_token_count_line n) m = rule_token_count_line m.
Proof.
  assert (has_line_from n true (rule_token_count_line n)) as Hline.
  { exists [], []. by rewrite app_nil_r. }
  unfold set_rule_token_count, Re.search.
  rewrite (has_line_from_search _ _ _ Hline). unfold Re.sub.
  rewrite <- (app_nil_r (rule_token_count_line n)).
  rewrite replace_line by done. by rewrite app_nil_r.
Qed.

(** X3.  The last update wins.  On a document with well-formed frontmatter
    an update with the count [n] followed by an update with the count [m]
    leaves the frontmatter and the body that an update with [m] alone
    leaves; unless the frontmatter block was empty, the two files are equal
    character for character.  With [m = n]: a second update with the same
    count does not change the file. *)
Theorem last_update_wins content e n m :
  startswith DELIM content = true -> closing_delimiter_at content e ->
  exists c1 c2 cm,
    update_text content n = Rewritten c1 /\
    update_text c1 m = Rewritten c2 /\
    update_text content m = Rewritten cm /\
    frontmatter_of c2 = frontmatter_of cm /\
    extract_content_from_mdc c2 = extract_content_from_mdc cm /\
    (strip (slice content 3 e) <> [] -> c2 = cm).
Proof.
  intros Hs He.
  set (frontmatter := strip (slice content 3 e)).
  set (rest := slice_from content (e + 3)).
  assert (free_of DELIM frontmatter) as Hfree by (by apply free_of_frontmatter).
  assert (forall k, free_of DELIM (set_rule_token_count frontmatter k)) as Hfree1.
  { intros k. by apply free_of_set_rule_token_count. }
  assert (free_of DELIM (set_rule_token_count
                           (strip (set_rule_token_count frontmatter n)) m)) as Hfree2.
  { apply free_of_set_rule_token_count, free_of_strip, Hfree1. }
  exists (rewritten (set_rule_token_count frontmatter n) rest),
    (rewritten (set_rule_token_count (strip (set_rule_token_count frontmatter n)) m)
       rest),
    (rewritten (set_rule_token_count frontmatter m) rest).
  split; [by apply update_text_rewritten|].
  split; [by apply update_text_of_rewritten|].
  split; [by apply update_text_rewritten|].
  split; [|split].
  - rewrite !frontmatter_of_rewritten by done. f_equal.
    destruct (decide (frontmatter = [])) as [Hnil|Hne].
    + rewrite Hnil, !strip_set_empty, set_rule_token_count_line.
      apply strip_fixed; [|apply line_end].
      by destruct (line_head m) as (c & r & -> & Hc & _).
    + destruct (strip_trimmed (slice content 3 e)) as [Hstart Hend].
      destruct (first_run frontmatter n Hstart Hend Hne) as (-> & _).
      by rewrite set_rule_token_count_overwrite.
  - by rewrite !extract_rewritten.
  - intros Hne. f_equal.
    destruct (strip_trimmed (slice content 3 e)) as [Hstart Hend].
    destruct (first_run frontmatter n Hstart Hend Hne) as (-> & _).
    apply set_rule_token_count_overwrite.
Qed.

Lemma last_update_wins_witness :
  let doc := text ["---"; "description: x"; "alwaysApply: true"; "---"; "# Body"] in
  exists c1 c2 cm,
    update_text doc 7 = Rewritten c1 /\
    update_text c1 12 = Rewritten c2 /\
    update_text doc 12 = Rewritten cm /\
    frontmatter_of c2 = frontmatter_of cm /\
    extract_content_from_mdc c2 = extract_content_from_mdc cm /\
    (strip (slice doc 3 37) <> [] -> c2 = cm).
Proof.
  intros doc. apply (last_update_wins doc 37 7 12); [reflexivity|].
  apply find_closing. vm_compute. reflexivity.
Defined.

(** X4.  A frontmatter block that is empty or holds only whitespace: the
    field is appended to the empty block after a line feed, so the file gets
    an empty line under the opening delimiter.  The next update reads the
    block back without that line feed and writes the file without the empty
    line: on such a file the second update changes the text again, whatever
    the count. *)
Theorem update_empty_frontmatter content e n m :
  startswith DELIM content = true -> closing_delimiter_at content e ->
  strip (slice content 3 e) = [] ->
  let rest := slice_from content (e + 3) in
  let c1 := DELIM ++ [NL; NL] ++ rule_token_count_line n ++ [NL] ++ DELIM ++ rest in
  update_text content n = Rewritten c1 /\
  update_text c1 m
  = Rewritten (DELIM ++ [NL] ++ rule_token_count_line m ++ [NL] ++ DELIM ++ rest).
Proof.
  intros Hs He Hnil rest c1.
  assert (c1 = rewritten (set_rule_token_count [] n) rest) as Hc1 by done.
  split.
  - rewrite Hc1, <- Hnil. by apply update_text_rewritten.
  - rewrite Hc1, update_text_of_rewritten.
    + by rewrite strip_set_empty, set_rule_token_count_line.
    + by apply free_of_set_rule_token_count, free_of_nil.
Qed.

Lemma update_empty_frontmatter_witness :
  let doc := text ["---"; "---"; "# Body"] in
  let rest := slice_from doc (4 + 3) in
  let c1 := DELIM ++ [NL; NL] ++ rule_token_count_line 7 ++ [NL] ++ DELIM ++ rest in
  update_text doc 7 = Rewritten c1 /\
  update_text c1 7
  = Rewritten (DELIM ++ [NL] ++ rule_token_count_line 7 ++ [NL] ++ DELIM ++ rest).
Proof.
  intros doc. apply (update_empty_frontmatter doc 4 7 7); [reflexivity| |reflexivity].
  apply find_closing. vm_compute. reflexivity.
Defined.

(** ** One file *)

(** X5.  A file without a closing delimiter (no [---] at index 3 or later):
    the count printed for it is the count of the whole text, an opening
    delimiter and frontmatter lines included.  With [--update] the file is
    left as it is, with one warning (no frontmatter, or malformed
    frontmatter when the text starts with [---]) and the message that the
    count could not be updated. *)
Theorem process_without_closing_delimiter fs tk d out file content upd :
  d !! file = Some content -> no_closing_delimiter content ->
  process_rule_file tk file upd (World fs (Some d) out) =
    (inr (count_tokens tk content),
     World fs (Some d)
       (out ++ FileLine file (count_tokens tk content)
            :: if upd then
                 [if startswith DELIM content
                  then WarningMalformedFrontmatter file
                  else WarningNoFrontmatter file;
                  CouldNotUpdateRuleTokenCount]
               else [])).
Proof.
  intros Hfile Hno.
  rewrite (process_rule_file_run _ _ _ _ _ _ _ Hfile). cbv zeta.
  rewrite (extract_no_closing _ Hno). f_equal.
  destruct upd; [|done].
  unfold update_text. apply find_no_closing in Hno. rewrite Hno.
  destruct (startswith DELIM content); simpl; by rewrite <- !app_assoc.
Qed.

Lemma process_without_closing_delimiter_witness :
  let doc := text ["---"; "description: x"; "# Body"] in
  let d : gmap string str := {[ "a.mdc" := doc ]} in
  process_rule_file chars "a.mdc" true (World example_paths (Some d) []) =
    (inr (count_tokens chars doc),
     World example_paths (Some d)
       ([] ++ [FileLine "a.mdc" (count_tokens chars doc);
               WarningMalformedFrontmatter "a.mdc";
               CouldNotUpdateRuleTokenCount])).
Proof.
  intros doc d.
  apply (process_without_closing_delimiter example_paths chars d [] "a.mdc" doc true);
    [reflexivity|].
  apply find_no_closing. vm_compute. reflexivity.
Defined.

(** ** The rules directory after a run *)

Lemma disk_after_lookup tk upd d files g :
  disk_after tk upd d files !! g =
    if decide (g ∈ files) then Some (text_after tk upd (content_in d g))
    else d !! g.
Proof.
  induction files as [|f more IH].
  - destruct (decide (g ∈ [])) as [Hin|]; [|done]. by apply elem_of_nil in Hin.
  - change (disk_after tk upd d (f :: more))
      with (<[f := text_after tk upd (content_in d f)]> (disk_after tk upd d more)).
    destruct (decide (g = f)) as [->|Hne].
    + rewrite lookup_insert_eq.
      destruct (decide (f ∈ f :: more)) as [|Hnot]; [done|].
      destruct Hnot. by left.
    + rewrite lookup_insert_ne by done. rewrite IH.
      destruct (decide (g ∈ more)) as [Hin|Hnot];
        destruct (decide (g ∈ f :: more)) as [Hin'|Hnot']; [done| |by apply elem_of_cons in Hin' as [|]|done].
      destruct Hnot'. by right.
Qed.

Lemma disk_after_insert tk upd d f x more :
  f ∉ more ->
  disk_after tk upd (<[f := x]> d) more = <[f := x]> (disk_after tk upd d more).
Proof.
  induction more as [|g more IH]; intros Hnot; [done|].
  apply not_elem_of_cons in Hnot as [Hne Hnot]. simpl.
  rewrite IH by done. unfold content_in at 1.
  rewrite lookup_insert_ne by done. fold (content_in d g).
  by apply insert_insert_ne.
Qed.

Lemma disk_after_read_only tk d files :
  (forall f, f ∈ files -> is_Some (d !! f)) -> disk_after tk false d files = d.
Proof.
  intros Hex. apply map_eq. intros g. rewrite disk_after_lookup.
  destruct (decide (g ∈ files)) as [Hin|]; [|done].
  destruct (Hex g Hin) as [c Hc]. unfold content_in. by rewrite Hc.
Qed.

Lemma for_rule_files_disk fs tk upd files :
  forall d out t a,
    NoDup files -> (forall f, f ∈ files -> is_Some (d !! f)) ->
    for_rule_files tk upd files t a (World fs (Some d) out) =
      (inr (t + total_of tk (snapshot d files),
            a + always_applied_of tk upd (snapshot d files)),
       World fs (Some (disk_after tk upd d files))
         (out ++ messages_of tk upd (snapshot d files))).
Proof.
  induction files as [|f more IH]; intros d out t a Hnd Hex.
  - unfold total_of, always_applied_of, messages_of. simpl.
    by rewrite !Nat.add_0_r, app_nil_r.
  - apply NoDup_cons in Hnd as [Hf Hnd].
    destruct (Hex f ltac:(by left)) as [content Hfile].
    set (d1 := <[f := text_after tk upd content]> d).
    pose proof (IH d1 (out ++ file_messages tk upd f content)
                  (t + tokens_of tk content)
                  (if always_applied tk upd content
                   then a + tokens_of tk content else a) Hnd) as Hrun.
    simpl for_rule_files. unfold bind at 1.
    rewrite (process_rule_file_step _ _ _ _ _ _ _ Hfile). fold d1.
    unfold bind at 1.
    rewrite (read_text_Some _ d1 _ f (text_after tk upd content))
      by apply lookup_insert_eq.
    fold (always_applied tk upd content). rewrite Hrun.
    + unfold d1. rewrite snapshot_insert by done.
      rewrite disk_after_insert by done.
      assert (content_in d f = content) as Hc.
      { unfold content_in. by rewrite Hfile. }
      change (snapshot d (f :: more)) with ((f, content_in d f) :: snapshot d more).
      change (disk_after tk upd d (f :: more))
        with (<[f := text_after tk upd (content_in d f)]> (disk_after tk upd d more)).
      rewrite Hc. unfold total_of, always_applied_of, messages_of. simpl.
      rewrite <- app_assoc.
      destruct (always_applied tk upd content); simpl; by rewrite !Nat.add_assoc.
    + intros g Hg. unfold d1. rewrite lookup_insert_ne.
      * apply Hex. by right.
      * by intros ->.
Qed.

Lemma report_disk fs tk a d out files :
  NoDup files -> (forall f, f ∈ files -> is_Some (d !! f)) ->
  report tk a files (World fs (Some d) out) =
    (report_result tk (snapshot d files),
     World fs (Some (disk_after tk (update a) d files))
       (out ++ report_lines tk a (snapshot d files))).
Proof.
  intros Hnd Hex.
  pose proof (for_rule_files_disk fs tk (update a) files d
                ((out ++ [TableHeader]) ++ [TableRule]) 0 0 Hnd Hex) as Hrun.
  unfold report, report_result, report_lines.
  unfold bind at 1, print at 1. unfold bind at 1, print at 1.
  simpl beyond. simpl rules. simpl stdout. unfold bind at 1. rewrite Hrun. simpl.
  unfold bind at 1, print at 1. unfold bind at 1, print at 1.
  simpl beyond. simpl rules. simpl stdout. unfold bind at 1.
  assert (length (snapshot d files) = length files) as ->
    by apply length_map.
  destruct (total_of tk (snapshot d files) =? 0) eqn:Htotal.
  - unfold raise. f_equal. f_equal. by rewrite <- !app_assoc.
  - unfold print at 1. simpl beyond. simpl rules. simpl stdout.
    destruct (update a); unfold print, ret; simpl; f_equal; f_equal;
      by rewrite <- !app_assoc.
Qed.

Lemma resolve_world fs d out path :
  resolve (World fs (Some d) out) path =
    match d !! path with
    | Some content => AnEntry path content
    | None =>
        match fs path with
        | Missing => Nowhere
        | Directory => ADirectory
        | Regular content => Elsewhere content
        | SameAs name =>
            match d !! name with
            | Some content => AnEntry name content
            | None => Nowhere
            end
        end
    end.
Proof. done. Qed.

(** A run of [main] in a rules directory that exists, in closed form. *)
Lemma main_target fs tk a d out :
  main tk a (World fs (Some d) out) =
    match target_of a fs d with
    | NoFile msg => (inl (SystemExit 1), World fs (Some d) (out ++ [msg]))
    | EntryFiles files =>
        (report_result tk (snapshot d files),
         World fs (Some (disk_after tk (update a) d files))
           (out ++ report_lines tk a (snapshot d files)))
    | OtherFile path content =>
        (report_result tk [(path, content)],
         World
           (beyond (store_after tk (update a) path content (World fs (Some d) out)))
           (rules (store_after tk (update a) path content (World fs (Some d) out)))
           (out ++ map (show_name (fun _ => path_name path))
                     (report_lines tk a [(path, content)])))
    | NotAFile =>
        (inl IsADirectoryError, World fs (Some d) (out ++ [TableHeader; TableRule]))
    end.
Proof.
  unfold target_of. destruct (named_rule a) as [path|] eqn:Hn.
  - rewrite (main_named _ _ _ _ _ _ Hn), resolve_world.
    destruct (d !! path) as [content|] eqn:Hpath.
    + apply report_disk; [apply NoDup_singleton|].
      intros f ->%list_elem_of_singleton. by rewrite Hpath.
    + assert (shown_name (World fs (Some d) out) path = path_name path) as Hname.
      { unfold shown_name, entry. simpl. by rewrite Hpath. }
      destruct (fs path) as [| |content|name] eqn:Hfs; [done| | |].
      * rewrite report_path. unfold content_at.
        by rewrite resolve_world, Hpath, Hfs.
      * rewrite report_path. unfold content_at.
        by rewrite resolve_world, Hpath, Hfs, Hname.
      * destruct (d !! name) as [content|] eqn:Hname'; [|done].
        rewrite report_path. unfold content_at.
        by rewrite resolve_world, Hpath, Hfs, Hname', Hname.
  - rewrite (main_glob _ _ _ _ _ Hn).
    destruct (glob_result d) as [|f more] eqn:Hfiles; [done|].
    rewrite <- Hfiles. apply report_disk; [apply glob_result_NoDup|].
    intros g [Hg _]%glob_result_spec. by apply elem_of_dom.
Qed.

Lemma target_of_discover a fs d files :
  discover a d = inr files -> target_of a fs d = EntryFiles files.
Proof.
  unfold discover, target_of. destruct (named_rule a) as [path|].
  - case_bool_decide as Hpath; [|done]. intros [= <-].
    by destruct Hpath as [content ->].
  - destruct (glob_result d); [done|]. by intros [= <-].
Qed.

(** The files of a run over entries are entries, each once. *)
Lemma target_of_entries a fs d files :
  target_of a fs d = EntryFiles files ->
  files = processed a fs d /\ files <> [] /\ NoDup files /\
  forall f, f ∈ files -> is_Some (d !! f).
Proof.
  unfold target_of, processed. destruct (named_rule a) as [path|].
  - destruct (d !! path) as [content|] eqn:Hpath.
    + intros [= <-]. split; [done|]. split; [done|].
      split; [apply NoDup_singleton|].
      intros f ->%list_elem_of_singleton. by rewrite Hpath.
    + destruct (fs path) as [| | |name]; try done. by destruct (d !! name).
  - destruct (glob_result d) as [|f more] eqn:Hglob; [done|]. intros [= <-].
    split; [done|]. split; [done|].
    split; [rewrite <- Hglob; apply glob_result_NoDup|].
    intros g Hg. rewrite <- Hglob in Hg.
    apply glob_result_spec in Hg as [Hg _]. by apply elem_of_dom.
Qed.

(** The file of a run on a path that is no entry name, and what a write to
    it changes. *)
Lemma target_of_other a fs d out path content :
  target_of a fs d = OtherFile path content ->
  named_rule a = Some path /\ d !! path = None /\
  ((exists name,
      fs path = SameAs name /\ d !! name = Some content /\
      processed a fs d = [name] /\
      forall new_content,
        (write_text path new_content (World fs (Some d) out)).2
        = World fs (Some (<[name := new_content]> d)) out) \/
   (fs path = Regular content /\ processed a fs d = [] /\
    forall new_content,
      (write_text path new_content (World fs (Some d) out)).2
      = World (<[path := Regular new_content]> fs) (Some d) out)).
Proof.
  unfold target_of, processed, write_text.
  destruct (named_rule a) as [p|]; [|by destruct (glob_result d)].
  destruct (d !! p) as [c|] eqn:Hp; [done|].
  destruct (fs p) as [| |c|name] eqn:Hfs; [done|done| |].
  - intros [= <- <-]. do 2 (split; [done|]). right.
    do 2 (split; [done|]). intros new_content.
    by rewrite resolve_world, Hp, Hfs.
  - destruct (d !! name) as [c|] eqn:Hname; [|done].
    intros [= <- <-]. do 2 (split; [done|]). left. exists name.
    do 3 (split; [done|]). intros new_content.
    by rewrite resolve_world, Hp, Hfs, Hname.
Qed.

Lemma target_of_none a fs d :
  match target_of a fs d with
  | NoFile _ | NotAFile => processed a fs d = []
  | _ => True
  end.
Proof.
  unfold target_of, processed. destruct (named_rule a) as [path|].
  - destruct (d !! path); [done|].
    destruct (fs path) as [| | |name]; try done. by destruct (d !! name).
  - by destruct (glob_result d).
Qed.

(** The rules directory after a run on a path that is no entry name. *)
Lemma store_after_rules tk a fs d out path content :
  target_of a fs d = OtherFile path content ->
  exists d',
    rules (store_after tk (update a) path content (World fs (Some d) out)) = Some d' /\
    dom d' = dom d /\
    forall f c,
      d !! f = Some c ->
      d' !! f = Some (if decide (f ∈ processed a fs d)
                      then text_after tk (update a) c else c).
Proof.
  intros Ht.
  apply (target_of_other _ _ _ out) in Ht
    as (_ & _ & [(name & _ & Hname & -> & Hw)|(_ & -> & Hw)]).
  - exists (<[name := text_after tk (update a) content]> d).
    split; [|split].
    + unfold store_after, text_after. destruct (update a).
      * destruct (update_text content (tokens_of tk content));
          rewrite ?Hw; simpl; by rewrite ?(insert_id _ _ _ Hname).
      * simpl. by rewrite (insert_id _ _ _ Hname).
    + apply dom_insert_lookup_L. by rewrite Hname.
    + intros f c Hf. destruct (decide (f ∈ [name])) as [Hin|Hnot].
      * apply list_elem_of_singleton in Hin as ->.
        rewrite lookup_insert_eq. congruence.
      * rewrite lookup_insert_ne; [done|]. intros ->. apply Hnot.
        by apply list_elem_of_singleton.
  - exists d. split; [|split; [done|]].
    + unfold store_after. destruct (update a); [|done].
      destruct (update_text content (tokens_of tk content)); by rewrite ?Hw.
    + intros f c Hf. destruct (decide (f ∈ [])) as [Hin|]; [|done].
      by apply elem_of_nil in Hin.
Qed.

(** X6.  Without [--update] a run only reads: whatever the tokenizer, the
    arguments and the outcome (a startup error, a division by zero or a
    finished table), the rules directory is afterwards what it was, every
    file with its text. *)
Theorem run_without_update_reads_only tk a w r w' :
  update a = false -> script tk a w = (r, w') -> rules w' = rules w.
Proof.
  intros Hupd. destruct tk as [tk|].
  2:{ rewrite script_unavailable. by intros [= _ <-]. }
  destruct w as [fs [d|] out]; simpl script.
  2:{ rewrite main_no_rules_dir. by intros [= _ <-]. }
  rewrite main_target.
  destruct (target_of a fs d) as [msg|files|path content|] eqn:Ht;
    intros [= _ <-]; [done| | |done].
  - simpl. f_equal. rewrite Hupd. apply disk_after_read_only.
    by apply target_of_entries in Ht as (_ & _ & _ & Hex).
  - by rewrite Hupd.
Qed.

Lemma run_without_update_reads_only_witness :
  let doc := text ["---"; "alwaysApply: true"; "---"; "hello world"] in
  let d : gmap string str := {[ "a.mdc" := doc ]} in
  let a := {| update := false; rule := None; rules_dir := ".cursor/rules" |} in
  rules (script (Some chars) a (World example_paths (Some d) [])).2 = rules (World example_paths (Some d) []).
Proof.
  intros doc d a.
  apply (run_without_update_reads_only (Some chars) a (World example_paths (Some d) [])
           (script (Some chars) a (World example_paths (Some d) [])).1);
    [reflexivity|].
  vm_compute. reflexivity.
Defined.

Lemma disk_after_dom tk upd d files :
  (forall f, f ∈ files -> is_Some (d !! f)) ->
  dom (disk_after tk upd d files) = dom d.
Proof.
  intros Hex. apply set_eq. intros g. rewrite !elem_of_dom, disk_after_lookup.
  destruct (decide (g ∈ files)) as [Hin|]; [|done].
  split; [intros _; by apply Hex|done].
Qed.

(** X7.  The rules directory after a run of [main] that ends normally, by
    the exit of a startup error or in the division by zero after the loop:
    no entry is created or deleted; an entry that was not processed keeps
    its text; a processed entry (one of the glob, or the one that
    [rules_dir / rule] is or leads to, under whatever spelling) holds, with
    [--update], the text the updater wrote for the file's own count where
    the update was accepted, and its old text where it was refused or
    without [--update]. *)
Theorem run_directory_after fs tk a d out r w' :
  main tk a (World fs (Some d) out) = (r, w') ->
  r = inr tt \/ r = inl (SystemExit 1) \/ r = inl ZeroDivisionError ->
  exists d',
    rules w' = Some d' /\ dom d' = dom d /\
    forall f content,
      d !! f = Some content ->
      d' !! f = Some (if decide (f ∈ processed a fs d)
                      then text_after tk (update a) content else content).
Proof.
  rewrite main_target. intros Hrun _. revert Hrun.
  pose proof (target_of_none a fs d) as Hnone.
  destruct (target_of a fs d) as [msg|files|path content|] eqn:Ht;
    intros [= _ <-].
  - exists d. rewrite Hnone. split; [done|]. split; [done|]. intros f content Hf.
    destruct (decide (f ∈ [])) as [Hin|]; [|done]. by apply elem_of_nil in Hin.
  - apply target_of_entries in Ht as (<- & _ & _ & Hex).
    exists (disk_after tk (update a) d files). split; [done|].
    split; [by apply disk_after_dom|]. intros f content Hf.
    rewrite disk_after_lookup. unfold content_in. rewrite Hf.
    by destruct (decide (f ∈ files)).
  - by apply store_after_rules.
  - exists d. rewrite Hnone. split; [done|]. split; [done|]. intros f content Hf.
    destruct (decide (f ∈ [])) as [Hin|]; [|done]. by apply elem_of_nil in Hin.
Qed.

Lemma run_directory_after_witness :
  let doc := text ["---"; "alwaysApply: true"; "---"; "hello world"] in
  let d : gmap string str := {[ "a.mdc" := doc; "notes.txt" := lit "n" ]} in
  let a := {| update := true; rule := Some "./a.mdc"; rules_dir := ".cursor/rules" |} in
  exists d',
    rules (main chars a (World example_paths (Some d) [])).2 = Some d' /\ dom d' = dom d /\
    forall f content,
      d !! f = Some content ->
      d' !! f = Some (if decide (f ∈ processed a example_paths d)
                      then text_after chars (update a) content else content).
Proof.
  intros doc d a.
  apply (run_directory_after example_paths chars a d []
           (main chars a (World example_paths (Some d) [])).1).
  - vm_compute. reflexivity.
  - left. vm_compute. reflexivity.
Defined.

(** ** The table *)

Lemma file_lines_app out1 out2 :
  file_lines (out1 ++ out2) = file_lines out1 ++ file_lines out2.
Proof. apply omap_app. Qed.

Lemma file_counts_app out1 out2 :
  file_counts (out1 ++ out2) = file_counts out1 ++ file_counts out2.
Proof. apply omap_app. Qed.

Lemma file_lines_messages_of tk upd snap :
  file_lines (messages_of tk upd snap) = map fst snap.
Proof.
  unfold messages_of, file_lines. induction snap as [|[f c] snap IH]; [done|].
  simpl flat_map.
  destruct upd; [destruct (update_text c (tokens_of tk c))|]; simpl;
    f_equal; exact IH.
Qed.

Lemma file_counts_messages_of tk upd snap :
  file_counts (messages_of tk upd snap) = map (fun p => tokens_of tk p.2) snap.
Proof.
  unfold messages_of, file_counts. induction snap as [|[f c] snap IH]; [done|].
  simpl flat_map.
  destruct upd; [destruct (update_text c (tokens_of tk c))|]; simpl;
    f_equal; exact IH.
Qed.

Lemma file_lines_report_lines tk a snap :
  file_lines (report_lines tk a snap) = map fst snap.
Proof.
  unfold report_lines. rewrite !file_lines_app, file_lines_messages_of.
  destruct (total_of tk snap =? 0), (update a); simpl; by rewrite app_nil_r.
Qed.

Lemma file_counts_report_lines tk a snap :
  file_counts (report_lines tk a snap) = map (fun p => tokens_of tk p.2) snap.
Proof.
  unfold report_lines. rewrite !file_counts_app, file_counts_messages_of.
  destruct (total_of tk snap =? 0), (update a); simpl; by rewrite app_nil_r.
Qed.

Lemma snapshot_names d files : map fst (snapshot d files) = files.
Proof.
  unfold snapshot. rewrite map_map. simpl. apply map_id.
Qed.

Lemma file_lines_startup msg : is_startup_error msg = true -> file_lines [msg] = [].
Proof. by destruct msg. Qed.

Lemma target_of_NoFile a fs d msg :
  target_of a fs d = NoFile msg -> is_startup_error msg = true.
Proof.
  unfold target_of. destruct (named_rule a) as [path|].
  - destruct (d !! path); [done|].
    destruct (fs path) as [| | |name]; try done; [by intros [= <-]|].
    destruct (d !! name); [done|]. by intros [= <-].
  - destruct (glob_result d); [|done]. by intros [= <-].
Qed.

(** Showing the files of the file lines by another name changes neither the
    other messages nor the counts. *)
Lemma show_name_id l : map (show_name (fun file => file)) l = l.
Proof.
  induction l as [|m l IH]; [done|]. simpl. rewrite IH. by destruct m.
Qed.

Lemma elem_of_show_name name l msg :
  (forall f n, msg <> FileLine f n) ->
  msg ∈ map (show_name name) l <-> msg ∈ l.
Proof.
  intros Hmsg. induction l as [|m l IH]; [done|]. simpl.
  rewrite !elem_of_cons, IH.
  assert (msg = show_name name m <-> msg = m) as ->; [|done].
  destruct m; simpl; try done. split; intros ->; by edestruct Hmsg.
Qed.

Lemma file_counts_show_name name l :
  file_counts (map (show_name name) l) = file_counts l.
Proof.
  unfold file_counts. induction l as [|m l IH]; [done|].
  destruct m; simpl; first [exact IH | f_equal; exact IH].
Qed.

Lemma file_lines_show_name name l :
  file_lines (map (show_name name) l) = map name (file_lines l).
Proof.
  unfold file_lines. induction l as [|m l IH]; [done|].
  destruct m; simpl; first [exact IH | f_equal; exact IH].
Qed.

Lemma update_outcomes_show_name name l :
  List.filter is_update_outcome (map (show_name name) l)
  = List.filter is_update_outcome l.
Proof.
  induction l as [|m l IH]; [done|]. destruct m; simpl; first [exact IH | f_equal; exact IH].
Qed.

Lemma counts_show_name name l :
  List.filter is_count (map (show_name name) l)
  = map (show_name name) (List.filter is_count l).
Proof.
  induction l as [|m l IH]; [done|]. destruct m; simpl; first [exact IH | f_equal; exact IH].
Qed.

(** What a run of [main] prints, in a rules directory that exists: the
    message of a startup error; the table header alone, when the path leads
    to a directory; or the table of the files with the text each held. *)
Lemma main_stdout fs tk a d r w' :
  main tk a (World fs (Some d) []) = (r, w') ->
  (exists msg, is_startup_error msg = true /\
               stdout w' = [msg] /\ r = inl (SystemExit 1)) \/
  (stdout w' = [TableHeader; TableRule] /\ r = inl IsADirectoryError) \/
  (exists name snap,
     stdout w' = map (show_name name) (report_lines tk a snap) /\
     r = report_result tk snap).
Proof.
  rewrite main_target.
  destruct (target_of a fs d) as [msg|files|path content|] eqn:Ht;
    intros [= <- <-].
  - left. exists msg. by apply target_of_NoFile in Ht.
  - right. right. exists (fun file => file), (snapshot d files).
    simpl stdout. by rewrite show_name_id.
  - right. right. by exists (fun _ => path_name path), [(path, content)].
  - right. by left.
Qed.

(** Without [--rule] the file lines are those of the glob. *)
Lemma file_lines_main fs tk a d r w' :
  named_rule a = None ->
  main tk a (World fs (Some d) []) = (r, w') ->
  file_lines (stdout w') = glob_result d.
Proof.
  intros Hn. rewrite main_target. unfold target_of. rewrite Hn.
  destruct (glob_result d) as [|f more] eqn:Hglob; intros Hmain;
    injection Hmain as _ <-; [done|].
  cbn [stdout app]. rewrite file_lines_report_lines.
  apply (snapshot_names d (f :: more)).
Qed.

Lemma messages_of_kinds tk upd snap msg :
  msg ∈ messages_of tk upd snap ->
  match msg with
  | FileLine _ _ | WarningNoFrontmatter _ | WarningMalformedFrontmatter _
  | UpdatedRuleTokenCount | CouldNotUpdateRuleTokenCount => True
  | _ => False
  end.
Proof.
  unfold messages_of. rewrite list_elem_of_In, in_flat_map.
  intros ([f c] & _ & Hin%list_elem_of_In). unfold file_messages in Hin. simpl in Hin.
  apply elem_of_cons in Hin as [->|Hin]; [done|].
  destruct upd; [|by apply elem_of_nil in Hin].
  destruct (update_text c (tokens_of tk c));
    repeat (apply elem_of_cons in Hin as [->|Hin]; [done|]);
    by apply elem_of_nil in Hin.
Qed.

Lemma elem_of_report_lines tk a snap msg :
  msg ∈ report_lines tk a snap ->
  msg = TableHeader \/ msg = TableRule \/ msg ∈ messages_of tk (update a) snap \/
  msg = TotalTokens (total_of tk snap) \/
  (total_of tk snap <> 0 /\
   (msg = AlwaysAppliedTokens (always_applied_of tk (update a) snap) (total_of tk snap) \/
    (update a = true /\ msg = UpdatedRuleFiles (length snap)))).
Proof.
  unfold report_lines. rewrite !elem_of_app.
  intros [Hin|[Hin|[Hin|Hin]]].
  - apply elem_of_cons in Hin as [->|Hin]; [by left|].
    apply elem_of_cons in Hin as [->|Hin]; [right; by left|].
    by apply elem_of_nil in Hin.
  - right. right. by left.
  - apply elem_of_cons in Hin as [->|Hin]; [right; by left|].
    apply elem_of_cons in Hin as [->|Hin]; [do 3 right; by left|].
    by apply elem_of_nil in Hin.
  - do 4 right.
    destruct (Nat.eqb_spec (total_of tk snap) 0) as [|Hne];
      [by apply elem_of_nil in Hin|].
    split; [done|].
    apply elem_of_cons in Hin as [->|Hin]; [by left|right].
    destruct (update a); [|by apply elem_of_nil in Hin].
    apply elem_of_cons in Hin as [->|Hin]; [done|].
    by apply elem_of_nil in Hin.
Qed.

Lemma sum_list_filter_le {A} (f : A -> nat) (p : A -> bool) l :
  sum_list (map f (List.filter p l)) <= sum_list (map f l).
Proof.
  induction l as [|x l IH]; [done|]. simpl.
  destruct (p x); simpl; lia.
Qed.

Lemma always_applied_of_le tk upd snap :
  always_applied_of tk upd snap <= total_of tk snap.
Proof. apply sum_list_filter_le. Qed.

(** X8.  Whenever a run prints the always-applied line, the subtotal on it
    is at most the total, and the total is positive and is the one of the
    total line: the percentage that is printed is defined and between 0 and
    100.  The run then ends without an exception. *)
Theorem always_applied_share fs tk a d r w' x y :
  main tk a (World fs (Some d) []) = (r, w') ->
  AlwaysAppliedTokens x y ∈ stdout w' ->
  x <= y /\ 0 < y /\ TotalTokens y ∈ stdout w' /\ r = inr tt.
Proof.
  intros [(msg & Hmsg & -> & _)|[[-> _]|(name & snap & -> & ->)]]%main_stdout Hin.
  { apply list_elem_of_singleton in Hin as <-. done. }
  { by repeat (apply elem_of_cons in Hin as [|Hin]; [done|]);
      apply elem_of_nil in Hin. }
  apply elem_of_show_name in Hin; [|done].
  assert (TotalTokens (total_of tk snap) ∈ report_lines tk a snap) as Htotal.
  { unfold report_lines. rewrite !elem_of_app. do 2 right. left.
    apply list_elem_of_further, list_elem_of_here. }
  apply elem_of_report_lines in Hin
    as [|[|[Hin%messages_of_kinds|[|[Hne [[= -> ->]|[_ ?]]]]]]]; try done.
  split; [apply always_applied_of_le|]. split; [lia|].
  split; [by apply elem_of_show_name|].
  unfold report_result. by destruct (Nat.eqb_spec (total_of tk snap) 0).
Qed.

Lemma always_applied_share_witness :
  let doc := text ["---"; "alwaysApply: true"; "---"; "hello world"] in
  let d : gmap string str := {[ "a.mdc" := doc; "b.mdc" := lit "plain text" ]} in
  let a := Args false None ".cursor/rules" in
  let w' := World example_paths (Some d)
              [TableHeader; TableRule; FileLine "a.mdc" 11; FileLine "b.mdc" 10;
               TableRule; TotalTokens 21; AlwaysAppliedTokens 11 21] in
  11 <= 21 /\ 0 < 21 /\ TotalTokens 21 ∈ stdout w' /\ @inr exn unit tt = inr tt.
Proof.
  intros doc d a w'.
  apply (always_applied_share example_paths chars a d (inr tt) w' 11 21).
  - vm_compute. reflexivity.
  - simpl. do 6 apply list_elem_of_further. apply list_elem_of_here.
Defined.

(** X9.  The table adds up: the total on the total line is the sum of the
    counts on the file lines printed before it, with and without
    [--update], whether or not updates were refused. *)
Theorem total_is_sum_of_file_lines fs tk a d r w' y :
  main tk a (World fs (Some d) []) = (r, w') ->
  TotalTokens y ∈ stdout w' ->
  y = sum_list (file_counts (stdout w')).
Proof.
  intros [(msg & Hmsg & -> & _)|[[-> _]|(name & snap & -> & _)]]%main_stdout Hin.
  { apply list_elem_of_singleton in Hin as <-. done. }
  { by repeat (apply elem_of_cons in Hin as [|Hin]; [done|]);
      apply elem_of_nil in Hin. }
  apply elem_of_show_name in Hin; [|done].
  rewrite file_counts_show_name, file_counts_report_lines.
  by apply elem_of_report_lines in Hin
    as [|[|[Hin%messages_of_kinds|[[= ->]|[Hne [|[_ ?]]]]]]].
Qed.

Lemma total_is_sum_of_file_lines_witness :
  let doc := text ["---"; "alwaysApply: true"; "---"; "hello world"] in
  let d : gmap string str := {[ "a.mdc" := doc; "b.mdc" := lit "plain text" ]} in
  let a := Args false None ".cursor/rules" in
  let w' := World example_paths (Some d)
              [TableHeader; TableRule; FileLine "a.mdc" 11; FileLine "b.mdc" 10;
               TableRule; TotalTokens 21; AlwaysAppliedTokens 11 21] in
  21 = sum_list (file_counts (stdout w')).
Proof.
  intros doc d a w'.
  apply (total_is_sum_of_file_lines example_paths chars a d (inr tt) w' 21).
  - vm_compute. reflexivity.
  - simpl. do 5 apply list_elem_of_further. apply list_elem_of_here.
Defined.

(** ** The files of a run *)

Lemma path_le_total : Total path_le.
Proof. intros x y. unfold path_le. apply String.leb_total. Qed.

Lemma glob_result_Sorted d : Sorted path_le (glob_result d).
Proof. unfold glob_result. apply (@Sorted_merge_sort _ path_le _ path_le_total). Qed.

Lemma processed_glob a fs d :
  named_rule a = None -> processed a fs d = glob_result d.
Proof. intros Hn. unfold processed. by rewrite Hn. Qed.

(** X10.  Without [--rule] (or with an empty one) the files a run prints a
    table line for are the entries of the rules directory whose name ends in
    [.mdc], each one once, in ascending order of their names: every name is
    at most the next one.  When there is none, no table line is printed. *)
Theorem glob_files_in_order fs tk a d r w' :
  named_rule a = None ->
  main tk a (World fs (Some d) []) = (r, w') ->
  Sorted path_le (file_lines (stdout w')) /\
  NoDup (file_lines (stdout w')) /\
  forall f, f ∈ file_lines (stdout w') <-> f ∈ dom d /\ endswith ".mdc" f = true.
Proof.
  intros Hn Hmain. rewrite (file_lines_main _ _ _ _ _ _ Hn Hmain).
  split; [apply glob_result_Sorted|]. split; [apply glob_result_NoDup|].
  apply glob_result_spec.
Qed.

Lemma glob_files_in_order_witness :
  let d : gmap string str :=
    {[ "b.mdc" := lit "plain text"; "a.mdc" := lit "hello"; "notes.txt" := lit "n" ]} in
  let a := Args false None ".cursor/rules" in
  let w' := World example_paths (Some d)
              [TableHeader; TableRule; FileLine "a.mdc" 5; FileLine "b.mdc" 10;
               TableRule; TotalTokens 15; AlwaysAppliedTokens 0 15] in
  Sorted path_le (file_lines (stdout w')) /\
  NoDup (file_lines (stdout w')) /\
  forall f, f ∈ file_lines (stdout w') <-> f ∈ dom d /\ endswith ".mdc" f = true.
Proof.
  intros d a w'.
  apply (glob_files_in_order example_paths chars a d (inr tt) w'); [reflexivity|].
  vm_compute. reflexivity.
Defined.

(** X11.  With [--rule <name>] and the entry [<name>] in the rules
    directory, a run processes that file and no other, whatever its name
    ends in: one file line, whose count is the total; the always-applied
    subtotal, when it is printed, is either 0 or the total. *)
Theorem run_on_named_rule fs tk a d name content r w' :
  named_rule a = Some name -> d !! name = Some content ->
  main tk a (World fs (Some d) []) = (r, w') ->
  file_lines (stdout w') = [name] /\
  file_counts (stdout w') = [tokens_of tk content] /\
  TotalTokens (tokens_of tk content) ∈ stdout w' /\
  forall x y, AlwaysAppliedTokens x y ∈ stdout w' -> x = 0 \/ x = y.
Proof.
  intros Hn Hfile Hmain.
  assert (discover a d = inr [name]) as Hdisc.
  { unfold discover. rewrite Hn, bool_decide_eq_true_2; [done|]. by rewrite Hfile. }
  assert (snapshot d [name] = [(name, content)]) as Hsnap.
  { unfold snapshot, content_in. simpl. by rewrite Hfile. }
  rewrite main_target, (target_of_discover _ _ _ _ Hdisc), Hsnap in Hmain.
  injection Hmain as _ <-. simpl stdout.
  assert (total_of tk [(name, content)] = tokens_of tk content) as Htotal.
  { unfold total_of. simpl. lia. }
  split; [by rewrite file_lines_report_lines|].
  split; [by rewrite file_counts_report_lines|].
  split.
  - unfold report_lines. rewrite !elem_of_app. do 2 right. left.
    rewrite Htotal. apply list_elem_of_further, list_elem_of_here.
  - intros x y Hin.
    apply elem_of_report_lines in Hin
      as [|[|[Hin%messages_of_kinds|[|[Hne [[= -> ->]|[_ ?]]]]]]]; try done.
    rewrite Htotal. unfold always_applied_of. cbn [List.filter snd].
    destruct (always_applied tk (update a) content); simpl; lia.
Qed.

Lemma run_on_named_rule_witness :
  let doc := text ["---"; "alwaysApply: true"; "---"; "hello world"] in
  let d : gmap string str := {[ "rule.md" := doc; "b.mdc" := lit "plain text" ]} in
  let a := Args false (Some "rule.md") ".cursor/rules" in
  let w' := World example_paths (Some d)
              [TableHeader; TableRule; FileLine "rule.md" 11;
               TableRule; TotalTokens 11; AlwaysAppliedTokens 11 11] in
  file_lines (stdout w') = ["rule.md"] /\
  file_counts (stdout w') = [tokens_of chars doc] /\
  TotalTokens (tokens_of chars doc) ∈ stdout w' /\
  forall x y, AlwaysAppliedTokens x y ∈ stdout w' -> x = 0 \/ x = y.
Proof.
  intros doc d a w'.
  apply (run_on_named_rule example_paths chars a d "rule.md" doc (inr tt) w');
    [reflexivity|reflexivity|].
  vm_compute. reflexivity.
Defined.

Lemma counts_messages_of tk upd snap :
  List.filter is_count (messages_of tk upd snap)
  = map (fun p => FileLine p.1 (tokens_of tk p.2)) snap.
Proof.
  unfold messages_of. induction snap as [|[f c] snap IH]; [done|].
  simpl flat_map.
  destruct upd; [destruct (update_text c (tokens_of tk c))|]; simpl;
    f_equal; exact IH.
Qed.

Lemma counts_report_lines tk a snap :
  List.filter is_count (report_lines tk a snap)
  = map (fun p => FileLine p.1 (tokens_of tk p.2)) snap
    ++ [TotalTokens (total_of tk snap)].
Proof.
  unfold report_lines. rewrite !List.filter_app, counts_messages_of.
  by destruct (total_of tk snap =? 0), (update a).
Qed.

(** X12.  The counts do not depend on [--update]: from the same rules
    directory and with the same [--rule], a run with [--update] and a run
    without end the same way and print the same file lines, with the same
    counts and in the same order, and the same total line. *)
Theorem counts_independent_of_update tk rule dir w :
  let with_update := main tk (Args true rule dir) w in
  let without := main tk (Args false rule dir) w in
  with_update.1 = without.1 /\
  List.filter is_count (stdout with_update.2)
  = List.filter is_count (stdout without.2).
Proof.
  cbv zeta. destruct w as [fs [d|] out].
  2:{ by rewrite !main_no_rules_dir. }
  rewrite !main_target.
  change (target_of (Args true rule dir) fs d)
    with (target_of (Args false rule dir) fs d).
  destruct (target_of (Args false rule dir) fs d) as [msg|files|path content|];
    [done| | |done].
  - split; [done|]. simpl.
    by rewrite !List.filter_app, !counts_report_lines.
  - split; [done|]. cbn [stdout snd].
    by rewrite !List.filter_app, !counts_show_name, !counts_report_lines.
Qed.

Lemma update_outcomes_messages_of tk snap :
  length (List.filter is_update_outcome (messages_of tk true snap)) = length snap.
Proof.
  unfold messages_of. induction snap as [|[f c] snap IH]; [done|].
  simpl flat_map.
  destruct (update_text c (tokens_of tk c)); simpl; f_equal; exact IH.
Qed.

(** X13.  The closing message of a run with [--update] gives the number of
    files that were processed, not the number of files that were changed:
    it is the number of file lines, and the number of update outcomes
    printed, accepted and refused ones together.  It is printed only with
    [--update] and only by a run that ends without an exception. *)
Theorem updated_rule_files_counts_attempts fs tk a d r w' n :
  main tk a (World fs (Some d) []) = (r, w') ->
  UpdatedRuleFiles n ∈ stdout w' ->
  update a = true /\ r = inr tt /\
  n = length (file_lines (stdout w')) /\
  n = length (List.filter is_update_outcome (stdout w')).
Proof.
  intros [(msg & Hmsg & -> & _)|[[-> _]|(name & snap & -> & ->)]]%main_stdout Hin.
  { apply list_elem_of_singleton in Hin as <-. done. }
  { by repeat (apply elem_of_cons in Hin as [|Hin]; [done|]);
      apply elem_of_nil in Hin. }
  apply elem_of_show_name in Hin; [|done].
  apply elem_of_report_lines in Hin
    as [|[|[Hin%messages_of_kinds|[|[Hne [|[Hupd [= ->]]]]]]]]; try done.
  split; [done|]. split.
  { unfold report_result. by destruct (Nat.eqb_spec (total_of tk snap) 0). }
  split.
  - by rewrite file_lines_show_name, file_lines_report_lines, !length_map.
  - rewrite update_outcomes_show_name.
    unfold report_lines. rewrite Hupd, !List.filter_app, !length_app.
    rewrite update_outcomes_messages_of.
    by destruct (total_of tk snap =? 0); simpl; lia.
Qed.

Lemma updated_rule_files_counts_attempts_witness :
  let d : gmap string str :=
    {[ "a.mdc" := lit "hello"; "b.mdc" := lit "plain text" ]} in
  let a := Args true None ".cursor/rules" in
  let w' := World example_paths (Some d)
              [TableHeader; TableRule;
               FileLine "a.mdc" 5; WarningNoFrontmatter "a.mdc";
               CouldNotUpdateRuleTokenCount;
               FileLine "b.mdc" 10; WarningNoFrontmatter "b.mdc";
               CouldNotUpdateRuleTokenCount;
               TableRule; TotalTokens 15; AlwaysAppliedTokens 0 15;
               UpdatedRuleFiles 2] in
  update a = true /\ @inr exn unit tt = inr tt /\
  2 = length (file_lines (stdout w')) /\
  2 = length (List.filter is_update_outcome (stdout w')).
Proof.
  intros d a w'.
  apply (updated_rule_files_counts_attempts example_paths chars a d (inr tt) w' 2).
  - vm_compute. reflexivity.
  - simpl. do 11 apply list_elem_of_further. apply list_elem_of_here.
Defined.

(** ** A second run *)

Lemma extract_update_text content n new_content :
  update_text content n = Rewritten new_content ->
  extract_content_from_mdc new_content = extract_content_from_mdc content.
Proof.
  intros (e & Hs & He & ->)%update_text_Rewritten.
  rewrite extract_rewritten.
  - symmetry. by apply extract_well_formed.
  - by apply free_of_set_rule_token_count, free_of_frontmatter.
Qed.

Lemma tokens_of_text_after tk upd content :
  tokens_of tk (text_after tk upd content) = tokens_of tk content.
Proof.
  unfold text_after. destruct upd; [|done].
  destruct (update_text content (tokens_of tk content)) as [| |new] eqn:Hup;
    [done..|].
  unfold tokens_of. by rewrite (extract_update_text _ _ _ Hup).
Qed.

Lemma glob_result_dom d d1 : dom d1 = dom d -> glob_result d1 = glob_result d.
Proof. intros Hdom. unfold glob_result. by rewrite Hdom. Qed.

Lemma target_of_again a a2 fs d d1 :
  named_rule a2 = named_rule a -> dom d1 = dom d ->
  match target_of a fs d with
  | NoFile _ => exists msg, target_of a2 fs d1 = NoFile msg
  | EntryFiles files => target_of a2 fs d1 = EntryFiles files
  | OtherFile _ _ => True
  | NotAFile => target_of a2 fs d1 = NotAFile
  end.
Proof.
  intros Hn Hdom. unfold target_of. rewrite Hn, (glob_result_dom _ _ Hdom).
  assert (forall name, d1 !! name = None <-> d !! name = None) as Hnone.
  { intros name. by rewrite <- !not_elem_of_dom, Hdom. }
  destruct (named_rule a) as [path|].
  - destruct (d !! path) eqn:Hp.
    + destruct (d1 !! path) eqn:Hp1; [done|]. apply Hnone in Hp1. congruence.
    + apply Hnone in Hp. rewrite Hp. destruct (fs path) as [| | |name]; eauto.
      destruct (d !! name) eqn:Hname; [done|].
      apply Hnone in Hname. rewrite Hname. eauto.
  - destruct (glob_result d); eauto.
Qed.

(** After a run on a path that is no entry name, the path leads to the
    text the file has once processed. *)
Lemma store_after_other tk a fs d out path content :
  target_of a fs d = OtherFile path content ->
  exists d1,
    rules (store_after tk (update a) path content (World fs (Some d) out)) = Some d1 /\
    forall a2,
      named_rule a2 = named_rule a ->
      target_of a2
        (beyond (store_after tk (update a) path content (World fs (Some d) out))) d1
      = OtherFile path (text_after tk (update a) content).
Proof.
  intros Ht.
  apply (target_of_other _ _ _ out) in Ht
    as (Hn & Hpath & [(name & Hfs & Hname & _ & Hw)|(Hfs & _ & Hw)]).
  - assert (store_after tk (update a) path content (World fs (Some d) out)
            = World fs (Some (<[name := text_after tk (update a) content]> d)) out)
      as ->.
    { unfold store_after, text_after. destruct (update a).
      - destruct (update_text content (tokens_of tk content));
          rewrite ?Hw; by rewrite ?(insert_id _ _ _ Hname).
      - by rewrite (insert_id _ _ _ Hname). }
    eexists. split; [done|]. intros a2 Hn2. cbn [beyond].
    unfold target_of. rewrite Hn2, Hn, lookup_insert_ne, Hpath, Hfs by congruence.
    by rewrite lookup_insert_eq.
  - exists d. split.
    + unfold store_after. destruct (update a); [|done].
      destruct (update_text content (tokens_of tk content)); by rewrite ?Hw.
    + intros a2 Hn2. unfold target_of. rewrite Hn2, Hn, Hpath.
      assert (beyond (store_after tk (update a) path content (World fs (Some d) out))
                path = Regular (text_after tk (update a) content)) as ->; [|done].
      unfold store_after, text_after. destruct (update a); [|done].
      destruct (update_text content (tokens_of tk content));
        rewrite ?Hw; simpl; by rewrite ?fn_lookup_insert.
Qed.

Lemma snapshot_disk_after tk upd d files :
  map (fun p => (p.1, tokens_of tk p.2)) (snapshot (disk_after tk upd d files) files)
  = map (fun p => (p.1, tokens_of tk p.2)) (snapshot d files).
Proof.
  unfold snapshot. rewrite !map_map. apply map_ext_in.
  intros f Hf%list_elem_of_In. simpl. f_equal.
  unfold content_in at 1. rewrite disk_after_lookup, decide_True by done.
  apply tokens_of_text_after.
Qed.

Lemma counts_report_lines_tokens tk a snap :
  List.filter is_count (report_lines tk a snap)
  = map (fun q => FileLine q.1 q.2) (map (fun p => (p.1, tokens_of tk p.2)) snap)
    ++ [TotalTokens (sum_list (map snd (map (fun p => (p.1, tokens_of tk p.2)) snap)))].
Proof. rewrite counts_report_lines. unfold total_of. by rewrite !map_map. Qed.

(** X14.  The table is reproducible: after a run of [main], with or without
    [--update] and whatever was rewritten, a further run on the directory
    as the first run left it, with the same [--rule], ends the same way and
    prints the same file lines, with the same counts, and the same total
    line.  The rewriting of the frontmatter does not change what is
    counted. *)
Theorem rerun_same_counts fs tk a a2 d r w1 :
  main tk a (World fs (Some d) []) = (r, w1) -> rule a2 = rule a ->
  exists d1,
    rules w1 = Some d1 /\
    (main tk a2 (World (beyond w1) (Some d1) [])).1 = r /\
    List.filter is_count (stdout (main tk a2 (World (beyond w1) (Some d1) [])).2)
    = List.filter is_count (stdout w1).
Proof.
  rewrite main_target. intros Hmain Hrule.
  assert (named_rule a2 = named_rule a) as Hn.
  { unfold named_rule. by rewrite Hrule. }
  destruct (target_of a fs d) as [msg|files|path content|] eqn:Ht;
    apply pair_equal_spec in Hmain as [<- <-].
  - exists d. split; [done|]. cbn [beyond]. rewrite main_target.
    pose proof (target_of_again a a2 fs d d Hn eq_refl) as Hagain.
    rewrite Ht in Hagain. destruct Hagain as [msg2 Ht2]. rewrite Ht2.
    split; [done|]. apply target_of_NoFile in Ht, Ht2.
    by destruct msg, msg2.
  - pose proof (target_of_entries _ _ _ _ Ht) as (_ & _ & _ & Hex).
    exists (disk_after tk (update a) d files). split; [done|].
    cbn [beyond]. rewrite main_target.
    pose proof (target_of_again a a2 fs d _ Hn (disk_after_dom tk (update a) _ _ Hex))
      as Hagain.
    rewrite Ht in Hagain. rewrite Hagain.
    cbn [stdout snd fst app]. rewrite !counts_report_lines_tokens, snapshot_disk_after.
    split; [|done]. unfold report_result, total_of.
    pose proof (f_equal (map snd) (snapshot_disk_after tk (update a) d files)) as Hsum.
    rewrite !map_map in Hsum. simpl in Hsum. by rewrite Hsum.
  - destruct (store_after_other tk a fs d [] path content Ht) as (d1 & Hd1 & Hagain).
    exists d1. split; [done|]. cbn [beyond]. rewrite main_target, (Hagain a2 Hn).
    cbn [fst snd stdout].
    assert (total_of tk [(path, text_after tk (update a) content)]
            = total_of tk [(path, content)]) as Htotal.
    { unfold total_of. simpl. by rewrite tokens_of_text_after. }
    split.
    + unfold report_result. by rewrite Htotal.
    + rewrite !List.filter_app, !counts_show_name, !counts_report_lines, Htotal.
      simpl. by rewrite tokens_of_text_after.
  - exists d. split; [done|]. cbn [beyond]. rewrite main_target.
    pose proof (target_of_again a a2 fs d d Hn eq_refl) as Hagain.
    rewrite Ht in Hagain. by rewrite Hagain.
Qed.

Lemma rerun_same_counts_witness :
  let doc := text ["---"; "alwaysApply: true"; "---"; "hello world"] in
  let d : gmap string str := {[ "a.mdc" := doc; "b.mdc" := lit "plain text" ]} in
  let a := Args true None ".cursor/rules" in
  let a2 := Args false None ".cursor/rules" in
  let first := main chars a (World example_paths (Some d) []) in
  exists d1,
    rules first.2 = Some d1 /\
    (main chars a2 (World (beyond first.2) (Some d1) [])).1 = first.1 /\
    List.filter is_count (stdout (main chars a2 (World (beyond first.2) (Some d1) [])).2)
    = List.filter is_count (stdout first.2).
Proof.
  intros doc d a a2 first.
  apply (rerun_same_counts example_paths chars a a2 d first.1 first.2); [|reflexivity].
  vm_compute. reflexivity.
Defined.

(** ** No stale count *)

Lemma ends_nl_no_NL b u : no_NL u -> u <> [] -> ends_nl b u = false.
Proof.
  intros Hu Hne. destruct u as [|c u _] using rev_ind; [done|].
  unfold ends_nl. rewrite last_snoc. apply eqc_false.
  by apply Forall_app in Hu as [_ Hc%Forall_inv].
Qed.

Lemma ends_nl_app b u v : v <> [] -> ends_nl b (u ++ v) = ends_nl false v.
Proof.
  intros Hv. unfold ends_nl. destruct v as [|c v _] using rev_ind; [done|].
  by rewrite app_assoc, !last_snoc.
Qed.

(** A text that the replacement of the fields by [ruleTokenCount: <n>]
    leaves as it is has no other field. *)
Lemma fixed_point_fields n len b s :
  length s <= len ->
  Re.sub_from Re.rule_token_count_field (rule_token_count_line n) 0 b s = s ->
  every_field_declares n b s.
Proof.
  revert b s. induction len as [|len IH]; intros b s Hlen Hfix pre post k Hs Hpre Hk.
  { destruct s; [|simpl in Hlen; lia]. symmetry in Hs.
    apply app_eq_nil in Hs as [_ ->].
    apply rule_token_count_field_len in Hk. simpl in Hk. lia. }
  destruct (F_cases n b s) as [[-> _]|[(k0 & -> & Hm & HF)|(c & t & -> & Hb & HF)]].
  - symmetry in Hs. apply app_eq_nil in Hs as [_ ->].
    apply rule_token_count_field_len in Hk. simpl in Hk. lia.
  - rewrite Hfix in HF.
    pose proof Hm as Hm'.
    apply rule_token_count_field_Some in Hm'
      as (ws & ds & post0 & Hs0 & _ & _ & _ & Hpost0 & Hk0).
    assert (drop k0 s = post0) as Hdrop.
    { rewrite Hs0, Hk0, !app_assoc, <- !length_app. by rewrite drop_app_length. }
    rewrite Hdrop in HF. clear Hs0 Hk0 Hdrop ws ds.
    pose proof (F_idempotent n (length post0) false post0 (le_n _)) as HfixY.
    assert (starts_nondigit
              (Re.sub_from Re.rule_token_count_field (rule_token_count_line n) 0
                 false post0)) as HY
      by (by apply (sub_starts_nondigit _ _ (replace_shape n))).
    revert HF HfixY HY.
    generalize (Re.sub_from Re.rule_token_count_field (rule_token_count_line n) 0
                  false post0).
    intros Y HF HfixY HY.
    assert (length Y <= len) as HlenY.
    { rewrite HF, length_app in Hlen.
      pose proof (str_of_nat_nonempty n).
      assert (0 < length (rule_token_count_line n)); [|lia].
      unfold rule_token_count_line. rewrite !length_app. simpl. lia. }
    rewrite HF in Hs. symmetry in Hs.
    apply app_eq_inv in Hs as [(j & Hj & HYj)|(j & Hj & Hpost)].
    + destruct (decide (j = [])) as [->|Hjne].
      * rewrite app_nil_r in Hj. subst pre.
        rewrite ends_nl_no_NL in Hpre; [done|apply line_no_NL|].
        by destruct (line_head n) as (c & r & -> & _).
      * apply (IH false Y HlenY HfixY j post k); [done| |done].
        subst pre. by rewrite ends_nl_app in Hpre.
    + destruct pre as [|p pre].
      * simpl in Hj. subst j.
        rewrite Hpost in Hk. rewrite rule_token_count_line_match in Hk by done.
        assert (k = length (rule_token_count_line n)) as -> by congruence.
        rewrite Hpost. by rewrite take_app_length.
      * assert (no_NL (p :: pre)) as Hno.
        { pose proof (line_no_NL n) as Hl. rewrite Hj in Hl.
          by apply Forall_app in Hl as [Hl _]. }
        by rewrite ends_nl_no_NL in Hpre.
  - rewrite Hfix in HF. injection HF as HF.
    destruct pre as [|p pre].
    + simpl in Hs. change (b = true) in Hpre. subst post b.
      destruct Hb as [|Hb]; [done|]. congruence.
    + injection Hs as <- Ht. rewrite ends_nl_cons in Hpre.
      apply (IH (eqc c NL) t ltac:(simpl in Hlen; lia) (eq_sym HF) pre post k);
        done.
Qed.

(** X15.  No stale count is left.  In the frontmatter that is read back
    from an updated file, the field [ruleTokenCount: <n>] stands at the
    beginning of a line, and every match of [ruleTokenCount:\s*\d+] that
    starts at the beginning of a line is the text [ruleTokenCount: <n>]
    with the new count: where the frontmatter had several such fields, all
    of them show the new count. *)
Theorem no_stale_count_field content n new_content :
  update_text content n = Rewritten new_content ->
  exists frontmatter,
    frontmatter_of new_content = Some frontmatter /\
    declares_token_count frontmatter n /\
    every_field_declares n true frontmatter.
Proof.
  intros (e & Hs & He & ->)%update_text_Rewritten.
  set (frontmatter := strip (slice content 3 e)).
  set (updated := set_rule_token_count frontmatter n).
  assert (free_of DELIM updated) as Hfree.
  { by apply free_of_set_rule_token_count, free_of_frontmatter. }
  destruct (strip_trimmed (slice content 3 e)) as [Hstart Hend].
  destruct (second_run frontmatter n Hstart Hend) as (Hagain & Hline & _).
  fold updated in Hagain, Hline.
  exists (strip updated). split; [by apply frontmatter_of_rewritten|].
  split; [done|].
  apply (fixed_point_fields n (length (strip updated))); [done|].
  by rewrite <- (set_rule_token_count_again _ _ Hline).
Qed.

Lemma no_stale_count_field_witness :
  let doc := text ["---"; "ruleTokenCount: 1"; "description: x";
                   "ruleTokenCount:   2"; "---"; "body"] in
  let new_content := text ["---"; "ruleTokenCount: 4"; "description: x";
                           "ruleTokenCount: 4"; "---"; "body"] in
  exists frontmatter,
    frontmatter_of new_content = Some frontmatter /\
    declares_token_count frontmatter 4 /\
    every_field_declares 4 true frontmatter.
Proof.
  intros doc new_content.
  apply (no_stale_count_field doc 4 new_content). vm_compute. reflexivity.
Defined.

(** ** The insertion before [alwaysApply:], line by line *)

Lemma always_apply_key_line u rest :
  no_NL u -> rest_of_line rest ->
  Re.always_apply_key (u ++ rest)
  = if startswith Re.ALWAYS_APPLY u then Some (length Re.ALWAYS_APPLY) else None.
Proof.
  intros Hu [->|[t ->]]; unfold Re.always_apply_key.
  - by rewrite app_nil_r.
  - by rewrite startswith_before_NL by apply no_NL_ALWAYS_APPLY.
Qed.

Lemma with_count_lines_one n l :
  with_count_lines n [l]
  = if startswith Re.ALWAYS_APPLY l then [rule_token_count_line n; l] else [l].
Proof. unfold with_count_lines. cbn [flat_map]. apply app_nil_r. Qed.

Lemma with_count_lines_cons n l ls :
  with_count_lines n (l :: ls) = with_count_lines n [l] ++ with_count_lines n ls.
Proof. unfold with_count_lines. cbn [flat_map]. by rewrite app_nil_r. Qed.

Lemma insert_lines n len b s :
  length s <= len ->
  lines (Re.sub_from Re.always_apply_key (inserted_lines n) 0 b s) =
    match lines s with
    | [] => []
    | l :: ls => (if b then with_count_lines n [l] else [l]) ++ with_count_lines n ls
    end.
Proof.
  revert b s. induction len as [|len IH]; intros b s Hlen.
  { destruct s; [|simpl in Hlen; lia]. by destruct b. }
  destruct (line_split s) as (u & Hu & Hs).
  assert (exists rest, s = u ++ rest /\ rest_of_line rest) as (rest & -> & Hrest).
  { destruct Hs as [->|[t ->]].
    - exists []. rewrite app_nil_r. split; [done|by left].
    - exists (NL :: t). split; [done|right; by exists t]. }
  assert (match sub_rest Re.always_apply_key (inserted_lines n) rest
          with [] => [] | _ :: t => lines t end
          = with_count_lines n match rest with [] => [] | _ :: t => lines t end)
    as Htl.
  { destruct Hrest as [->|[t ->]]; [done|]. simpl sub_rest. cbv iota.
    rewrite IH by (rewrite length_app in Hlen; simpl in Hlen; lia).
    destruct (lines t) as [|l ls]; [done|]. by rewrite <- with_count_lines_cons. }
  assert (rest_of_line (sub_rest Re.always_apply_key (inserted_lines n) rest))
    as Hrest'.
  { destruct Hrest as [->|[t ->]]; [by left|right]. by eexists. }
  rewrite (lines_line u rest) by done.
  assert (forall h, no_NL h ->
            lines (h ++ sub_rest Re.always_apply_key (inserted_lines n) rest)
            = h :: with_count_lines n
                     match rest with [] => [] | _ :: t => lines t end) as Hline.
  { intros h Hh. rewrite lines_line by done. by rewrite Htl. }
  pose proof (always_apply_key_line u rest Hu Hrest) as Hkey.
  destruct b.
  - destruct (startswith Re.ALWAYS_APPLY u) eqn:Hstart.
    + assert (length Re.ALWAYS_APPLY <= length u) as Hk
        by (by apply startswith_length).
      rewrite (sub_line_match _ _ (insert_shape n) _ _ _ Hu Hrest Hkey Hk).
      unfold inserted_lines at 1. rewrite <- !app_assoc.
      change ([NL] ++ ?x) with (NL :: x).
      rewrite lines_app_NL by apply line_no_NL.
      rewrite (app_assoc Re.ALWAYS_APPLY).
      pose proof Hstart as Heq. apply startswith_inv in Heq. rewrite <- Heq.
      rewrite Hline by done. by rewrite with_count_lines_one, Hstart.
    + rewrite (sub_line_copy _ (inserted_lines n) _ _ Hu Hrest Hkey).
      rewrite Hline by done. by rewrite with_count_lines_one, Hstart.
  - rewrite (sub_line_false _ (inserted_lines n) _ _ Hu Hrest).
    by rewrite Hline.
Qed.

(** X16.  The insertion, line by line.  In a frontmatter block with no count
    field and with a line that begins with [alwaysApply:], the updater puts
    the line [ruleTokenCount: <n>] before every line that begins with
    [alwaysApply:], not only the first, and keeps every line as it is, in
    order: a block with two such lines gets the count twice. *)
Theorem count_line_before_every_always_apply frontmatter n :
  ~ has_field Re.rule_token_count_field frontmatter ->
  has_field Re.always_apply_key frontmatter ->
  lines (set_rule_token_count frontmatter n)
  = with_count_lines n (lines frontmatter).
Proof.
  intros Hno%search_no_field Hkey%search_has_field.
  unfold set_rule_token_count, Re.sub. rewrite Hno, Hkey.
  fold (inserted_lines n).
  rewrite (insert_lines n (length frontmatter)) by done.
  destruct (lines frontmatter) as [|l ls]; [done|].
  by rewrite <- with_count_lines_cons.
Qed.

Lemma count_line_before_every_always_apply_witness :
  let frontmatter := text ["description: x"; "alwaysApply: true"; "alwaysApply: false"] in
  lines (set_rule_token_count frontmatter 5)
  = with_count_lines 5 (lines frontmatter).
Proof.
  intros frontmatter. apply count_line_before_every_always_apply.
  - apply search_no_field. vm_compute. reflexivity.
  - apply search_has_field. vm_compute. reflexivity.
Defined.

(** X17.  Without [--update] a run says nothing about the frontmatter of any
    file: no warning and no update outcome is printed, also for files
    without frontmatter or with malformed frontmatter. *)
Theorem no_frontmatter_report_without_update fs tk a d r w' msg :
  update a = false ->
  main tk a (World fs (Some d) []) = (r, w') ->
  msg ∈ stdout w' -> is_update_message msg = false.
Proof.
  intros Hupd [(m & Hm & -> & _)|[[-> _]|(name & snap & -> & _)]]%main_stdout Hin.
  { apply list_elem_of_singleton in Hin as ->. by destruct m. }
  { by repeat (apply elem_of_cons in Hin as [->|Hin]; [done|]);
      apply elem_of_nil in Hin. }
  apply list_elem_of_In, in_map_iff in Hin as (m & <- & Hin%list_elem_of_In).
  assert (is_update_message (show_name name m) = is_update_message m) as ->.
  { by destruct m. }
  apply elem_of_report_lines in Hin
    as [->|[->|[Hin|[->|[_ [->|[Hupd' _]]]]]]]; try done; [|congruence].
  rewrite Hupd in Hin. unfold messages_of in Hin.
  rewrite list_elem_of_In, in_flat_map in Hin.
  destruct Hin as ([f c] & _ & Hin%list_elem_of_In).
  unfold file_messages in Hin. simpl in Hin.
  by apply list_elem_of_singleton in Hin as ->.
Qed.

Lemma no_frontmatter_report_without_update_witness :
  let d : gmap string str := {[ "a.mdc" := text ["---"; "description: x"; "# Body"] ]} in
  let a := Args false None ".cursor/rules" in
  let w' := World example_paths (Some d)
              [TableHeader; TableRule; FileLine "a.mdc" 25;
               TableRule; TotalTokens 25; AlwaysAppliedTokens 0 25] in
  is_update_message (FileLine "a.mdc" 25) = false.
Proof.
  intros d a w'.
  apply (no_frontmatter_report_without_update example_paths chars a d (inr tt) w').
  - reflexivity.
  - vm_compute. reflexivity.
  - simpl. do 2 apply list_elem_of_further. apply list_elem_of_here.
Defined.

(** ** The always-applied check on an updated file *)

Lemma always_apply_true_app post X k :
  Re.always_apply_true post = Some k -> Re.always_apply_true (post ++ X) = Some k.
Proof.
  unfold Re.always_apply_true. cbv zeta.
  destruct (startswith Re.ALWAYS_APPLY post) eqn:Hkey; [|done].
  rewrite (startswith_app_l _ _ X Hkey).
  rewrite drop_app_le by (by apply startswith_length).
  set (r := drop (length Re.ALWAYS_APPLY) post).
  destruct (startswith Re.TRUE (drop (Re.span isspace r) r)) eqn:Htrue; [|done].
  assert (Re.span isspace (r ++ X) = Re.span isspace r) as ->.
  { rewrite <- (take_drop (Re.span isspace r) r) at 1. rewrite <- app_assoc.
    rewrite span_app.
    - rewrite length_take. pose proof (span_le isspace r). lia.
    - apply span_take.
    - apply startswith_inv in Htrue. by rewrite Htrue. }
  rewrite drop_app_le by apply span_le.
  by rewrite (startswith_app_l _ _ X Htrue).
Qed.

Lemma always_apply_true_line n : Re.search Re.always_apply_true (rule_token_count_line n) = false.
Proof.
  destruct (Re.search Re.always_apply_true (rule_token_count_line n)) eqn:Hs; [|done].
  apply search_true in Hs as (pre & post & Heq & Hpre & Hm).
  apply at_line_start_ends_nl in Hpre. destruct pre as [|c pre].
  - simpl in Heq. subst post. by destruct Hm.
  - rewrite ends_nl_no_NL in Hpre; [done| |done].
    pose proof (line_no_NL n) as Hl. rewrite Heq in Hl.
    by apply Forall_app in Hl as [Hl _].
Qed.

(** X18.  On a file as the updater has written it, the check of the loop
    finds every declaration of the frontmatter: if the frontmatter that is
    read back has [alwaysApply:\s*true] at the beginning of a line, then the
    whole text has it too, and the file is counted in the always-applied
    subtotal. *)
Theorem declared_always_apply_found_after_update content n new_content :
  update_text content n = Rewritten new_content ->
  declares_always_apply new_content = true ->
  Re.search Re.always_apply_true new_content = true.
Proof.
  intros (e & Hs & He & ->)%update_text_Rewritten.
  set (frontmatter := strip (slice content 3 e)).
  set (rest := slice_from content (e + 3)).
  assert (free_of DELIM (set_rule_token_count frontmatter n)) as Hfree.
  { by apply free_of_set_rule_token_count, free_of_frontmatter. }
  unfold declares_always_apply. rewrite frontmatter_of_rewritten by done.
  destruct (decide (frontmatter = [])) as [->|Hne].
  { by rewrite strip_set_empty, always_apply_true_line. }
  destruct (strip_trimmed (slice content 3 e)) as [Hstart Hend].
  destruct (first_run frontmatter n Hstart Hend Hne) as (-> & _).
  intros (pre & post & Heq & Hpre & [k Hm])%search_true.
  apply search_true.
  exists (DELIM ++ NL :: pre), (post ++ NL :: DELIM ++ rest).
  split; [|split].
  - unfold rewritten. rewrite Heq. by rewrite <- !app_assoc.
  - right. destruct Hpre as [->|Hlast]; [done|].
    change (DELIM ++ NL :: pre) with ((DELIM ++ [NL]) ++ pre).
    destruct pre as [|c pre _] using rev_ind; [done|].
    rewrite app_assoc, last_snoc. by rewrite last_snoc in Hlast.
  - exists k. by apply always_apply_true_app.
Qed.

Lemma declared_always_apply_found_after_update_witness :
  let doc := text ["---alwaysApply: true"; "---"; "body"] in
  let new_content := text ["---"; "ruleTokenCount: 4"; "alwaysApply: true"; "---"; "body"] in
  Re.search Re.always_apply_true new_content = true.
Proof.
  intros doc new_content.
  apply (declared_always_apply_found_after_update doc 4 new_content);
    vm_compute; reflexivity.
Defined.
